(** * pam_rundir: the reference-counted runtime directory, verified

    A shallow embedding of [pam_rundir.c] and the properties of its
    counter store, parent-directory manager and session hooks.

    The C code runs against an operating system and the PAM library.  Both
    are modelled by one explicit [world]: a path-indexed file system, the
    table of open descriptors, the identity of the process, the PAM handle,
    and what the run leaves behind for an observer (syslog lines, the
    sequence of system calls, the successive file-system states).  Every
    system call that can fail draws its outcome from a per-call queue of
    scripted faults ([faults]); with empty queues the calls behave as on a
    quiet machine.  Access control is not computed by the model: an
    [EACCES] or [EPERM] is a scripted fault like any other. *)

From Stdlib Require Import ZArith Ascii String List Lia Bool.
From stdpp Require Import gmap strings list fin_maps.

Local Open Scope string_scope.
Local Open Scope list_scope.
Local Open Scope Z_scope.

(** ** Constants of the C environment *)

Module Errno.
Definition ENOENT : Z := 2.
Definition EINTR : Z := 4.
Definition EIO : Z := 5.
Definition EBADF : Z := 9.
Definition EAGAIN : Z := 11.
Definition EWOULDBLOCK : Z := 11.
Definition EACCES : Z := 13.
Definition EEXIST : Z := 17.
Definition ENOTDIR : Z := 20.
Definition EISDIR : Z := 21.
Definition EPERM : Z := 1.
Definition ENOTEMPTY : Z := 39.
End Errno.
Import Errno.

Module Pam.
Definition PAM_SUCCESS : Z := 0.
Definition PAM_SYSTEM_ERR : Z := 4.
Definition PAM_BUF_ERR : Z := 5.
Definition PAM_USER_UNKNOWN : Z := 10.
Definition PAM_SESSION_ERR : Z := 14.
Definition PAM_NO_MODULE_DATA : Z := 18.
End Pam.
Import Pam.

(** Permission bits of [<sys/stat.h>]. *)
Definition S_IRWXU : Z := 448.
Definition S_IRUSR : Z := 256.
Definition S_IWUSR : Z := 128.
Definition S_IRWXG : Z := 56.
Definition S_IRGRP : Z := 32.
Definition S_IXGRP : Z := 8.
Definition S_IROTH : Z := 4.
Definition S_IWOTH : Z := 2.
Definition S_IXOTH : Z := 1.

(** The constants the module defines itself. *)
Definition MAX_UID_LENGTH : Z := 10.
Definition MAX_PATH_LEN : Z := 4096.
Definition PATH_MAX : Z := 4096.
Definition LOCK_RETRIES : nat := 5.
Definition LOCK_RETRY_DELAY : Z := 100000.
Definition FLAG_NAME : string := "pam_rundir_has_counted".

(** Modelled from the spec: [config.h] is generated at build time and is not
    part of the sources; the spec gives the defaults [dir=/run/user] and
    [envvar=XDG_RUNTIME_DIR]. *)
Definition PARENT_DIR : string := "/run/user".
Definition VAR_NAME : string := "XDG_RUNTIME_DIR".

(** C [int]: 32 bits, two's complement. *)
Definition INT_MAX : Z := 2147483647.
Definition wrap32 (z : Z) : Z := (z + 2147483648) mod 4294967296 - 2147483648.

Definition NUL : ascii := Ascii.zero.

(** ** The world *)

Inductive node :=
| File (content : list ascii) (owner group mode : Z)
| Dir (owner group mode : Z).

Definition S_ISDIR (n : node) : bool :=
  match n with Dir _ _ _ => true | File _ _ _ _ => false end.


(** The calls whose outcome can be scripted. *)
Inductive syscall :=
| SysMkdir | SysStat | SysChown | SysChmod | SysOpen | SysFlock | SysRead
| SysLseek | SysWrite | SysFtruncate | SysUnlink | SysOpendir | SysRmdir
| SysSetegid | SysSeteuid | SysMalloc | SysGetpwnam
| PamGetData | PamSetData | PamGetUser | PamPutenv.

#[global] Instance syscall_eq_dec : EqDecision syscall.
Proof. solve_decision. Defined.

(** A scripted outcome: the call fails with an error code ([errno] for a
    system call, the PAM return code for a PAM call), or a [read]/[write]
    transfers only [n] bytes. *)
Inductive fault :=
| Fail (code : Z)
| Short (n : nat).

(** What an observer of the process sees, newest first. *)
Inductive event :=
| EvUmask (mask : Z)
| EvMkdir (path : string) (mode : Z)
| EvStat (path : string)
| EvChown (path : string) (uid gid : Z)
| EvChmod (path : string) (mode : Z)
| EvOpen (path : string)
| EvFlock (fd : Z)
| EvUsleep (usec : Z)
| EvClose (fd : Z)
| EvRead (fd : Z)
| EvLseek (fd : Z)
| EvWrite (fd : Z) (buf : list ascii)
| EvFtruncate (fd : Z) (len : Z)
| EvUnlink (path : string)
| EvOpendir (path : string)
| EvRmdir (path : string)
| EvGeteuid
| EvSetegid (gid : Z)
| EvSeteuid (uid : Z).

Record world := World {
  fs : gmap string node;          (* path -> node *)
  hist : list (gmap string node); (* file-system states, newest first *)
  fds : gmap Z (string * nat);    (* descriptor -> (path, offset) *)
  next_fd : nat;                  (* the descriptor the next open returns *)
  locked : gset string;           (* files flock'ed by other processes *)
  euid : Z;
  egid : Z;
  ruid : Z;                       (* real (and saved) user id *)
  rgid : Z;
  umask_ : Z;
  passwd : gmap string (Z * Z);   (* user name -> (uid, gid) *)
  pam_user : option string;       (* what pam_get_user yields *)
  pam_data : option (option Z);   (* the FLAG_NAME entry; Some None: NULL data *)
  pam_env : list string;
  log : list (string * list string); (* (format, arguments), newest first *)
  trace : list event;
  faults : syscall -> list (option fault)
}.

Definition with_fs (f : gmap string node) (w : world) : world :=
  World f (f :: hist w) (fds w) (next_fd w) (locked w) (euid w) (egid w)
        (ruid w) (rgid w) (umask_ w) (passwd w) (pam_user w) (pam_data w)
        (pam_env w) (log w) (trace w) (faults w).

Definition with_fds (d : gmap Z (string * nat)) (n : nat) (w : world) : world :=
  World (fs w) (hist w) d n (locked w) (euid w) (egid w)
        (ruid w) (rgid w) (umask_ w) (passwd w) (pam_user w) (pam_data w)
        (pam_env w) (log w) (trace w) (faults w).

Definition with_ids (u g : Z) (w : world) : world :=
  World (fs w) (hist w) (fds w) (next_fd w) (locked w) u g
        (ruid w) (rgid w) (umask_ w) (passwd w) (pam_user w) (pam_data w)
        (pam_env w) (log w) (trace w) (faults w).

Definition with_umask (m : Z) (w : world) : world :=
  World (fs w) (hist w) (fds w) (next_fd w) (locked w) (euid w) (egid w)
        (ruid w) (rgid w) m (passwd w) (pam_user w) (pam_data w)
        (pam_env w) (log w) (trace w) (faults w).

Definition with_pam_data (d : option (option Z)) (w : world) : world :=
  World (fs w) (hist w) (fds w) (next_fd w) (locked w) (euid w) (egid w)
        (ruid w) (rgid w) (umask_ w) (passwd w) (pam_user w) d
        (pam_env w) (log w) (trace w) (faults w).

Definition with_pam_env (e : list string) (w : world) : world :=
  World (fs w) (hist w) (fds w) (next_fd w) (locked w) (euid w) (egid w)
        (ruid w) (rgid w) (umask_ w) (passwd w) (pam_user w) (pam_data w)
        e (log w) (trace w) (faults w).

Definition with_log (l : list (string * list string)) (w : world) : world :=
  World (fs w) (hist w) (fds w) (next_fd w) (locked w) (euid w) (egid w)
        (ruid w) (rgid w) (umask_ w) (passwd w) (pam_user w) (pam_data w)
        (pam_env w) l (trace w) (faults w).

Definition with_trace (t : list event) (w : world) : world :=
  World (fs w) (hist w) (fds w) (next_fd w) (locked w) (euid w) (egid w)
        (ruid w) (rgid w) (umask_ w) (passwd w) (pam_user w) (pam_data w)
        (pam_env w) (log w) t (faults w).

Definition with_faults (f : syscall -> list (option fault)) (w : world) : world :=
  World (fs w) (hist w) (fds w) (next_fd w) (locked w) (euid w) (egid w)
        (ruid w) (rgid w) (umask_ w) (passwd w) (pam_user w) (pam_data w)
        (pam_env w) (log w) (trace w) f.

(** ** The state monad of the process *)

Definition M (A : Type) : Type := world -> A * world.

Definition ret {A} (a : A) : M A := fun w => (a, w).

Definition bind {A B} (m : M A) (k : A -> M B) : M B :=
  fun w => let (a, w') := m w in k a w'.

Notation "x <- m ;; k" := (bind m (fun x => k))
  (at level 100, m at next level, right associativity).
Notation "m ;;; k" := (bind m (fun _ => k))
  (at level 100, right associativity).

(** Result of a call: a value, or -1 with [errno] set. *)
Inductive res (A : Type) :=
| Ok (a : A)
| Err (errno : Z).
Arguments Ok {A} a.
Arguments Err {A} errno.

Definition emit (e : event) : M unit :=
  fun w => (tt, with_trace (e :: trace w) w).

(** Takes the next scripted outcome of call [s]; an empty queue means the
    call behaves normally and the world is untouched. *)
Definition pop_fault (s : syscall) : M (option fault) := fun w =>
  match faults w s with
  | [] => (None, w)
  | f :: rest =>
      (f, with_faults (fun s' => if decide (s' = s) then rest else faults w s') w)
  end.

(** [log_error]: one syslog line, kept as the format with its arguments
    (the text of [%m] is not rendered). *)
Definition log_error (fmt : string) (args : list string) : M unit :=
  fun w => (tt, with_log ((fmt, args) :: log w) w).

(** ** System calls

    Each call records itself in the trace, then takes its scripted outcome;
    without one it acts on the file system as the kernel would for a
    process that passes every permission check. *)

Definition scripted {A} (s : syscall) (e : event) (normal : option nat -> M (res A))
  : M (res A) :=
  emit e ;;;
  f <- pop_fault s ;;
  match f with
  | Some (Fail code) => ret (Err code)
  | Some (Short n) => normal (Some n)
  | None => normal None
  end.

(** [strrchr]: index of the last occurrence of [c]. *)
Fixpoint strrchr (s : string) (c : ascii) : option nat :=
  match s with
  | EmptyString => None
  | String a s' =>
      match strrchr s' c with
      | Some i => Some (S i)
      | None => if Ascii.eqb a c then Some 0%nat else None
      end
  end.

(** The directory a new entry [p] would be created in must exist. *)
Definition parent_error (f : gmap string node) (p : string) : option Z :=
  match strrchr p "/" with
  | None | Some O => None
  | Some i =>
      match f !! substring 0 i p with
      | Some (Dir _ _ _) => None
      | Some (File _ _ _ _) => Some ENOTDIR
      | None => Some ENOENT
      end
  end.

(** Names of the entries directly inside directory [p]. *)
Definition entry_name (p k : string) : option string :=
  let pre := p +:+ "/" in
  if String.prefix pre k then
    let name := substring (String.length pre) (String.length k - String.length pre) k in
    match name, strrchr name "/" with
    | EmptyString, _ => None
    | _, Some _ => None
    | _, None => Some name
    end
  else None.

Definition children (f : gmap string node) (p : string) : list string :=
  omap (fun kv => entry_name p (fst kv)) (map_to_list f).

Definition sys_umask (m : Z) : M Z := fun w =>
  (umask_ w, with_umask (Z.land m 511) (with_trace (EvUmask m :: trace w) w)).

Definition sys_mkdir (p : string) (mode : Z) : M (res unit) :=
  scripted SysMkdir (EvMkdir p mode) (fun _ w =>
    match fs w !! p with
    | Some _ => (Err EEXIST, w)
    | None =>
        match parent_error (fs w) p with
        | Some e => (Err e, w)
        | None =>
            let m := Z.land (Z.land mode (Z.lnot (umask_ w))) 511 in
            (Ok tt, with_fs (<[p := Dir (euid w) (egid w) m]> (fs w)) w)
        end
    end).

Definition sys_stat (p : string) : M (res node) :=
  scripted SysStat (EvStat p) (fun _ w =>
    match fs w !! p with
    | Some n => (Ok n, w)
    | None => (Err ENOENT, w)
    end).

Definition sys_chown (p : string) (u g : Z) : M (res unit) :=
  scripted SysChown (EvChown p u g) (fun _ w =>
    match fs w !! p with
    | Some (Dir _ _ m) => (Ok tt, with_fs (<[p := Dir u g m]> (fs w)) w)
    | Some (File c _ _ m) => (Ok tt, with_fs (<[p := File c u g m]> (fs w)) w)
    | None => (Err ENOENT, w)
    end).

Definition sys_chmod (p : string) (mode : Z) : M (res unit) :=
  scripted SysChmod (EvChmod p mode) (fun _ w =>
    match fs w !! p with
    | Some (Dir u g _) => (Ok tt, with_fs (<[p := Dir u g (Z.land mode 4095)]> (fs w)) w)
    | Some (File c u g _) => (Ok tt, with_fs (<[p := File c u g (Z.land mode 4095)]> (fs w)) w)
    | None => (Err ENOENT, w)
    end).

(** [open (p, O_RDWR | O_CREAT, mode)]. *)
Definition sys_open (p : string) (mode : Z) : M (res Z) :=
  scripted SysOpen (EvOpen p) (fun _ w =>
    let fd := Z.of_nat (next_fd w) in
    match fs w !! p with
    | Some (Dir _ _ _) => (Err EISDIR, w)
    | Some (File _ _ _ _) =>
        (Ok fd, with_fds (<[fd := (p, 0%nat)]> (fds w)) (S (next_fd w)) w)
    | None =>
        match parent_error (fs w) p with
        | Some e => (Err e, w)
        | None =>
            let m := Z.land (Z.land mode (Z.lnot (umask_ w))) 511 in
            (Ok fd, with_fds (<[fd := (p, 0%nat)]> (fds w)) (S (next_fd w))
                      (with_fs (<[p := File [] (euid w) (egid w) m]> (fs w)) w))
        end
    end).

(** [flock (fd, LOCK_EX | LOCK_NB)]. *)
Definition sys_flock (fd : Z) : M (res unit) :=
  scripted SysFlock (EvFlock fd) (fun _ w =>
    match fds w !! fd with
    | None => (Err EBADF, w)
    | Some (p, _) =>
        if decide (p ∈ locked w) then (Err EWOULDBLOCK, w) else (Ok tt, w)
    end).

Definition sys_usleep (usec : Z) : M unit := emit (EvUsleep usec).

Definition sys_close (fd : Z) : M unit := fun w =>
  (tt, with_fds (delete fd (fds w)) (next_fd w) (with_trace (EvClose fd :: trace w) w)).

(** The regular file behind a descriptor. *)
Definition fd_file (w : world) (fd : Z) : option (string * nat * list ascii * Z * Z * Z) :=
  match fds w !! fd with
  | None => None
  | Some (p, pos) =>
      match fs w !! p with
      | Some (File c u g m) => Some (p, pos, c, u, g, m)
      | _ => None
      end
  end.

Definition sys_read (fd : Z) (n : nat) : M (res (list ascii)) :=
  scripted SysRead (EvRead fd) (fun short w =>
    match fd_file w fd with
    | None => (Err EBADF, w)
    | Some (p, pos, c, _, _, _) =>
        let want := match short with
                    | Some (S k) => Nat.min (S k) n
                    | _ => n
                    end in
        let got := take want (drop pos c) in
        (Ok got, with_fds (<[fd := (p, (pos + length got)%nat)]> (fds w)) (next_fd w) w)
    end).

(** [lseek (fd, 0, SEEK_SET)]. *)
Definition sys_lseek0 (fd : Z) : M (res Z) :=
  scripted SysLseek (EvLseek fd) (fun _ w =>
    match fds w !! fd with
    | None => (Err EBADF, w)
    | Some (p, _) => (Ok 0, with_fds (<[fd := (p, 0%nat)]> (fds w)) (next_fd w) w)
    end).

(** Bytes [buf] stored at offset [pos]; a gap reads as zero bytes. *)
Definition store_at (pos : nat) (buf c : list ascii) : list ascii :=
  take pos c ++ replicate (pos - length c) NUL ++ buf ++ drop (pos + length buf) c.

Definition sys_write (fd : Z) (buf : list ascii) : M (res Z) :=
  scripted SysWrite (EvWrite fd buf) (fun short w =>
    match fd_file w fd with
    | None => (Err EBADF, w)
    | Some (p, pos, c, u, g, m) =>
        let out := match short with
                   | Some (S k) => take (S k) buf
                   | _ => buf
                   end in
        (Ok (Z.of_nat (length out)),
         with_fds (<[fd := (p, (pos + length out)%nat)]> (fds w)) (next_fd w)
           (with_fs (<[p := File (store_at pos out c) u g m]> (fs w)) w))
    end).

Definition sys_ftruncate (fd : Z) (len : Z) : M (res unit) :=
  scripted SysFtruncate (EvFtruncate fd len) (fun _ w =>
    match fd_file w fd with
    | None => (Err EBADF, w)
    | Some (p, _, c, u, g, m) =>
        let n := Z.to_nat len in
        (Ok tt, with_fs (<[p := File (take n c ++ replicate (n - length c) NUL) u g m]> (fs w)) w)
    end).

Definition sys_unlink (p : string) : M (res unit) :=
  scripted SysUnlink (EvUnlink p) (fun _ w =>
    match fs w !! p with
    | None => (Err ENOENT, w)
    | Some (Dir _ _ _) => (Err EISDIR, w)
    | Some (File _ _ _ _) => (Ok tt, with_fs (delete p (fs w)) w)
    end).

(** [opendir] with the [readdir] stream taken at once: the two
    pseudo-entries, then the names in the directory. *)
Definition sys_opendir (p : string) : M (res (list string)) :=
  scripted SysOpendir (EvOpendir p) (fun _ w =>
    match fs w !! p with
    | None => (Err ENOENT, w)
    | Some (File _ _ _ _) => (Err ENOTDIR, w)
    | Some (Dir _ _ _) => (Ok ("." :: ".." :: children (fs w) p), w)
    end).

Definition sys_rmdir (p : string) : M (res unit) :=
  scripted SysRmdir (EvRmdir p) (fun _ w =>
    match fs w !! p with
    | None => (Err ENOENT, w)
    | Some (File _ _ _ _) => (Err ENOTDIR, w)
    | Some (Dir _ _ _) =>
        match children (fs w) p with
        | [] => (Ok tt, with_fs (delete p (fs w)) w)
        | _ :: _ => (Err ENOTEMPTY, w)
        end
    end).

Definition sys_geteuid : M Z := fun w => (euid w, with_trace (EvGeteuid :: trace w) w).

(** A process may switch its effective id freely while it is privileged,
    and back to its real (saved) id otherwise. *)
Definition sys_setegid (g : Z) : M (res unit) :=
  scripted SysSetegid (EvSetegid g) (fun _ w =>
    if (euid w =? 0) || (g =? rgid w) then (Ok tt, with_ids (euid w) g w)
    else (Err EPERM, w)).

Definition sys_seteuid (u : Z) : M (res unit) :=
  scripted SysSeteuid (EvSeteuid u) (fun _ w =>
    if (euid w =? 0) || (u =? ruid w) then (Ok tt, with_ids u (egid w) w)
    else (Err EPERM, w)).

(** [malloc (sizeof (int))]: [true] for a non-NULL pointer. *)
Definition sys_malloc : M bool :=
  f <- pop_fault SysMalloc ;;
  match f with
  | Some _ => ret false
  | None => ret true
  end.

Definition sys_getpwnam (user : string) : M (option (Z * Z)) :=
  f <- pop_fault SysGetpwnam ;;
  match f with
  | Some _ => ret None
  | None => fun w => (passwd w !! user, w)
  end.

(** ** The PAM library *)

Definition pam_code (f : fault) : Z :=
  match f with
  | Fail c => if c =? PAM_SUCCESS then PAM_SYSTEM_ERR else c
  | Short _ => PAM_SYSTEM_ERR
  end.

(** [pam_get_data (pamh, FLAG_NAME, &data)]: the return code and [data]. *)
Definition pam_get_data : M (Z * option Z) :=
  f <- pop_fault PamGetData ;;
  match f with
  | Some ft => ret (pam_code ft, None)
  | None => fun w =>
      match pam_data w with
      | None => ((PAM_NO_MODULE_DATA, None), w)
      | Some d => ((PAM_SUCCESS, d), w)
      end
  end.

Definition pam_set_data (d : option Z) : M Z :=
  f <- pop_fault PamSetData ;;
  match f with
  | Some ft => ret (pam_code ft)
  | None => fun w => (PAM_SUCCESS, with_pam_data (Some d) w)
  end.

Definition pam_get_user : M (Z * option string) :=
  f <- pop_fault PamGetUser ;;
  match f with
  | Some ft => ret (pam_code ft, None)
  | None => fun w => ((PAM_SUCCESS, pam_user w), w)
  end.

Definition pam_putenv (name_value : string) : M Z :=
  f <- pop_fault PamPutenv ;;
  match f with
  | Some ft => ret (pam_code ft)
  | None => fun w => (PAM_SUCCESS, with_pam_env (name_value :: pam_env w) w)
  end.

(** ** C strings and buffers

    A [char] array is a list of its declared length (a fresh one holds
    zero bytes: the code never reads an element before writing it); element
    writes are stdpp's list insert, and a C string is the bytes before the
    first [NUL]. *)

Definition buffer (n : Z) : list ascii := replicate (Z.to_nat n) NUL.

Fixpoint cstring (b : list ascii) : string :=
  match b with
  | [] => EmptyString
  | a :: r => if Ascii.eqb a NUL then EmptyString else String a (cstring r)
  end.

(** [memcpy (s + off, src, length src)], cut at the end of the array. *)
Definition memcpy (s : list ascii) (off : nat) (src : list ascii) : list ascii :=
  take (length s) (take off s ++ src ++ drop (off + length src) s).

(** [memmove (s + dst, s + src, n)]. *)
Definition memmove (s : list ascii) (dst src n : nat) : list ascii :=
  memcpy s dst (take n (drop src s)).

(** [strncpy (dst, src, n)]: the string, then zero bytes up to [n]. *)
Definition strncpy (dst : list ascii) (src : string) (n : nat) : list ascii :=
  memcpy dst 0 (take n (list_ascii_of_string src ++ replicate n NUL)).

(** [snprintf (buf, size, ...)] of an already formatted text. *)
Definition snprintf (size : Z) (text : string) : string :=
  substring 0 (Z.to_nat (size - 1)) text.

(** ** Integer formatting ([intlen], [print_int]) *)

(** The loops divide an [int] by ten until it is below ten: ten rounds are
    enough for 32 bits, and that is the recursion budget. *)
Fixpoint intlen_loop (rounds : nat) (n l : Z) : Z :=
  match rounds with
  | O => l
  | S k => if n <? 10 then l else intlen_loop k (Z.quot n 10) (l + 1)
  end.

Definition intlen (n : Z) : Z := intlen_loop 10 n 1.

Definition digits : list ascii := list_ascii_of_string "0123456789".

(** [digits[i]]; a negative [i] is outside the array (the code only gets
    there for a negative [n], which its callers never pass). *)
Definition digit_at (i : Z) : ascii := nth (Z.to_nat i) digits NUL.

Fixpoint print_int_loop (rounds : nat) (s : list ascii) (pos : nat) (n : Z)
  : list ascii :=
  match rounds with
  | O => s
  | S k =>
      let pos' := (pos - 1)%nat in
      let s' := <[pos' := digit_at (Z.rem n 10)]> s in
      if n <? 10 then s' else print_int_loop k s' pos' (Z.quot n 10)
  end.

(** [print_int (s + off, n, l)]. *)
Definition print_int (s : list ascii) (off : nat) (n l : Z) : list ascii :=
  print_int_loop 10 s (off + Z.to_nat l) n.

(** [print_filename (s, uid, l)]: "/run/user/.1000". *)
Definition print_filename (s : list ascii) (uid l : Z) : list ascii :=
  let n := String.length PARENT_DIR in
  let s := memcpy s 0 (list_ascii_of_string PARENT_DIR) in
  let s := <[n := "/"%char]> s in
  let s := <[S n := "."%char]> s in
  let s := print_int s (n + 2) uid l in
  <[(n + 2 + Z.to_nat l)%nat := NUL]> s.

(** ** ParentDirectoryManager: [ensure_parent_dir] *)

Definition ensure_parent_dir : M Z :=
  old_umask <- sys_umask S_IWOTH ;;
  r <- (m <- sys_mkdir PARENT_DIR
              (Z.lor (Z.lor (Z.lor S_IRWXU S_IRWXG) S_IROTH) S_IXOTH) ;;
        checked <- match m with
                   | Ok _ => ret true
                   | Err e =>
                       if negb (e =? EEXIST) then
                         log_error "Failed to create directory %s: %m" [PARENT_DIR] ;;;
                         ret false
                       else
                         st <- sys_stat PARENT_DIR ;;
                         match st with
                         | Err _ =>
                             log_error "Failed to stat %s: %m" [PARENT_DIR] ;;;
                             ret false
                         | Ok nd =>
                             if negb (S_ISDIR nd) then
                               log_error "%s exists but is not a directory" [PARENT_DIR] ;;;
                               ret false
                             else ret true
                         end
                   end ;;
        if negb checked then ret 0   (* goto out *)
        else
          co <- sys_chown PARENT_DIR 0 0 ;;
          match co with
          | Err _ => log_error "Failed to set ownership of %s: %m" [PARENT_DIR]
          | Ok _ => ret tt
          end ;;;
          cm <- sys_chmod PARENT_DIR
                  (Z.lor (Z.lor (Z.lor (Z.lor S_IRWXU S_IRGRP) S_IXGRP) S_IROTH) S_IXOTH) ;;
          match cm with
          | Err _ => log_error "Failed to set permissions on %s: %m" [PARENT_DIR]
          | Ok _ => ret tt
          end ;;;
          ret 1) ;;
  sys_umask old_umask ;;;
  ret r.

(** ** CounterStore: [open_and_lock], [read_counter], [write_counter] *)

(** How a retry loop is left. *)
Inductive loop_exit :=
| Break (fd : Z)        (* left by [break], descriptor in hand *)
| Return (r : Z)        (* left by [return r] *)
| Exhausted.            (* the loop condition became false *)

(** [while (retries < LOCK_RETRIES)] around [open]; [left] counts the
    rounds that remain. *)
Fixpoint open_retry (left : nat) (file : string) : M loop_exit :=
  match left with
  | O => ret Exhausted
  | S k =>
      o <- sys_open file (Z.lor (Z.lor (Z.lor S_IRUSR S_IWUSR) S_IRGRP) S_IROTH) ;;
      match o with
      | Ok fd => ret (Break fd)
      | Err e =>
          if negb (e =? EINTR) && negb (e =? EAGAIN) then
            log_error "Failed to open %s: %m" [file] ;;;
            ret (Return (-1))
          else
            sys_usleep LOCK_RETRY_DELAY ;;;
            open_retry k file
      end
  end.

(** [while (retries < LOCK_RETRIES)] around [flock]. *)
Fixpoint lock_retry (left : nat) (fd : Z) (file : string) : M loop_exit :=
  match left with
  | O => ret Exhausted
  | S k =>
      l <- sys_flock fd ;;
      match l with
      | Ok _ => ret (Return fd)
      | Err e =>
          if negb (e =? EWOULDBLOCK) && negb (e =? EINTR) then
            sys_close fd ;;;
            log_error "Failed to lock %s: %m" [file] ;;;
            ret (Return (-1))
          else
            sys_usleep LOCK_RETRY_DELAY ;;;
            lock_retry k fd file
      end
  end.

Definition retries_text : string := "5".

(** [open_and_lock (file, pamh)]; [pamh] is never NULL in this module. *)
Definition open_and_lock (file : string) : M Z :=
  ready <- match strrchr file "/" with
           | None => ret true
           | Some dir_len =>
               if PATH_MAX <=? Z.of_nat dir_len then
                 log_error "Path too long: %.*s" [substring 0 dir_len file] ;;;
                 ret false
               else
                 let path := substring 0 dir_len file in
                 st <- sys_stat path ;;
                 match st with
                 | Err _ =>
                     m <- sys_mkdir path
                            (Z.lor (Z.lor (Z.lor (Z.lor S_IRWXU S_IRGRP) S_IXGRP) S_IROTH) S_IXOTH) ;;
                     match m with
                     | Ok _ => ret true
                     | Err e =>
                         if negb (e =? EEXIST) then
                           log_error "Failed to create directory %s: %m" [path] ;;;
                           ret false
                         else ret true
                     end
                 | Ok nd =>
                     if negb (S_ISDIR nd) then
                       log_error "%s exists but is not a directory" [path] ;;;
                       ret false
                     else ret true
                 end
           end ;;
  if negb ready then ret (-1)
  else
    o <- open_retry LOCK_RETRIES file ;;
    match o with
    | Return r => ret r
    | Exhausted =>
        log_error "Failed to open %s after %d retries: %m" [file; retries_text] ;;;
        ret (-1)
    | Break fd =>
        l <- lock_retry LOCK_RETRIES fd file ;;
        match l with
        | Return r => ret r
        | Break r => ret r
        | Exhausted =>
            sys_close fd ;;;
            log_error "Failed to lock %s after %d retries: %m" [file; retries_text] ;;;
            ret (-1)
        end
    end.

Definition byte_value (a : ascii) : Z := Z.of_N (N_of_ascii a).

Definition is_digit (a : ascii) : bool :=
  (48 <=? byte_value a) && (byte_value a <=? 57).

(** The inner [for] of [read_counter] over the bytes just read; [None] is
    its [return -1]. *)
Fixpoint scan_digits (buf : list ascii) (count : Z) : option Z :=
  match buf with
  | [] => Some count
  | a :: rest =>
      if negb (is_digit a) then None
      else scan_digits rest (wrap32 (wrap32 (count * 10) + (byte_value a - 48)))
  end.

(** The outer [for (;;)] of [read_counter].  [budget] bounds the rounds;
    [None] reports an exhausted budget (see [read_counter_loop_total]). *)
Fixpoint read_counter_loop (budget : nat) (fd : Z) (count : Z) : M (option Z) :=
  match budget with
  | O => ret None
  | S k =>
      r <- sys_read fd 4 ;;
      match r with
      | Ok [] => ret (Some count)
      | Err e =>
          if e =? EINTR then read_counter_loop k fd count
          else ret (Some (-1))
      | Ok buf =>
          if (count =? 0) && (length buf =? 1)%nat && Ascii.eqb (hd NUL buf) "-" then
            ret (Some (-2))
          else
            match scan_digits buf count with
            | None => ret (Some (-1))
            | Some c => read_counter_loop k fd c
            end
      end
  end.

(** Every round that does not leave the loop uses up a scripted outcome or
    at least one byte of the file. *)
Definition read_measure (fd : Z) (w : world) : nat :=
  length (faults w SysRead) +
  match fd_file w fd with
  | Some (_, pos, c, _, _, _) => length c - pos
  | None => 0
  end.

Definition read_counter (fd : Z) : M Z := fun w =>
  let (r, w') := read_counter_loop (S (read_measure fd w)) fd 0 w in
  (match r with Some v => v | None => -1 end, w').

(** [do { r = call; } while (r < 0 && errno == EINTR);] *)
Fixpoint retry_eintr {A} (budget : nat) (call : M (res A)) : M (option (res A)) :=
  match budget with
  | O => ret None
  | S k =>
      r <- call ;;
      match r with
      | Err e => if e =? EINTR then retry_eintr k call else ret (Some r)
      | Ok _ => ret (Some r)
      end
  end.

(** Only a scripted outcome of call [s] makes it answer [EINTR]. *)
Definition do_while_eintr {A} (s : syscall) (call : M (res A)) : M (res A) := fun w =>
  let (r, w') := retry_eintr (S (length (faults w s))) call w in
  (match r with Some x => x | None => Err EINTR end, w').

Definition emergency_invalidate_counter (fd : Z) : M unit :=
  s <- sys_lseek0 fd ;;
  match s with
  | Err _ => ret tt
  | Ok _ =>
      r <- do_while_eintr SysWrite (sys_write fd ["-"%char]) ;;
      match r with
      | Ok n =>
          if n =? 1 then
            do_while_eintr SysFtruncate (sys_ftruncate fd 1) ;;; ret tt
          else ret tt
      | Err _ => ret tt
      end
  end.

(** The [for (;;)] of [write_counter].  The source declares [int w = 0;]
    inside the loop body, so every round starts from [w = 0]. *)
Fixpoint write_loop (budget : nat) (fd : Z) (buf : list ascii) (l : Z)
  : M (option loop_exit) :=
  match budget with
  | O => ret None
  | S k =>
      let w := 0 in
      r <- sys_write fd (take (Z.to_nat (l - w)) (drop (Z.to_nat w) buf)) ;;
      match r with
      | Err e =>
          if e =? EINTR then write_loop k fd buf l
          else
            (if 0 <? w then emergency_invalidate_counter fd else ret tt) ;;;
            ret (Some (Return (-1)))
      | Ok n =>
          let w := w + n in
          if w =? l then ret (Some (Break fd)) else write_loop k fd buf l
      end
  end.

Definition write_counter (fd : Z) (count : Z) : M Z :=
  s <- sys_lseek0 fd ;;
  match s with
  | Err _ => ret (-1)
  | Ok _ =>
      let l := if 0 <=? count then intlen count else 1 in
      let buf := buffer l in
      let buf := if 0 <=? count then print_int buf 0 count l
                 else <[0%nat := "-"%char]> buf in
      x <- (fun w => let (x, w') := write_loop (S (length (faults w SysWrite))) fd buf l w in
                     (match x with Some e => e | None => Return (-1) end, w')) ;;
      match x with
      | Return r => ret r
      | _ =>
          t <- do_while_eintr SysFtruncate (sys_ftruncate fd l) ;;
          match t with
          | Err _ => emergency_invalidate_counter fd ;;; ret (-1)
          | Ok _ => ret 0
          end
      end
  end.

(** ** RuntimeDirectoryController: [rmrf] *)

Fixpoint for_each {A B} (f : A -> B -> M A) (a : A) (l : list B) : M A :=
  match l with
  | [] => ret a
  | b :: rest => a' <- f a b ;; for_each f a' rest
  end.

(** One round of the [readdir] loop; [r] is the result so far. *)
Definition rmrf_entry (recurse : string -> M Z) (path : string) (path_len : Z)
    (r : Z) (d_name : string) : M Z :=
  if String.eqb d_name "." || String.eqb d_name ".." then ret r
  else
    let name_len := Z.of_nat (String.length d_name) in
    if MAX_PATH_LEN <=? path_len + 1 + name_len then
      log_error "Path too long: %s/%s" [path; d_name] ;;;
      ret (-1)
    else
      let full_path := snprintf MAX_PATH_LEN (path +:+ "/" +:+ d_name) in
      st <- sys_stat full_path ;;
      match st with
      | Err _ =>
          log_error "Failed to stat %s: %m" [full_path] ;;;
          ret (-1)
      | Ok nd =>
          if S_ISDIR nd then
            rr <- recurse full_path ;;
            if negb (rr =? 0) then ret (-1) else ret r
          else
            u <- sys_unlink full_path ;;
            match u with
            | Err _ =>
                log_error "Failed to unlink %s: %m" [full_path] ;;;
                ret (-1)
            | Ok _ => ret r
            end
      end.

Definition rmrf_body (recurse : string -> M Z) (path : string) : M Z :=
  u <- sys_unlink path ;;
  match u with
  | Ok _ => ret 0
  | Err e =>
      if negb (e =? EISDIR) then
        log_error "Failed to unlink %s: %m" [path] ;;;
        ret (-1)
      else
        d <- sys_opendir path ;;
        match d with
        | Err _ =>
            log_error "Failed to open directory %s: %m" [path] ;;;
            ret (-1)
        | Ok entries =>
            let path_len := Z.of_nat (String.length path) in
            if MAX_PATH_LEN - 1 <=? path_len then
              log_error "Path too long: %s" [path] ;;;
              ret (-1)
            else
              r <- for_each (rmrf_entry recurse path path_len) 0 entries ;;
              rd <- sys_rmdir path ;;
              match rd with
              | Err _ =>
                  log_error "Failed to remove directory %s: %m" [path] ;;;
                  ret (-1)
              | Ok _ => ret r
              end
        end
  end.

(** [rmrf] calls itself on a strictly longer path and refuses paths of
    [MAX_PATH_LEN - 1] bytes or more, so its nesting is below [MAX_PATH_LEN];
    [depth] is that bound (see [rmrf_depth_enough]). *)
Fixpoint rmrf_depth (depth : nat) (path : string) : M Z :=
  rmrf_body (match depth with
             | O => fun _ => ret (-1)
             | S k => rmrf_depth k
             end) path.

Definition rmrf (path : string) : M Z := rmrf_depth (Z.to_nat MAX_PATH_LEN) path.

(** ** SessionLifecycle: the two hooks *)

Definition pam_strerror (r : Z) : string :=
  if r =? PAM_SYSTEM_ERR then "System error"
  else if r =? PAM_BUF_ERR then "Memory buffer error"
  else if r =? PAM_SESSION_ERR then "Cannot make/remove an entry for the specified session"
  else "Unknown PAM error".

Definition is_null {A} (p : option A) : bool :=
  match p with None => true | Some _ => false end.

(** [r != PAM_SUCCESS || user == NULL || *user == '\0'] *)
Definition no_user (r : Z) (user : option string) : bool :=
  negb (r =? PAM_SUCCESS) ||
  match user with
  | None | Some EmptyString => true
  | Some _ => false
  end.

(** Offset of the byte after [PARENT_DIR] in a path buffer:
    [sizeof (PARENT_DIR) - 1]. *)
Definition parent_len : nat := String.length PARENT_DIR.

(** [pam_sm_close_session]: the counter update and the check of the error
    mark that follows it; the result is the value of [r] on the way to
    [done]. *)
Definition close_session_update (fd count : Z) (file : list ascii) : M Z :=
  r <- write_counter fd count ;;
  if r <? 0 then
    log_error "Failed to update counter in %s" [cstring file] ;;;
    ret r
  else if count =? -1 then
    log_error "Error state encountered during directory removal" [] ;;;
    ret (-1)
  else ret r.

(** The label [done] of [pam_sm_close_session]. *)
Definition close_session_done (fd r : Z) : M Z :=
  sys_close fd ;;;
  pam_set_data None ;;;
  ret (if r =? 0 then PAM_SUCCESS else PAM_SESSION_ERR).

(** [pam_sm_close_session] once the counter has been read: the decrement,
    the removal, the update and the label [done]. *)
Definition close_session_counted (fd : Z) (file : list ascii) (l count : Z) : M Z :=
  r <- (if count <? 0 then
          let r := if count =? -2 then 0 else -1 in
          (if r <? 0 then log_error "Failed to read counter from %s" [cstring file]
           else ret tt) ;;;
          ret r
        else
          let count := if 0 <? count then count - 1 else count in
          cf <- (if count =? 0 then
                   let file := memmove file parent_len (S parent_len) (Z.to_nat (l + 1)) in
                   rm <- rmrf (cstring file) ;;
                   if rm <? 0 then
                     log_error "Failed to remove directory %s" [cstring file] ;;;
                     ret (-1, file)
                   else ret (count, file)
                 else ret (count, file)) ;;
          close_session_update fd (fst cf) (snd cf)) ;;
  close_session_done fd r.

(** [pam_sm_close_session], from reading the counter to the end
    (the descriptor [fd] is open and locked, [file] holds the counter path). *)
Definition close_session_locked (fd : Z) (file : list ascii) (l : Z) : M Z :=
  count <- read_counter fd ;;
  close_session_counted fd file l count.

Definition pam_sm_close_session : M Z :=
  gd <- pam_get_data ;;
  let r := fst gd in
  let data := snd gd in
  if negb (r =? PAM_SUCCESS) && negb (r =? PAM_NO_MODULE_DATA) then
    log_error "Failed to get module data: %s" [pam_strerror r] ;;;
    ret PAM_SESSION_ERR
  else if (r =? PAM_NO_MODULE_DATA) || is_null data then ret PAM_SUCCESS
  else
    e <- sys_geteuid ;;
    if negb (e =? 0) then
      log_error "Must be root to close session" [] ;;;
      ret PAM_SESSION_ERR
    else
      gu <- pam_get_user ;;
      if no_user (fst gu) (snd gu) then
        log_error "Failed to get username: %s"
          [if negb (fst gu =? PAM_SUCCESS) then pam_strerror (fst gu)
           else "No username provided"] ;;;
        ret PAM_USER_UNKNOWN
      else
        let user := default EmptyString (snd gu) in
        pw <- sys_getpwnam user ;;
        match pw with
        | None =>
            log_error "User %s not found in passwd database" [user] ;;;
            ret PAM_USER_UNKNOWN
        | Some (pw_uid, _) =>
            let uid := pw_uid in
            let l := intlen (wrap32 uid) in
            if (l <=? 0) || (MAX_UID_LENGTH <? l) then
              log_error "Invalid UID length for user %s" [user] ;;;
              ret PAM_SYSTEM_ERR
            else
              ok <- ensure_parent_dir ;;
              if ok =? 0 then
                log_error "Failed to ensure parent directory exists" [] ;;;
                ret PAM_SESSION_ERR
              else
                let file := print_filename (buffer MAX_PATH_LEN) (wrap32 uid) l in
                fd <- open_and_lock (cstring file) ;;
                if fd <? 0 then
                  log_error "Failed to open/lock counter file %s" [cstring file] ;;;
                  ret PAM_SESSION_ERR
                else close_session_locked fd file l
        end.

(** The label [revert_counter] of [pam_sm_open_session], up to [done]. *)
Definition revert_counter (fd count : Z) (file : list ascii) : M Z :=
  (if 0 <=? count then
     r <- write_counter fd count ;;
     if r <? 0 then log_error "Failed to revert counter in %s" [cstring file]
     else ret tt
   else ret tt) ;;;
  let r := PAM_SESSION_ERR in
  (if negb (r =? PAM_SUCCESS) then pam_set_data None ;;; ret tt else ret tt) ;;;
  ret r.

(** The label [restore_privs], which falls through to [revert_counter]. *)
Definition restore_privs (fd count : Z) (file : list ascii) : M Z :=
  u <- sys_seteuid 0 ;;
  failed <- match u with
            | Err _ => ret true
            | Ok _ =>
                g <- sys_setegid 0 ;;
                ret (match g with Err _ => true | Ok _ => false end)
            end ;;
  (if failed : bool then log_error "FATAL: Failed to restore root privileges" []
   else ret tt) ;;;
  revert_counter fd count file.

(** [pam_sm_open_session], from reading the counter to the label [done]. *)
Definition open_session_locked (fd : Z) (file : list ascii) (l : Z)
    (user : string) (uid gid : Z) : M Z :=
  count <- read_counter fd ;;
  if (count <? 0) && negb (count =? -2) then
    log_error "Failed to read counter from %s" [cstring file] ;;;
    ret PAM_SESSION_ERR
  else
    let count := if count <? 0 then 0 else count in
    let runtime_dir := buffer MAX_PATH_LEN in
    let runtime_dir := strncpy runtime_dir (cstring file) (Z.to_nat (MAX_PATH_LEN - 1)) in
    let runtime_dir := <[Z.to_nat (MAX_PATH_LEN - 1) := NUL]> runtime_dir in
    let runtime_dir := memmove runtime_dir parent_len (S parent_len) (Z.to_nat (l + 1)) in
    r <- write_counter fd (wrap32 (count + 1)) ;;
    if r <? 0 then
      log_error "Failed to update counter in %s" [cstring file] ;;;
      ret r
    else
      session_data <- sys_malloc ;;
      if negb session_data then
        log_error "Memory allocation failed" [] ;;;
        let r := PAM_BUF_ERR in
        revert_counter fd count file
      else
        r <- pam_set_data (Some 1) ;;
        if negb (r =? PAM_SUCCESS) then
          log_error "Failed to set module data: %s" [pam_strerror r] ;;;
          revert_counter fd count file
        else
          g <- sys_setegid gid ;;
          dropped <- match g with
                     | Err _ => ret false
                     | Ok _ =>
                         u <- sys_seteuid uid ;;
                         ret (match u with Err _ => false | Ok _ => true end)
                     end ;;
          if negb dropped then
            log_error "Failed to set effective UID/GID for user %s" [user] ;;;
            revert_counter fd count file
          else
            m <- sys_mkdir (cstring runtime_dir) S_IRWXU ;;
            if match m with Err e => negb (e =? EEXIST) | Ok _ => false end then
              log_error "Failed to create directory %s: %m" [cstring runtime_dir] ;;;
              restore_privs fd count file
            else
              let env_var := snprintf (MAX_PATH_LEN + Z.of_nat (S (String.length VAR_NAME)))
                               (VAR_NAME +:+ "=" +:+ cstring runtime_dir) in
              r <- pam_putenv env_var ;;
              if negb (r =? PAM_SUCCESS) then
                log_error "Failed to set %s environment variable" [VAR_NAME] ;;;
                restore_privs fd count file
              else
                co <- sys_chown (cstring runtime_dir) uid gid ;;
                match co with
                | Err _ => log_error "Failed to set ownership of %s: %m" [cstring runtime_dir]
                | Ok _ => ret tt
                end ;;;
                cm <- sys_chmod (cstring runtime_dir) S_IRWXU ;;
                match cm with
                | Err _ => log_error "Failed to set permissions on %s: %m" [cstring runtime_dir]
                | Ok _ => ret tt
                end ;;;
                ret PAM_SUCCESS.

Definition pam_sm_open_session : M Z :=
  e <- sys_geteuid ;;
  if negb (e =? 0) then
    log_error "Must be root to open session" [] ;;;
    ret PAM_SESSION_ERR
  else
    gu <- pam_get_user ;;
    if no_user (fst gu) (snd gu) then
      log_error "Failed to get username: %s"
        [if negb (fst gu =? PAM_SUCCESS) then pam_strerror (fst gu)
         else "No username provided"] ;;;
      ret PAM_USER_UNKNOWN
    else
      let user := default EmptyString (snd gu) in
      pw <- sys_getpwnam user ;;
      match pw with
      | None =>
          log_error "User %s not found in passwd database" [user] ;;;
          ret PAM_USER_UNKNOWN
      | Some (pw_uid, pw_gid) =>
          let uid := pw_uid in
          let gid := pw_gid in
          let l := intlen (wrap32 uid) in
          if (l <=? 0) || (MAX_UID_LENGTH <? l) then
            log_error "Invalid UID length for user %s" [user] ;;;
            ret PAM_SYSTEM_ERR
          else
            ok <- ensure_parent_dir ;;
            if ok =? 0 then
              log_error "Failed to ensure parent directory exists" [] ;;;
              ret PAM_SESSION_ERR
            else
              let file := print_filename (buffer MAX_PATH_LEN) (wrap32 uid) l in
              fd <- open_and_lock (cstring file) ;;
              if fd <? 0 then
                log_error "Failed to open/lock counter file %s" [cstring file] ;;;
                ret PAM_SESSION_ERR
              else
                r <- open_session_locked fd file l user uid gid ;;
                (if 0 <=? fd then sys_close fd else ret tt) ;;;
                ret r
      end.

(** * Vocabulary of the properties *)

(** ** Worlds used as concrete inputs *)

(** A machine with [/run] and [/run/user], a root process with umask 022,
    and the user alice (1000:1000) as the PAM user. *)
Definition base_fs : gmap string node :=
  <["/run/user" := Dir 0 0 493]> (<["/run" := Dir 0 0 493]> ∅).

Definition quiet_faults : syscall -> list (option fault) := fun _ => [].

Definition machine (f : gmap string node) (uid : Z) (data : option (option Z))
    (q : syscall -> list (option fault)) : world :=
  World f [] ∅ 3 ∅ uid uid 0 0 18 (<["root" := (0, 0)]> (<["alice" := (1000, 1000)]> ∅))
        (Some "alice") data [] [] [] q.

(** A world is quiet when nothing is scripted to fail. *)
Definition quiet (w : world) : Prop := forall s, faults w s = [].

(** The state a hook leaves when it refuses a caller that is not root: one
    [geteuid], one log line, nothing else. *)
Definition refused (msg : string) (w : world) : world :=
  with_log ((msg, []) :: log w) (with_trace (EvGeteuid :: trace w) w).

(** ** The session hooks on concrete runs *)

(** Content of the regular file at [p], if there is one. *)
Definition file_content (w : world) (p : string) : option (list ascii) :=
  match fs w !! p with
  | Some (File c _ _ _) => Some c
  | _ => None
  end.

Definition is_directory (w : world) (p : string) : bool :=
  match fs w !! p with
  | Some (Dir _ _ _) => true
  | _ => false
  end.

(** The machine on which the path the hook derives for alice's runtime
    directory is already there and hers, so that the [mkdir] issued under
    her identity answers [EEXIST] whatever the permissions of [/run]. *)
Definition prepared_fs : gmap string node :=
  <["/run/user.10000" := Dir 1000 1000 448]> base_fs.

(** [malloc] returns NULL once. *)
Definition out_of_memory : syscall -> list (option fault) :=
  fun s => match s with SysMalloc => [Some (Fail 12)] | _ => [] end.

(** ** Bounded lock acquisition *)

Fixpoint flock_attempts (t : list event) : nat :=
  match t with
  | [] => 0
  | EvFlock _ :: r => S (flock_attempts r)
  | _ :: r => flock_attempts r
  end.

(** Microseconds spent in [usleep]. *)
Fixpoint slept (t : list event) : Z :=
  match t with
  | [] => 0
  | EvUsleep us :: r => us + slept r
  | _ :: r => slept r
  end.

(** One failed attempt, newest first: the [flock], then the 100 ms pause. *)
Definition lock_round (fd : Z) : list event := [EvUsleep LOCK_RETRY_DELAY; EvFlock fd].

(** What a computation adds to the trace: at most [n] lock attempts and
    [n] pauses of [LOCK_RETRY_DELAY], the rest being other calls. *)
Definition adds_at_most {A} (nf ns : nat) (m : M A) : Prop :=
  forall w, exists t,
    trace (snd (m w)) = t ++ trace w
    /\ (flock_attempts t <= nf)%nat
    /\ 0 <= slept t <= Z.of_nat ns * LOCK_RETRY_DELAY.

Fixpoint lock_rounds (n : nat) (fd : Z) : list event :=
  match n with
  | O => []
  | S k => lock_rounds k fd ++ lock_round fd
  end.

(** The counter file of alice, locked by another process. *)
Definition contended : world :=
  World (<["/run/user/.1000" := File ["1"%char] 0 0 420]> base_fs) [] ∅ 3
        {["/run/user/.1000"]} 0 0 0 0 18 (<["alice" := (1000, 1000)]> ∅)
        (Some "alice") (Some (Some 1)) [] [] [] quiet_faults.

(** ** The parent directory *)



(** A machine on which [/run] exists and [/run/user] does not. *)
Definition run_only_fs : gmap string node := <["/run" := Dir 0 0 493]> ∅.

(** A regular file sits where the parent directory should be. *)
Definition blocked_fs : gmap string node :=
  <["/run/user" := File [] 0 0 420]> run_only_fs.

(** ** Reading the counter *)

(** Value of a digit string continuing the number [acc]. *)
Fixpoint digits_value (acc : Z) (c : list ascii) : Z :=
  match c with
  | [] => acc
  | a :: r => digits_value (acc * 10 + (byte_value a - 48)) r
  end.

(** The leading digits of a content. *)
Fixpoint digit_prefix (c : list ascii) : list ascii :=
  match c with
  | [] => []
  | a :: r => if is_digit a then a :: digit_prefix r else []
  end.

(** [4 k] zero digits and then the sentinel byte. *)
Definition padded_sentinel (c : list ascii) : Prop :=
  exists k : nat, c = replicate (4 * k) "0"%char ++ ["-"%char].

(** [read_counter] on a quiet descriptor, as a function of the bytes ahead. *)
Fixpoint parse_chunks (budget : nat) (rest : list ascii) (count : Z) : option Z :=
  match budget with
  | O => None
  | S k =>
      match take 4 rest with
      | [] => Some count
      | buf =>
          if (count =? 0) && (length buf =? 1)%nat && Ascii.eqb (hd NUL buf) "-" then Some (-2)
          else
            match scan_digits buf count with
            | None => Some (-1)
            | Some c => parse_chunks k (drop 4 rest) c
            end
      end
  end.

(** A descriptor open at offset 0 on alice's counter file holding [c]. *)
Definition reading (c : list ascii) (q : syscall -> list (option fault)) : world :=
  World (<["/run/user/.1000" := File c 0 0 420]> base_fs) [] (<[3 := ("/run/user/.1000", 0%nat)]> ∅)
        4 ∅ 0 0 0 0 18 (<["alice" := (1000, 1000)]> ∅)
        (Some "alice") (Some (Some 1)) [] [] [] q.

(** ** Writing the counter *)

(** The digits [print_int] produces, as a list. *)
Fixpoint dec_loop (rounds : nat) (n : Z) (acc : list ascii) : list ascii :=
  match rounds with
  | O => acc
  | S k =>
      let acc' := digit_at (Z.rem n 10) :: acc in
      if n <? 10 then acc' else dec_loop k (Z.quot n 10) acc'
  end.

Definition decimal (n : Z) : list ascii := dec_loop 10 n [].

(** [c] is the minimal decimal representation of [n]. *)
Definition decimal_of (n : Z) (c : list ascii) : Prop :=
  c <> [] /\ forallb is_digit c = true /\ digits_value 0 c = n
  /\ (hd NUL c = "0"%char -> c = ["0"%char]).

(** The bytes [write_counter] sends for [count]. *)
Definition counter_bytes (count : Z) : list ascii :=
  let l := if 0 <=? count then intlen count else 1 in
  let buf := buffer l in
  if 0 <=? count then print_int buf 0 count l else <[0%nat := "-"%char]> buf.

(** The world after a [write_counter] in which every call succeeds. *)
Definition after_write (fd : Z) (p : string) (bytes c : list ascii) (u g m : Z)
    (w : world) : world :=
  let l := Z.of_nat (length bytes) in
  World (<[p := File bytes u g m]> (fs w))
        (<[p := File bytes u g m]> (fs w)
           :: <[p := File (store_at 0 bytes c) u g m]> (fs w) :: hist w)
        (<[fd := (p, length bytes)]> (fds w)) (next_fd w) (locked w)
        (euid w) (egid w) (ruid w) (rgid w) (umask_ w) (passwd w) (pam_user w)
        (pam_data w) (pam_env w) (log w)
        (EvFtruncate fd l :: EvWrite fd bytes :: EvLseek fd :: trace w)
        (faults w).

Definition truncate_fails_once : syscall -> list (option fault) :=
  fun s => match s with SysFtruncate => [Some (Fail EIO)] | _ => [] end.

Definition truncate_fails_twice : syscall -> list (option fault) :=
  fun s => match s with SysFtruncate => [Some (Fail EIO); Some (Fail EIO)] | _ => [] end.

(** The first [write] transfers one byte only. *)
Definition short_write_once : syscall -> list (option fault) :=
  fun s => match s with SysWrite => [Some (Short 1)] | _ => [] end.

(** Only a scripted outcome makes a call answer [EINTR], and it uses up
    one entry of the call's queue. *)
Definition eintr_is_scripted {A} (s : syscall) (call : M (res A)) : Prop :=
  forall w, match call w with
            | (Err e, w1) => e = EINTR -> (length (faults w1 s) < length (faults w s))%nat
            | (Ok _, _) => True
            end.

(** ** The two paths of an identity *)

(** The counter path and the runtime-directory path, as the hooks compute
    them in their buffer. *)
Definition counter_file (uid : Z) : list ascii :=
  print_filename (buffer MAX_PATH_LEN) (wrap32 uid) (intlen (wrap32 uid)).

Definition counter_path (uid : Z) : string := cstring (counter_file uid).

Definition derived_runtime_dir (uid : Z) : string :=
  cstring (memmove (counter_file uid) parent_len (S parent_len)
             (Z.to_nat (intlen (wrap32 uid) + 1))).

(** The digits of an identity, as a string. *)
Definition uid_text (uid : Z) : string := string_of_list_ascii (decimal uid).

(** ** What a removal can touch *)

(** The format of the line the hook logs when the removal failed. *)
Definition removal_failed_fmt : string := "Failed to remove directory %s".

(** [w'] differs from [w] at most below [path], in what was logged (never
    the hook's own removal line) and traced, and in queues that were not
    empty. *)
Record frame (path : string) (w w' : world) : Prop := {
  fr_fs : forall q, String.prefix path q = false -> fs w' !! q = fs w !! q;
  fr_fds : fds w' = fds w;
  fr_faults : forall s, faults w s = [] -> faults w' s = [];
  fr_log : exists l, log w' = l ++ log w
                     /\ forall args, ~ In (removal_failed_fmt, args) l;
  fr_trace : exists t, trace w' = t ++ trace w
}.

Definition framed {A} (path : string) (m : M A) : Prop :=
  forall w, frame path w (snd (m w)).

(** ** Session-end up to the removal *)

(** Nothing but the calls of a removal is scripted. *)
Definition removal_faults_only (w : world) : Prop :=
  forall s, s <> SysUnlink -> s <> SysOpendir -> s <> SysRmdir -> faults w s = [].

(** A session-end that gets as far as the counter: root, a token, a known
    user, the parent directory, alice's counter file holding [c], free. *)
Record session_end_ready (w : world) (user : string) (uid gid : Z) (c : list ascii)
  : Prop := {
  ser_faults : removal_faults_only w;
  ser_root : euid w = 0;
  ser_token : exists d, pam_data w = Some (Some d);
  ser_user : pam_user w = Some user /\ user <> EmptyString;
  ser_passwd : passwd w !! user = Some (uid, gid);
  ser_uid : 0 <= uid <= INT_MAX;
  ser_parent : exists du dg dm, fs w !! PARENT_DIR = Some (Dir du dg dm);
  ser_counter : exists cu cg cm, fs w !! counter_path uid = Some (File c cu cg cm);
  ser_free : counter_path uid ∉ locked w
}.

(** ** Session-end from the counter on *)

(** Worlds for a session-end of alice: root, her token, her counter file. *)
Definition counter_fs (c : string) : gmap string node :=
  <["/run/user/.1000" := File (list_ascii_of_string c) 0 0 420]> base_fs.

(** The derived directory is there and holds one file. *)
Definition occupied_fs (c : string) : gmap string node :=
  <["/run/user.10000/bus" := File [] 1000 1000 384]>
    (<["/run/user.10000" := Dir 1000 1000 448]> (counter_fs c)).

(** The second [unlink], the one of the file inside, is refused. *)
Definition child_unlink_denied : syscall -> list (option fault) :=
  fun s => match s with SysUnlink => [None; Some (Fail EACCES)] | _ => [] end.

Definition ending (f : gmap string node) (q : syscall -> list (option fault)) : world :=
  machine f 0 (Some (Some 1)) q.

(** ** Return codes of session-start *)

(** Every result of [m] satisfies [P], whatever the world. *)
Definition returns {A} (P : A -> Prop) (m : M A) : Prop := forall w, P (fst (m w)).

Definition not_buf_err (r : Z) : Prop := r <> PAM_BUF_ERR.

(** ** The identity a successful session-start leaves *)

(** Run from a world in [P], [m] ends with a result and a world in [Q]. *)
Definition hoare {A} (P : world -> Prop) (m : M A) (Q : A -> world -> Prop) : Prop :=
  forall w, P w -> Q (fst (m w)) (snd (m w)).

Definition has_ids (u g : Z) (w : world) : Prop := euid w = u /\ egid w = g.

(** The user database and the PAM user, which no call changes. *)
Definition known (pu : option string) (pw : gmap string (Z * Z)) (w : world) : Prop :=
  pam_user w = pu /\ passwd w = pw.

Definition anywhere (w : world) : Prop := True.

(** ** Credentials *)

(** The effective and real ids and the umask of the process. *)
Definition creds (w : world) : Z * Z * Z * Z * Z :=
  (euid w, egid w, ruid w, rgid w, umask_ w).

(** [m] returns with the credentials it was called with. *)
Definition keeps_creds {A} (m : M A) : Prop :=
  forall w, creds (snd (m w)) = creds w.

(** What the file and directory calls never touch: the credentials, the
    user database, the state of the PAM handle and the locks of the other
    processes. *)
Definition ambient (w : world)
  : Z * Z * Z * Z * Z
    * (gmap string (Z * Z) * option string * option (option Z) * list string
       * gset string) :=
  (euid w, egid w, ruid w, rgid w, umask_ w,
   (passwd w, pam_user w, pam_data w, pam_env w, locked w)).

Definition keeps_ambient {A} (m : M A) : Prop :=
  forall w, ambient (snd (m w)) = ambient w.

(** ** Return codes of the hooks *)

(** What session-start can return. *)
Definition start_code (r : Z) : Prop :=
  r = PAM_SUCCESS \/ r = PAM_SESSION_ERR \/ r = PAM_USER_UNKNOWN \/ r = -1.

(** What session-end can return. *)
Definition end_code (r : Z) : Prop :=
  r = PAM_SUCCESS \/ r = PAM_SESSION_ERR \/ r = PAM_USER_UNKNOWN.


(** ** Descriptors *)

(** [p] names a regular file. *)
Definition is_file (w : world) (p : string) : Prop :=
  exists c u g m, fs w !! p = Some (File c u g m).

(** ** Removal *)

(** [m] creates and changes no entry of the file system: it can only
    remove some. *)
Definition only_removes {A} (m : M A) : Prop :=
  forall w, fs (snd (m w)) ⊆ fs w.

(** ** Session-start *)

(** A session-start that can go all the way: root with a sane umask, a
    known user, the parent directory and the directory of the runtime
    directory in place, the counter lock free. *)
Record session_start_ready (w : world) (user : string) (uid gid : Z) : Prop := {
  ssr_root : euid w = 0;
  ssr_umask : 0 <= umask_ w <= 511;
  ssr_user : pam_user w = Some user /\ user <> EmptyString;
  ssr_passwd : passwd w !! user = Some (uid, gid);
  ssr_uid : 0 <= uid <= INT_MAX;
  ssr_parent : exists du dg dm, fs w !! PARENT_DIR = Some (Dir du dg dm);
  ssr_run : exists du dg dm, fs w !! "/run" = Some (Dir du dg dm);
  ssr_free : counter_path uid ∉ locked w;
  ssr_fresh : fds w !! Z.of_nat (next_fd w) = None
}.

(** The count session-start finds: 0 without a counter file or with the
    mark of an unusable directory in it, the number in the file otherwise. *)
Definition counter_holds (w : world) (uid n : Z) : Prop :=
  (fs w !! counter_path uid = None /\ n = 0)
  \/ (exists c cu cg cm,
        fs w !! counter_path uid = Some (File c cu cg cm)
        /\ ((forallb is_digit c = true /\ n = digits_value 0 c /\ n < INT_MAX)
            \/ (c = ["-"%char] /\ n = 0))).

(** The runtime directory is not there yet, or it is a directory. *)
Definition runtime_dir_free (w : world) (uid : Z) : Prop :=
  fs w !! derived_runtime_dir uid = None
  \/ exists du dg dm, fs w !! derived_runtime_dir uid = Some (Dir du dg dm).

(** Every call up to the update of the counter answers as the system
    would; the calls after it may be scripted. *)
Definition quiet_to_update (w : world) : Prop :=
  forall s, s <> SysMalloc -> s <> PamSetData -> s <> PamPutenv ->
            s <> SysSetegid -> s <> SysSeteuid -> faults w s = [].

(** The session token is set. *)
Definition token_set (w : world) : Prop := pam_data w = Some (Some 1).

(** The parent directory is a directory. *)
Definition parent_is_dir (w : world) : Prop :=
  exists u g m, fs w !! PARENT_DIR = Some (Dir u g m).

(** [ensure_parent_dir] has changed neither the file system [F] nor the
    log [L]; it has given up, with one message logged. *)
Definition parent_untouched (F : gmap string node) (L : list (string * list string))
    (w : world) : Prop :=
  fs w = F /\ log w = L.

Definition parent_refused (F : gmap string node) (L : list (string * list string))
    (w : world) : Prop :=
  fs w = F /\ exists e, log w = e :: L.

(** No descriptor has been opened yet. *)
Definition descriptors_closed (F : gmap Z (string * nat)) (N : nat) (L : gset string)
    (w : world) : Prop :=
  fds w = F /\ next_fd w = N /\ locked w = L.

(** The descriptor of [file] is open, and nothing else has changed. *)
Definition descriptors_opened (file : string) (F : gmap Z (string * nat)) (N : nat)
    (L : gset string) (w : world) : Prop :=
  fds w = <[Z.of_nat N := (file, 0%nat)]> F /\ locked w = L /\ is_file w file.

(** The result [r] of a removal so far: 0 or -1, and 0 only with the log
    still [L]. *)
Definition removal_clean (L : list (string * list string)) (r : Z) (w : world) : Prop :=
  (r = 0 \/ r = -1) /\ (r = 0 -> log w = L).

(** What [rmrf path] answers: 0 or -1, and 0 only with nothing logged and
    [path] gone. *)
Definition removal_done (L : list (string * list string)) (path : string)
    (r : Z) (w : world) : Prop :=
  (r = 0 \/ r = -1) /\ (r = 0 -> log w = L /\ fs w !! path = None).

(** * Properties *)

(** ** Basic facts about the monad and the scripted calls *)

Lemma pop_fault_quiet s w : faults w s = [] -> pop_fault s w = (None, w).
Proof. intros H. unfold pop_fault. rewrite H. reflexivity. Qed.

(** ** C10: callers that are not root *)

(** C10.  With an effective uid other than 0, session-start returns
    [PAM_SESSION_ERR] having done nothing but ask for the uid and log;
    session-end with a token present does the same, and session-end with no
    token (no entry, or an entry holding NULL) returns [PAM_SUCCESS] and
    leaves the world as it was: the token check comes first. *)
Theorem non_root_is_refused (w : world) :
  euid w <> 0 ->
  pam_sm_open_session w
    = (PAM_SESSION_ERR, refused "Must be root to open session" w)
  /\ (faults w PamGetData = [] ->
      (forall d, pam_data w = Some (Some d) ->
         pam_sm_close_session w
           = (PAM_SESSION_ERR, refused "Must be root to close session" w))
      /\ (pam_data w = None \/ pam_data w = Some None ->
          pam_sm_close_session w = (PAM_SUCCESS, w))).
Proof.
  intros Hne. split.
  - unfold pam_sm_open_session, bind, sys_geteuid.
    destruct (euid w =? 0) eqn:E; [apply Z.eqb_eq in E; contradiction|].
    reflexivity.
  - intros Hq. split.
    + intros d Hd.
      unfold pam_sm_close_session, bind, pam_get_data, bind.
      rewrite (pop_fault_quiet _ _ Hq), Hd. cbn.
      unfold sys_geteuid.
      destruct (euid w =? 0) eqn:E; [apply Z.eqb_eq in E; contradiction|].
      reflexivity.
    + intros Hd.
      unfold pam_sm_close_session, bind, pam_get_data, bind.
      rewrite (pop_fault_quiet _ _ Hq).
      destruct Hd as [Hd | Hd]; rewrite Hd; reflexivity.
Qed.

Lemma non_root_is_refused_witness :
  let w := machine base_fs 1000 (Some (Some 1)) quiet_faults in
  let w' := machine base_fs 1000 None quiet_faults in
  fst (pam_sm_open_session w) = PAM_SESSION_ERR
  /\ fs (snd (pam_sm_open_session w)) = fs w
  /\ fst (pam_sm_close_session w) = PAM_SESSION_ERR
  /\ fs (snd (pam_sm_close_session w)) = fs w
  /\ pam_sm_close_session w' = (PAM_SUCCESS, w').
Proof.
  intros w w'.
  assert (Hw : euid w <> 0) by (vm_compute; discriminate).
  assert (Hw' : euid w' <> 0) by (vm_compute; discriminate).
  destruct (non_root_is_refused w Hw) as [Ho Hc].
  destruct (Hc eq_refl) as [Hc1 _].
  destruct (non_root_is_refused w' Hw') as [_ Hc'].
  destruct (Hc' eq_refl) as [_ Hc2].
  rewrite Ho, (Hc1 1 eq_refl), (Hc2 (or_introl eq_refl)).
  repeat split; reflexivity.
Defined.

(** ** C7: bounded lock acquisition *)

Lemma flock_attempts_app a b :
  flock_attempts (a ++ b) = (flock_attempts a + flock_attempts b)%nat.
Proof.
  induction a as [|e a IH]; [reflexivity|].
  destruct e; simpl; rewrite ?IH; reflexivity.
Qed.

Lemma slept_app a b : slept (a ++ b) = slept a + slept b.
Proof.
  induction a as [|e a IH]; [reflexivity|].
  destruct e; simpl; rewrite ?IH; lia.
Qed.

Lemma adds_ret {A} (a : A) : adds_at_most 0 0 (ret a).
Proof. intros w. exists []. simpl. repeat split; lia. Qed.

Lemma adds_bind {A B} nf1 ns1 nf2 ns2 (m : M A) (k : A -> M B) :
  adds_at_most nf1 ns1 m ->
  (forall a, adds_at_most nf2 ns2 (k a)) ->
  adds_at_most (nf1 + nf2) (ns1 + ns2) (bind m k).
Proof.
  intros Hm Hk w. unfold bind.
  destruct (Hm w) as (t1 & E1 & F1 & S1).
  destruct (m w) as [a w1]. simpl in E1.
  destruct (Hk a w1) as (t2 & E2 & F2 & S2).
  exists (t2 ++ t1). rewrite E2, E1, <- app_assoc.
  rewrite flock_attempts_app, slept_app.
  repeat split; unfold LOCK_RETRY_DELAY in *; lia.
Qed.

Lemma adds_weaken {A} nf ns nf' ns' (m : M A) :
  (nf <= nf')%nat -> (ns <= ns')%nat ->
  adds_at_most nf ns m -> adds_at_most nf' ns' m.
Proof.
  intros Hf Hs Hm w. destruct (Hm w) as (t & E & F & S).
  exists t. repeat split; unfold LOCK_RETRY_DELAY in *; try lia. exact E.
Qed.

Lemma adds_log fmt args : adds_at_most 0 0 (log_error fmt args).
Proof. intros w. exists []. simpl. repeat split; lia. Qed.

Lemma adds_usleep : adds_at_most 0 1 (sys_usleep LOCK_RETRY_DELAY).
Proof.
  intros w. exists [EvUsleep LOCK_RETRY_DELAY]. simpl.
  unfold LOCK_RETRY_DELAY. repeat split; lia.
Qed.

Lemma adds_close fd : adds_at_most 0 0 (sys_close fd).
Proof. intros w. exists [EvClose fd]. simpl. repeat split; lia. Qed.

(** A scripted call adds its own event, provided its normal behaviour
    leaves the trace alone. *)
Lemma scripted_trace {A} s e (normal : option nat -> M (res A)) :
  (forall o w, trace (snd (normal o w)) = trace w) ->
  forall w, trace (snd (scripted s e normal w)) = e :: trace w.
Proof.
  intros Hn w. unfold scripted, bind, emit, pop_fault. cbn.
  destruct (faults w s) as [|[[c|n]|] q]; cbn; rewrite ?Hn; reflexivity.
Qed.

Lemma sys_stat_trace p w : trace (snd (sys_stat p w)) = EvStat p :: trace w.
Proof.
  apply scripted_trace. intros o w'. destruct (fs w' !! p); reflexivity.
Qed.

Lemma sys_mkdir_trace p m w : trace (snd (sys_mkdir p m w)) = EvMkdir p m :: trace w.
Proof.
  apply scripted_trace. intros o w'.
  destruct (fs w' !! p); [reflexivity|].
  destruct (parent_error (fs w') p); reflexivity.
Qed.

Lemma sys_open_trace p m w : trace (snd (sys_open p m w)) = EvOpen p :: trace w.
Proof.
  apply scripted_trace. intros o w'.
  destruct (fs w' !! p) as [[]|]; try reflexivity.
  destruct (parent_error (fs w') p); reflexivity.
Qed.

Lemma sys_flock_trace fd w : trace (snd (sys_flock fd w)) = EvFlock fd :: trace w.
Proof.
  apply scripted_trace. intros o w'.
  destruct (fds w' !! fd) as [[p n]|]; [|reflexivity].
  destruct (decide (p ∈ locked w')); reflexivity.
Qed.

Lemma adds_one {A} (m : M A) e :
  flock_attempts [e] = 0%nat -> slept [e] = 0 ->
  (forall w, trace (snd (m w)) = e :: trace w) ->
  adds_at_most 0 0 m.
Proof.
  intros Hf Hs Ht w. exists [e]. rewrite Ht, Hf, Hs. repeat split; lia.
Qed.

Lemma adds_flock fd : adds_at_most 1 0 (sys_flock fd).
Proof.
  intros w. exists [EvFlock fd]. rewrite sys_flock_trace. simpl.
  repeat split; lia.
Qed.

Lemma open_retry_adds n file : adds_at_most 0 n (open_retry n file).
Proof.
  induction n as [|n IH]; simpl.
  - apply adds_ret.
  - apply (adds_bind 0 0 0 (S n)).
    + apply (adds_one _ (EvOpen file)); auto using sys_open_trace.
    + intros [fd|e].
      * apply (adds_weaken 0 0); [lia|lia|apply adds_ret].
      * destruct (negb (e =? EINTR) && negb (e =? EAGAIN)).
        -- apply (adds_weaken 0 0); [lia|lia|].
           apply (adds_bind 0 0 0 0); [apply adds_log|intros; apply adds_ret].
        -- apply (adds_bind 0 1 0 n); [apply adds_usleep|intros; apply IH].
Qed.

Lemma lock_retry_adds n fd file : adds_at_most n n (lock_retry n fd file).
Proof.
  induction n as [|n IH]; simpl.
  - apply adds_ret.
  - apply (adds_bind 1 0 n (S n)); [apply adds_flock|].
    intros [u|e].
    + apply (adds_weaken 0 0); [lia|lia|apply adds_ret].
    + destruct (negb (e =? EWOULDBLOCK) && negb (e =? EINTR)).
      * apply (adds_weaken 0 0); [lia|lia|].
        apply (adds_bind 0 0 0 0); [apply adds_close|intros].
        apply (adds_bind 0 0 0 0); [apply adds_log|intros; apply adds_ret].
      * apply (adds_bind 0 1 n n); [apply adds_usleep|intros; apply IH].
Qed.

Lemma open_and_lock_adds file :
  adds_at_most LOCK_RETRIES (LOCK_RETRIES + LOCK_RETRIES) (open_and_lock file).
Proof.
  unfold open_and_lock.
  apply (adds_bind 0 0 LOCK_RETRIES (LOCK_RETRIES + LOCK_RETRIES)).
  - destruct (strrchr file "/") as [n|]; [|apply adds_ret].
    destruct (PATH_MAX <=? Z.of_nat n).
    + apply (adds_bind 0 0 0 0); [apply adds_log|intros; apply adds_ret].
    + apply (adds_bind 0 0 0 0).
      * eapply adds_one; [| |apply sys_stat_trace]; reflexivity.
      * intros [nd|e].
        -- destruct (negb (S_ISDIR nd)); [|apply adds_ret].
           apply (adds_bind 0 0 0 0); [apply adds_log|intros; apply adds_ret].
        -- apply (adds_bind 0 0 0 0).
           ++ eapply adds_one; [| |apply sys_mkdir_trace]; reflexivity.
           ++ intros [u|e']; [apply adds_ret|].
              destruct (negb (e' =? EEXIST)); [|apply adds_ret].
              apply (adds_bind 0 0 0 0); [apply adds_log|intros; apply adds_ret].
  - intros ready. destruct (negb ready).
    + apply (adds_weaken 0 0); [lia|lia|apply adds_ret].
    + apply (adds_bind 0 LOCK_RETRIES LOCK_RETRIES LOCK_RETRIES).
      * apply open_retry_adds.
      * intros [fd|r|].
        -- apply (adds_bind LOCK_RETRIES LOCK_RETRIES 0 0 (lock_retry LOCK_RETRIES fd file)).
           ++ apply lock_retry_adds.
           ++ intros [fd'|r|]; try apply adds_ret.
              apply (adds_bind 0 0 0 0); [apply adds_close|intros].
              apply (adds_bind 0 0 0 0); [apply adds_log|intros; apply adds_ret].
        -- apply (adds_weaken 0 0); [lia|lia|apply adds_ret].
        -- apply (adds_weaken 0 0); [lia|lia|].
           apply (adds_bind 0 0 0 0); [apply adds_log|intros; apply adds_ret].
Qed.

Lemma bind_run {A B} (m : M A) (k : A -> M B) w a w' :
  m w = (a, w') -> bind m k w = k a w'.
Proof. intros H. unfold bind. rewrite H. reflexivity. Qed.

Lemma scripted_quiet {A} s e (normal : option nat -> M (res A)) w :
  faults w s = [] ->
  scripted s e normal w = normal None (with_trace (e :: trace w) w).
Proof.
  intros H. unfold scripted, bind, emit.
  rewrite pop_fault_quiet by exact H. reflexivity.
Qed.

Lemma sys_flock_held fd p pos w :
  faults w SysFlock = [] -> fds w !! fd = Some (p, pos) -> p ∈ locked w ->
  sys_flock fd w = (Err EWOULDBLOCK, with_trace (EvFlock fd :: trace w) w).
Proof.
  intros Hq Hfd Hl. unfold sys_flock. rewrite scripted_quiet by exact Hq.
  cbn. rewrite Hfd. destruct (decide (p ∈ locked w)); [reflexivity|contradiction].
Qed.

Lemma lock_retry_held n fd file pos w :
  faults w SysFlock = [] -> fds w !! fd = Some (file, pos) -> file ∈ locked w ->
  lock_retry n fd file w
    = (Exhausted, with_trace (lock_rounds n fd ++ trace w) w).
Proof.
  revert w. induction n as [|n IH]; intros w Hq Hfd Hl.
  - destruct w; reflexivity.
  - simpl lock_retry.
    rewrite (bind_run _ _ _ _ _ (sys_flock_held fd file pos w Hq Hfd Hl)).
    change (negb (EWOULDBLOCK =? EWOULDBLOCK) && negb (EWOULDBLOCK =? EINTR)) with false.
    cbv iota. unfold bind at 1, sys_usleep, emit.
    rewrite IH by assumption.
    cbn [trace with_trace lock_rounds lock_round]. rewrite <- app_assoc. reflexivity.
Qed.

(** C7.  [open_and_lock] makes at most five [flock] attempts and sleeps at
    most ten times 100 ms in all (five pauses in the [open] loop, five in
    the [flock] loop), whatever the calls answer; every [flock] is a
    non-blocking one.  When another process holds the lock on the counter
    file throughout, the five attempts are each followed by a 100 ms pause,
    the descriptor is closed again, the time-out is logged and -1 comes
    back. *)
Theorem open_and_lock_bounded (file : string) (w : world) :
  (exists t,
      trace (snd (open_and_lock file w)) = t ++ trace w
      /\ (flock_attempts t <= 5)%nat
      /\ 0 <= slept t <= 1000000)
  /\ (forall n c u g m du dg dm,
        faults w SysStat = [] -> faults w SysOpen = [] -> faults w SysFlock = [] ->
        strrchr file "/" = Some n -> Z.of_nat n < PATH_MAX ->
        fs w !! substring 0 n file = Some (Dir du dg dm) ->
        fs w !! file = Some (File c u g m) ->
        file ∈ locked w ->
        let fd := Z.of_nat (next_fd w) in
        let out := open_and_lock file w in
        fst out = -1
        /\ trace (snd out)
           = EvClose fd :: lock_rounds LOCK_RETRIES fd
               ++ EvOpen file :: EvStat (substring 0 n file) :: trace w
        /\ log (snd out)
           = ("Failed to lock %s after %d retries: %m", [file; "5"]) :: log w
        /\ fds (snd out) !! fd = None
        /\ fs (snd out) = fs w).
Proof.
  split.
  - destruct (open_and_lock_adds file w) as (t & E & F & S).
    exists t. unfold LOCK_RETRIES, LOCK_RETRY_DELAY in *. repeat split; try lia. exact E.
  - intros n c u g m du dg dm Hst Hop Hfl Hstr Hn Hdir Hfile Hlock fd out.
    assert (Hrun : exists w', open_and_lock file w = (-1, w')
              /\ trace w' = EvClose fd :: lock_rounds LOCK_RETRIES fd
                     ++ EvOpen file :: EvStat (substring 0 n file) :: trace w
              /\ log w' = ("Failed to lock %s after %d retries: %m", [file; "5"]) :: log w
              /\ fds w' !! fd = None /\ fs w' = fs w).
    { unfold open_and_lock.
      rewrite Hstr.
      destruct (PATH_MAX <=? Z.of_nat n) eqn:E; [apply Z.leb_le in E; lia|].
      unfold bind at 1. unfold bind at 1.
      unfold sys_stat. rewrite scripted_quiet by exact Hst.
      cbn [fs with_trace]. rewrite Hdir. cbn [S_ISDIR negb ret].
      unfold bind at 1. unfold LOCK_RETRIES at 1. simpl open_retry.
      unfold bind at 1. unfold sys_open. rewrite scripted_quiet by exact Hop.
      cbn [fs with_trace]. rewrite Hfile. cbn [ret].
      unfold bind at 1.
      erewrite lock_retry_held; [| exact Hfl | cbn; apply lookup_insert_eq | exact Hlock].
      eexists. split; [reflexivity|]. cbn.
      rewrite lookup_delete_eq. repeat split; reflexivity. }
    destruct Hrun as (w' & Hrun & Ht & Hl & Hf & Hs).
    subst out. rewrite Hrun. cbn [fst snd]. auto.
Qed.

Lemma open_and_lock_bounded_witness :
  let out := open_and_lock "/run/user/.1000" contended in
  fst out = -1
  /\ flock_attempts (trace (snd out)) = 5%nat
  /\ slept (trace (snd out)) = 500000.
Proof.
  intros out.
  destruct (open_and_lock_bounded "/run/user/.1000" contended) as [_ H].
  destruct (H 9%nat ["1"%char] 0 0 420 0 0 493) as (Hr & Ht & _);
    try reflexivity.
  subst out. rewrite Hr, Ht. repeat split; reflexivity.
Defined.

(** ** C8: the parent directory *)

Ltac decide_syscalls :=
  repeat match goal with
  | |- context [decide (?a = ?b)] =>
      destruct (decide (a = b)) as [?D|?D]; [try discriminate|try congruence]
  end.





(** ** C4: reading the counter *)

Lemma is_digit_range a : is_digit a = true -> 0 <= byte_value a - 48 <= 9.
Proof. unfold is_digit. intros H. apply andb_true_iff in H. lia. Qed.

Lemma byte_value_zero a : byte_value a = 48 -> a = "0"%char.
Proof.
  unfold byte_value. intros H.
  rewrite <- (ascii_N_embedding a).
  replace (N_of_ascii a) with 48%N by lia. reflexivity.
Qed.

Lemma wrap32_id z : -2147483648 <= z <= INT_MAX -> wrap32 z = z.
Proof.
  unfold wrap32, INT_MAX. intros H.
  rewrite Z.mod_small by lia. lia.
Qed.

Lemma digits_value_ge c : forall acc,
  forallb is_digit c = true -> 0 <= acc -> acc <= digits_value acc c.
Proof.
  induction c as [|a r IH]; intros acc Hd Hacc; simpl in *; [lia|].
  apply andb_true_iff in Hd as [Ha Hr].
  pose proof (is_digit_range a Ha).
  specialize (IH (acc * 10 + (byte_value a - 48)) Hr). lia.
Qed.

Lemma digit_prefix_digits c : forallb is_digit (digit_prefix c) = true.
Proof.
  induction c as [|a r IH]; [reflexivity|]. simpl.
  destruct (is_digit a) eqn:E; [|reflexivity]. simpl. rewrite E, IH. reflexivity.
Qed.

Lemma digit_prefix_all c : forallb is_digit c = true -> digit_prefix c = c.
Proof.
  induction c as [|a r IH]; [reflexivity|]. simpl. intros H.
  apply andb_true_iff in H as [Ha Hr]. rewrite Ha, IH by exact Hr. reflexivity.
Qed.

(** One digit scanned without overflow. *)
Lemma scan_step a count :
  is_digit a = true -> 0 <= count -> count * 10 + (byte_value a - 48) <= INT_MAX ->
  wrap32 (wrap32 (count * 10) + (byte_value a - 48)) = count * 10 + (byte_value a - 48).
Proof.
  intros Ha Hc Hle. pose proof (is_digit_range a Ha).
  rewrite (wrap32_id (count * 10)) by (unfold INT_MAX in *; lia).
  apply wrap32_id. unfold INT_MAX in *. lia.
Qed.

Lemma scan_digits_value buf : forall count,
  forallb is_digit buf = true -> 0 <= count ->
  digits_value count buf <= INT_MAX ->
  scan_digits buf count = Some (digits_value count buf).
Proof.
  induction buf as [|a r IH]; intros count Hd Hc Hle; [reflexivity|].
  simpl in *. apply andb_true_iff in Hd as [Ha Hr]. rewrite Ha. simpl.
  pose proof (is_digit_range a Ha).
  assert (count * 10 + (byte_value a - 48) <= INT_MAX).
  { etransitivity; [|exact Hle]. apply digits_value_ge; [exact Hr|lia]. }
  rewrite scan_step by assumption.
  apply IH; [exact Hr|lia|exact Hle].
Qed.

Lemma scan_digits_bad buf : forall count,
  forallb is_digit buf = false -> 0 <= count ->
  digits_value count (digit_prefix buf) <= INT_MAX ->
  scan_digits buf count = None.
Proof.
  induction buf as [|a r IH]; intros count Hd Hc Hle; [discriminate|].
  simpl in *. destruct (is_digit a) eqn:Ha; [|reflexivity]. simpl in *.
  pose proof (is_digit_range a Ha).
  assert (count * 10 + (byte_value a - 48) <= INT_MAX).
  { etransitivity; [|exact Hle]. apply digits_value_ge; [apply digit_prefix_digits|lia]. }
  rewrite scan_step by assumption.
  apply IH; [exact Hd|lia|exact Hle].
Qed.

Lemma digits_value_app a : forall acc b,
  digits_value acc (a ++ b) = digits_value (digits_value acc a) b.
Proof. induction a as [|x a IH]; intros; simpl; [reflexivity|apply IH]. Qed.

Lemma digit_prefix_app_bad a b :
  forallb is_digit a = false -> digit_prefix (a ++ b) = digit_prefix a.
Proof.
  induction a as [|x a IH]; intros H; [discriminate|]. simpl in *.
  destruct (is_digit x); [|reflexivity]. simpl in H. rewrite IH by exact H. reflexivity.
Qed.

Lemma digit_prefix_app_good a b :
  forallb is_digit a = true -> digit_prefix (a ++ b) = a ++ digit_prefix b.
Proof.
  induction a as [|x a IH]; intros H; [reflexivity|]. simpl in *.
  apply andb_true_iff in H as [Hx Ha]. rewrite Hx, IH by exact Ha. reflexivity.
Qed.

Lemma digits_value_zero c : forall acc,
  forallb is_digit c = true -> 0 <= acc -> digits_value acc c = 0 ->
  acc = 0 /\ c = replicate (length c) "0"%char.
Proof.
  induction c as [|a r IH]; intros acc Hd Hacc Hv; simpl in *; [auto|].
  apply andb_true_iff in Hd as [Ha Hr].
  pose proof (is_digit_range a Ha).
  destruct (IH (acc * 10 + (byte_value a - 48)) Hr ltac:(lia) Hv) as [H0 Hrep].
  split; [lia|]. rewrite <- Hrep. f_equal. apply byte_value_zero. lia.
Qed.

Lemma digits_value_zeros n : digits_value 0 (replicate n "0"%char) = 0.
Proof. induction n as [|n IH]; [reflexivity|exact IH]. Qed.

Lemma padded_sentinel_short c :
  padded_sentinel c -> (length c < 4)%nat -> c = ["-"%char].
Proof.
  intros [k ->] Hl. rewrite length_app, length_replicate in Hl. simpl in Hl.
  destruct k; [reflexivity|lia].
Qed.

Lemma padded_sentinel_long c :
  padded_sentinel c -> (4 <= length c)%nat ->
  take 4 c = replicate 4 "0"%char /\ padded_sentinel (drop 4 c).
Proof.
  intros [k ->] Hl. rewrite length_app, length_replicate in Hl. simpl in Hl.
  destruct k as [|k]; [simpl in Hl; lia|].
  replace (4 * S k)%nat with (4 + 4 * k)%nat by lia.
  rewrite replicate_add, <- app_assoc. split; [reflexivity|].
  exists k. reflexivity.
Qed.

Lemma padded_sentinel_grow c :
  padded_sentinel c -> padded_sentinel (replicate 4 "0"%char ++ c).
Proof.
  intros [k ->]. exists (S k).
  replace (4 * S k)%nat with (4 + 4 * k)%nat by lia.
  rewrite replicate_add, <- app_assoc. reflexivity.
Qed.

Lemma padded_sentinel_not_digits c :
  padded_sentinel c -> forallb is_digit c = false.
Proof.
  intros [k ->]. rewrite forallb_app. simpl. apply andb_false_r.
Qed.

Lemma parse_chunks_S budget rest count :
  parse_chunks (S budget) rest count =
  let buf := take 4 rest in
  if (length buf =? 0)%nat then Some count
  else if (count =? 0) && (length buf =? 1)%nat && Ascii.eqb (hd NUL buf) "-" then Some (-2)
  else match scan_digits buf count with
       | None => Some (-1)
       | Some c => parse_chunks budget (drop 4 rest) c
       end.
Proof. simpl. destruct (take 4 rest); reflexivity. Qed.

(** The three outcomes of a quiet read, for a count that stays within [int]. *)
Lemma parse_chunks_spec : forall budget rest count,
  0 <= count ->
  digits_value count (digit_prefix rest) <= INT_MAX ->
  (length rest < budget)%nat ->
  (forallb is_digit rest = true
   /\ parse_chunks budget rest count = Some (digits_value count rest))
  \/ (forallb is_digit rest = false /\ count = 0 /\ padded_sentinel rest
      /\ parse_chunks budget rest count = Some (-2))
  \/ (forallb is_digit rest = false /\ ~ (count = 0 /\ padded_sentinel rest)
      /\ parse_chunks budget rest count = Some (-1)).
Proof.
  induction budget as [|budget IH]; intros rest count Hc Hle Hlen; [lia|].
  rewrite parse_chunks_S. cbv zeta.
  assert (Hsplit : rest = take 4 rest ++ drop 4 rest) by (symmetry; apply take_drop).
  assert (Hclen : length (take 4 rest) = Nat.min 4 (length rest)) by apply length_take.
  assert (Hrlen : length (drop 4 rest) = (length rest - 4)%nat) by apply length_drop.
  set (chunk := take 4 rest) in *. set (rest' := drop 4 rest) in *.
  rewrite Hsplit in Hle.
  destruct (length chunk =? 0)%nat eqn:Ez.
  { left. apply Nat.eqb_eq in Ez. assert (rest = []) as ->.
    { apply length_zero_iff_nil. lia. }
    split; reflexivity. }
  apply Nat.eqb_neq in Ez.
  destruct ((count =? 0) && (length chunk =? 1)%nat && Ascii.eqb (hd NUL chunk) "-") eqn:Esp.
  { apply andb_true_iff in Esp as [Esp E3]. apply andb_true_iff in Esp as [E1 E2].
    apply Z.eqb_eq in E1. apply Nat.eqb_eq in E2. apply Ascii.eqb_eq in E3.
    right. left.
    assert (Hrest : rest = ["-"%char]).
    { assert (Hr' : rest' = []) by (apply length_zero_iff_nil; lia).
      rewrite Hsplit, Hr', app_nil_r.
      destruct chunk as [|x [|y chunk1]]; try discriminate.
      simpl in E3. subst x. reflexivity. }
    rewrite Hrest. repeat split; try reflexivity; try assumption.
    exists 0%nat. reflexivity. }
  destruct (forallb is_digit chunk) eqn:Hd.
  - (* the whole chunk is digits *)
    rewrite digit_prefix_app_good, digits_value_app in Hle by exact Hd.
    assert (Hv : digits_value count chunk <= INT_MAX).
    { etransitivity; [|exact Hle]. apply digits_value_ge; [apply digit_prefix_digits|].
      etransitivity; [exact Hc|]. apply digits_value_ge; assumption. }
    assert (Hc' : 0 <= digits_value count chunk).
    { etransitivity; [exact Hc|]. apply digits_value_ge; assumption. }
    rewrite (scan_digits_value chunk count Hd Hc Hv).
    assert (Hlen' : (length rest' < budget)%nat) by lia.
    destruct (IH rest' _ Hc' Hle Hlen') as [[Hd' Hp] | [(Hd' & H0 & Hpad & Hp) | (Hd' & Hn & Hp)]].
    + left. rewrite Hsplit at 1 2. rewrite forallb_app, Hd, Hd', digits_value_app. auto.
    + right. left. rewrite Hsplit at 1. rewrite forallb_app, Hd, Hd'.
      destruct (digits_value_zero chunk count Hd Hc H0) as [Hz Hrep].
      assert (Hfour : length chunk = 4%nat).
      { destruct (Nat.lt_ge_cases (length rest) 4) as [Hs|Hs]; [|lia].
        exfalso. assert (rest' = []) as Hnil by (apply length_zero_iff_nil; lia).
        rewrite Hnil in Hpad. destruct Hpad as [k Hk].
        destruct (replicate (4 * k) "0"%char); discriminate. }
      repeat split; auto.
      rewrite Hsplit, Hrep, Hfour. apply padded_sentinel_grow. exact Hpad.
    + right. right. rewrite Hsplit at 1. rewrite forallb_app, Hd, Hd'.
      repeat split; auto.
      intros [Hz Hpad]. apply Hn.
      destruct (Nat.lt_ge_cases (length rest) 4) as [Hs|Hs].
      * apply padded_sentinel_short in Hpad; [|exact Hs].
        unfold chunk in Hd. rewrite Hpad in Hd. discriminate.
      * destruct (padded_sentinel_long rest Hpad Hs) as [Ht Hpad'].
        split; [|exact Hpad'].
        fold chunk in Ht. rewrite Ht, Hz. reflexivity.
  - (* a byte of the chunk is not a digit *)
    rewrite digit_prefix_app_bad in Hle by exact Hd.
    rewrite (scan_digits_bad chunk count Hd Hc Hle).
    right. right. rewrite Hsplit at 1. rewrite forallb_app, Hd.
    repeat split; auto.
    intros [Hz Hpad].
    destruct (Nat.lt_ge_cases (length rest) 4) as [Hs|Hs].
    + apply padded_sentinel_short in Hpad; [|exact Hs].
      subst count. unfold chunk in Esp. rewrite Hpad in Esp. discriminate.
    + destruct (padded_sentinel_long rest Hpad Hs) as [Ht _].
      fold chunk in Ht. rewrite Ht in Hd. discriminate.
Qed.

Lemma fd_file_Some w fd p pos c u g m :
  fds w !! fd = Some (p, pos) -> fs w !! p = Some (File c u g m) ->
  fd_file w fd = Some (p, pos, c, u, g, m).
Proof. intros H1 H2. unfold fd_file. rewrite H1, H2. reflexivity. Qed.

Lemma fd_file_inv w fd p pos c u g m :
  fd_file w fd = Some (p, pos, c, u, g, m) ->
  fds w !! fd = Some (p, pos) /\ fs w !! p = Some (File c u g m).
Proof.
  unfold fd_file. destruct (fds w !! fd) as [[p' pos']|] eqn:E1; [|discriminate].
  destruct (fs w !! p') as [[c' u' g' m'|]|] eqn:E2; intros H; try discriminate H.
  inversion H. subst. auto.
Qed.

Lemma sys_read_quiet fd n w p pos c u g m :
  faults w SysRead = [] ->
  fds w !! fd = Some (p, pos) -> fs w !! p = Some (File c u g m) ->
  sys_read fd n w
    = (Ok (take n (drop pos c)),
       with_fds (<[fd := (p, (pos + length (take n (drop pos c)))%nat)]> (fds w)) (next_fd w)
         (with_trace (EvRead fd :: trace w) w)).
Proof.
  intros Hq Hfd Hfs. unfold sys_read. rewrite scripted_quiet by exact Hq.
  unfold fd_file. cbn [fds fs with_trace]. rewrite Hfd, Hfs. reflexivity.
Qed.

Lemma drop_past_chunk (c : list ascii) pos n :
  drop (pos + length (take n (drop pos c))) c = drop n (drop pos c).
Proof.
  rewrite <- drop_drop.
  set (r := drop pos c).
  rewrite <- (take_drop n r) at 2.
  rewrite drop_app_length. reflexivity.
Qed.

(** On a descriptor whose reads are not scripted, the loop computes
    [parse_chunks] of the bytes ahead and only moves the offset. *)
Lemma read_counter_loop_quiet fd p c u g m : forall budget w count pos,
  faults w SysRead = [] ->
  fds w !! fd = Some (p, pos) -> fs w !! p = Some (File c u g m) ->
  exists pos' n,
    read_counter_loop budget fd count w
      = (parse_chunks budget (drop pos c) count,
         with_fds (<[fd := (p, pos')]> (fds w)) (next_fd w)
           (with_trace (replicate n (EvRead fd) ++ trace w) w)).
Proof.
  induction budget as [|budget IH]; intros w count pos Hq Hfd Hfs.
  - exists pos, 0%nat. simpl. unfold ret. f_equal.
    unfold with_fds, with_trace. cbn. rewrite insert_id by exact Hfd.
    destruct w; reflexivity.
  - simpl read_counter_loop.
    rewrite (bind_run _ _ _ _ _ (sys_read_quiet fd 4 w p pos c u g m Hq Hfd Hfs)).
    rewrite parse_chunks_S. cbv zeta.
    set (w1 := with_fds _ _ _).
    destruct (take 4 (drop pos c)) as [|a chunk] eqn:Echunk.
    { exists (pos + 0)%nat, 1%nat. reflexivity. }
    cbn [length Nat.eqb].
    change (length chunk =? 0)%nat with (S (length chunk) =? 1)%nat.
    destruct ((count =? 0) && (S (length chunk) =? 1)%nat && Ascii.eqb (hd NUL (a :: chunk)) "-").
    { exists (pos + S (length chunk))%nat, 1%nat. reflexivity. }
    destruct (scan_digits (a :: chunk) count) as [c'|].
    2: { exists (pos + S (length chunk))%nat, 1%nat. reflexivity. }
    destruct (IH w1 c' (pos + S (length chunk))%nat) as (pos' & n & Hrun).
    { exact Hq. }
    { unfold w1. cbn. apply lookup_insert_eq. }
    { exact Hfs. }
    rewrite Hrun. exists pos', (n + 1)%nat.
    replace (drop (pos + S (length chunk)) c) with (drop 4 (drop pos c)).
    2: { rewrite <- drop_past_chunk, Echunk. reflexivity. }
    f_equal. unfold w1, with_fds, with_trace. cbn.
    rewrite insert_insert_eq, replicate_add, <- app_assoc. reflexivity.
Qed.

Lemma parse_chunks_total : forall budget rest count,
  (length rest < budget)%nat -> is_Some (parse_chunks budget rest count).
Proof.
  induction budget as [|budget IH]; intros rest count Hlen; [lia|].
  rewrite parse_chunks_S. cbv zeta.
  destruct (length (take 4 rest) =? 0)%nat eqn:E; [eauto|].
  destruct (_ && _); [eauto|].
  destruct (scan_digits _ _); [|eauto].
  apply IH. rewrite length_drop.
  apply Nat.eqb_neq in E. rewrite length_take in E. lia.
Qed.

Lemma read_counter_quiet fd p c u g m w pos :
  faults w SysRead = [] ->
  fds w !! fd = Some (p, pos) -> fs w !! p = Some (File c u g m) ->
  exists v pos' n,
    parse_chunks (S (length c - pos)) (drop pos c) 0 = Some v
    /\ read_counter fd w
       = (v, with_fds (<[fd := (p, pos')]> (fds w)) (next_fd w)
               (with_trace (replicate n (EvRead fd) ++ trace w) w)).
Proof.
  intros Hq Hfd Hfs.
  destruct (parse_chunks_total (S (length c - pos)) (drop pos c) 0) as [v Hv].
  { rewrite length_drop. lia. }
  unfold read_counter, read_measure.
  rewrite Hq, (fd_file_Some _ _ _ _ _ _ _ _ Hfd Hfs).
  destruct (read_counter_loop_quiet fd p c u g m (S (0 + (length c - pos))) w 0 pos Hq Hfd Hfs)
    as (pos' & t & Hrun).
  cbn [length] in *. rewrite Hrun. cbn [Nat.add] in *. rewrite Hv.
  exists v, pos', t. split; reflexivity.
Qed.

(** C4, as amended.  On a descriptor at offset 0 whose reads are not
    scripted, and for a content whose leading digits do not overflow an
    [int]: [read_counter] returns 0 for the empty content; it returns the
    sentinel code -2 exactly when the content is a multiple of four ['0']
    bytes followed by the single byte ['-'] (the plain sentinel is the case
    of no zeros); it returns the decimal value of a content that is all
    digits; and it returns -1 for any other content. *)
Theorem read_counter_classifies (w : world) (fd : Z) p c u g m :
  faults w SysRead = [] ->
  fds w !! fd = Some (p, 0%nat) -> fs w !! p = Some (File c u g m) ->
  digits_value 0 (digit_prefix c) <= INT_MAX ->
  let r := fst (read_counter fd w) in
  (c = [] -> r = 0)
  /\ (r = -2 <-> padded_sentinel c)
  /\ (forallb is_digit c = true -> r = digits_value 0 c)
  /\ (forallb is_digit c = false -> ~ padded_sentinel c -> r = -1).
Proof.
  intros Hq Hfd Hfs Hle r.
  destruct (read_counter_quiet fd p c u g m w 0 Hq Hfd Hfs) as (v & pos' & t & Hv & Hrun).
  subst r. rewrite Hrun. cbn [fst]. clear Hrun.
  rewrite Nat.sub_0_r, drop_0 in Hv.
  destruct (parse_chunks_spec (S (length c)) c 0 ltac:(lia) Hle ltac:(lia))
    as [[Hd Hp] | [(Hd & _ & Hpad & Hp) | (Hd & Hn & Hp)]];
    rewrite Hp in Hv; injection Hv as <-.
  - assert (0 <= digits_value 0 c) by (apply digits_value_ge; [exact Hd|lia]).
    repeat split.
    + intros ->. reflexivity.
    + lia.
    + intros Hpad. apply padded_sentinel_not_digits in Hpad. congruence.
    + congruence.
  - repeat split; auto.
    + intros ->. destruct Hpad as [k Hk]. destruct (replicate (4 * k) "0"%char); discriminate.
    + congruence.
    + contradiction.
  - repeat split; auto.
    + intros ->. discriminate.
    + lia.
    + intros Hpad. exfalso. apply Hn. auto.
    + congruence.
Qed.

Lemma read_counter_classifies_witness :
  fst (read_counter 3 (reading (list_ascii_of_string "42") quiet_faults)) = 42.
Proof.
  assert (Hle : digits_value 0 (digit_prefix (list_ascii_of_string "42")) <= INT_MAX)
    by (vm_compute; discriminate).
  destruct (read_counter_classifies (reading (list_ascii_of_string "42") quiet_faults) 3
              "/run/user/.1000" (list_ascii_of_string "42") 0 0 420
              eq_refl eq_refl eq_refl Hle)
    as (_ & _ & H & _).
  rewrite H by reflexivity. reflexivity.
Defined.

(** C4 as stated fails: the content "0000-" is not the single sentinel
    byte, and is read as the sentinel. *)
Lemma read_counter_sentinel_after_zeros :
  let c := list_ascii_of_string "0000-" in
  c <> ["-"%char] /\ fst (read_counter 3 (reading c quiet_faults)) = -2.
Proof. split; [discriminate|reflexivity]. Qed.

(** What one [read] does to the measure of [read_counter]. *)
Lemma sys_read_measure fd w :
  match sys_read fd 4 w with
  | (Err e, w1) =>
      e = EINTR -> (read_measure fd w1 < read_measure fd w)%nat
  | (Ok got, w1) =>
      got <> [] -> (read_measure fd w1 < read_measure fd w)%nat
  end.
Proof.
  unfold sys_read, scripted, bind, emit, pop_fault, read_measure.
  cbn [faults with_trace].
  assert (Hnormal : forall (o : option nat) (q : list (option fault)) w0,
    fds w0 = fds w -> fs w0 = fs w -> faults w0 SysRead = q ->
    match
      match fd_file w0 fd with
      | Some (p, pos, c, _, _, _) =>
          let want := match o with Some (S k) => Nat.min (S k) 4 | _ => 4%nat end in
          let got := take want (drop pos c) in
          (Ok got, with_fds (<[fd := (p, (pos + length got)%nat)]> (fds w0)) (next_fd w0) w0)
      | None => (Err EBADF, w0)
      end
    with
    | (Err e, w1) =>
        e = EINTR ->
        (length (faults w1 SysRead) +
           match fd_file w1 fd with Some (_, pos, c, _, _, _) => length c - pos | None => 0 end
         < S (length q) +
           match fd_file w fd with Some (_, pos, c, _, _, _) => length c - pos | None => 0 end)%nat
    | (Ok got, w1) =>
        got <> [] ->
        (length (faults w1 SysRead) +
           match fd_file w1 fd with Some (_, pos, c, _, _, _) => length c - pos | None => 0 end
         < length q + 
           match fd_file w fd with Some (_, pos, c, _, _, _) => length c - pos | None => 0 end)%nat
    end).
  { intros o q w0 Hfds Hfs Hfq.
    assert (Hff : fd_file w0 fd = fd_file w fd) by (unfold fd_file; rewrite Hfds, Hfs; reflexivity).
    rewrite Hff.
    destruct (fd_file w fd) as [[[[[[p pos] c] u] g] m]|] eqn:Ef.
    2: { intros He. discriminate He. }
    cbv zeta. set (got := take _ (drop pos c)).
    intros Hgot.
    apply fd_file_inv in Ef as [E1 E2].
    unfold fd_file. cbn [fds fs with_fds faults]. rewrite Hfds, lookup_insert_eq, Hfs, E2, Hfq.
    assert (0 < length got)%nat by (destruct got; [congruence|simpl; lia]).
    assert (length got <= length (drop pos c))%nat by (unfold got; rewrite length_take; lia).
    rewrite length_drop in *. lia. }
  destruct (faults w SysRead) as [|[[e|n]|] q] eqn:Eq.
  - specialize (Hnormal None [] (with_trace (EvRead fd :: trace w) w) eq_refl eq_refl Eq).
    destruct (fd_file (with_trace (EvRead fd :: trace w) w) fd) as [[[[[[p pos] c] u] g] m]|];
      cbv zeta in *; cbn [length] in *.
    + intros Hg. specialize (Hnormal Hg). lia.
    + intros He. discriminate He.
  - cbn. intros _. decide_syscalls.
    change (fd_file (with_faults _ (with_trace _ w)) fd) with (fd_file w fd). lia.
  - match goal with |- context [with_faults ?f ?x] => set (w0 := with_faults f x) end.
    assert (Hq0 : faults w0 SysRead = q) by (unfold w0; cbn; decide_syscalls; reflexivity).
    specialize (Hnormal (Some n) q w0 eq_refl eq_refl Hq0).
    cbn [ret]. destruct (fd_file w0 fd) as [[[[[[p pos] c] u] g] m]|];
      cbv zeta in *; cbn [length] in *.
    + intros Hg. specialize (Hnormal Hg). lia.
    + intros He. discriminate He.
  - match goal with |- context [with_faults ?f ?x] => set (w0 := with_faults f x) end.
    assert (Hq0 : faults w0 SysRead = q) by (unfold w0; cbn; decide_syscalls; reflexivity).
    specialize (Hnormal None q w0 eq_refl eq_refl Hq0).
    cbn [ret]. destruct (fd_file w0 fd) as [[[[[[p pos] c] u] g] m]|];
      cbv zeta in *; cbn [length] in *.
    + intros Hg. specialize (Hnormal Hg). lia.
    + intros He. discriminate He.
Qed.

(** The budget [read_counter] gives its loop is never used up: whatever
    the calls answer, the loop leaves with a result. *)
Lemma read_counter_loop_total : forall budget fd count w,
  (read_measure fd w < budget)%nat ->
  exists v w', read_counter_loop budget fd count w = (Some v, w').
Proof.
  induction budget as [|budget IH]; intros fd count w Hm; [lia|].
  simpl read_counter_loop. unfold bind at 1.
  pose proof (sys_read_measure fd w) as Hstep.
  destruct (sys_read fd 4 w) as [[got|e] w1].
  - destruct got as [|a got]; [eexists _, _; reflexivity|].
    destruct (_ && _); [eexists _, _; reflexivity|].
    destruct (scan_digits _ _); [|eexists _, _; reflexivity].
    apply IH. specialize (Hstep ltac:(discriminate)). lia.
  - destruct (e =? EINTR) eqn:E; [|eexists _, _; reflexivity].
    apply IH. apply Z.eqb_eq in E. specialize (Hstep E). lia.
Qed.

(** ** C3: writing the counter *)

(** Projections of updated worlds, and nothing else. *)
Lemma world_eq (a b : world) :
  fs a = fs b -> hist a = hist b -> fds a = fds b -> next_fd a = next_fd b ->
  locked a = locked b -> euid a = euid b -> egid a = egid b -> ruid a = ruid b ->
  rgid a = rgid b -> umask_ a = umask_ b -> passwd a = passwd b ->
  pam_user a = pam_user b -> pam_data a = pam_data b -> pam_env a = pam_env b ->
  log a = log b -> trace a = trace b -> faults a = faults b -> a = b.
Proof. destruct a, b. simpl. intros. subst. reflexivity. Qed.

Ltac world_simpl :=
  cbn [fs hist fds next_fd locked euid egid ruid rgid umask_ passwd pam_user
       pam_data pam_env log trace faults with_fs with_fds with_ids with_umask
       with_pam_data with_pam_env with_log with_trace with_faults fst snd].

Lemma dec_loop_acc rounds : forall n acc,
  dec_loop rounds n acc = dec_loop rounds n [] ++ acc.
Proof.
  induction rounds as [|k IH]; intros n acc; simpl; [reflexivity|].
  destruct (n <? 10); [reflexivity|].
  rewrite IH, (IH _ [_]), <- app_assoc. reflexivity.
Qed.

Lemma digit_at_value r : 0 <= r <= 9 ->
  is_digit (digit_at r) = true /\ byte_value (digit_at r) - 48 = r.
Proof.
  intros H.
  assert (r = 0 \/ r = 1 \/ r = 2 \/ r = 3 \/ r = 4 \/ r = 5 \/ r = 6 \/ r = 7 \/ r = 8 \/ r = 9)
    as Hr by lia.
  repeat (destruct Hr as [-> | Hr]; [split; reflexivity|]). subst r. split; reflexivity.
Qed.

Lemma dec_loop_nonempty rounds n : rounds <> O -> dec_loop rounds n [] <> [].
Proof.
  destruct rounds as [|k]; [congruence|]. intros _. simpl.
  destruct (n <? 10); [discriminate|].
  rewrite dec_loop_acc. destruct (dec_loop k (Z.quot n 10) []); discriminate.
Qed.

Lemma dec_loop_spec : forall rounds n,
  0 <= n < 10 ^ Z.of_nat rounds ->
  let c := dec_loop rounds n [] in
  forallb is_digit c = true /\ digits_value 0 c = n
  /\ (0 < n -> hd NUL c <> "0"%char).
Proof.
  induction rounds as [|k IH]; intros n Hn.
  - change (10 ^ Z.of_nat 0) with 1 in Hn. replace n with 0 by lia. cbn. repeat split; intros; lia.
  - cbn zeta. simpl dec_loop.
    assert (Hrem : 0 <= Z.rem n 10 <= 9).
    { rewrite Z.rem_mod_nonneg by lia. pose proof (Z.mod_pos_bound n 10). lia. }
    destruct (digit_at_value _ Hrem) as [Hd Hv].
    destruct (n <? 10) eqn:E.
    + apply Z.ltb_lt in E. rewrite Z.rem_small in * by lia.
      cbn [forallb digits_value hd]. rewrite Hd. repeat split; [lia|].
      intros Hpos Hz. rewrite Hz in Hv. change (byte_value "0" - 48) with 0 in Hv. lia.
    + apply Z.ltb_ge in E. rewrite dec_loop_acc.
      assert (Hq : 0 <= Z.quot n 10 < 10 ^ Z.of_nat k).
      { rewrite Z.quot_div_nonneg by lia. split; [apply Z.div_pos; lia|].
        apply Z.div_lt_upper_bound; [lia|].
        rewrite Nat2Z.inj_succ, Z.pow_succ_r in Hn by lia. lia. }
      destruct (IH _ Hq) as (Hd' & Hv' & Hh').
      rewrite forallb_app, digits_value_app, Hd', Hv'. cbn [forallb digits_value].
      rewrite Hd. repeat split.
      * rewrite Hv. rewrite Z.rem_mod_nonneg, Z.quot_div_nonneg by lia.
        pose proof (Z.div_mod n 10). lia.
      * intros _.
        assert (0 < Z.quot n 10).
        { rewrite Z.quot_div_nonneg by lia. apply Z.div_str_pos. lia. }
        specialize (Hh' H).
        destruct (dec_loop k (Z.quot n 10) []) eqn:Ed; [|exact Hh'].
        exfalso. destruct k; [change (10 ^ Z.of_nat 0) with 1 in Hq; lia|].
        apply (dec_loop_nonempty (S k) (Z.quot n 10)); [discriminate|exact Ed].
Qed.

Lemma int_below_pow10 n : n <= INT_MAX -> n < 10 ^ Z.of_nat 10.
Proof. unfold INT_MAX. intros H. change (10 ^ Z.of_nat 10) with 10000000000. lia. Qed.

Lemma decimal_is_decimal_of n : 0 <= n <= INT_MAX -> decimal_of n (decimal n).
Proof.
  intros Hn. unfold decimal.
  destruct (dec_loop_spec 10 n) as (Hd & Hv & Hh).
  { split; [lia|apply int_below_pow10; lia]. }
  split; [apply dec_loop_nonempty; discriminate|].
  repeat split; try assumption.
  intros Hz. destruct (Z.eq_dec n 0) as [->|Hne]; [reflexivity|].
  exfalso. apply Hh; [lia|exact Hz].
Qed.

Lemma intlen_loop_length : forall rounds n l,
  0 <= n < 10 ^ Z.of_nat rounds -> rounds <> O ->
  intlen_loop rounds n l = l - 1 + Z.of_nat (length (dec_loop rounds n [])).
Proof.
  induction rounds as [|k IH]; intros n l Hn Hr; [congruence|].
  simpl. destruct (n <? 10) eqn:E; [simpl; lia|].
  apply Z.ltb_ge in E. rewrite dec_loop_acc, length_app. cbn [length].
  assert (Hq : 0 <= Z.quot n 10 < 10 ^ Z.of_nat k).
  { rewrite Z.quot_div_nonneg by lia. split; [apply Z.div_pos; lia|].
    apply Z.div_lt_upper_bound; [lia|].
    rewrite Nat2Z.inj_succ, Z.pow_succ_r in Hn by lia. lia. }
  destruct k as [|k]; [change (10 ^ Z.of_nat 0) with 1 in Hq; lia|].
  rewrite IH by (try exact Hq; discriminate). lia.
Qed.

Lemma intlen_decimal n : 0 <= n <= INT_MAX -> intlen n = Z.of_nat (length (decimal n)).
Proof.
  intros Hn. unfold intlen, decimal. rewrite intlen_loop_length; [lia| |discriminate].
  split; [lia|apply int_below_pow10; lia].
Qed.

(** [print_int_loop] stores the digits of [n] just below [pos]. *)
Lemma print_int_loop_spec : forall rounds (s : list ascii) pos n,
  (length (dec_loop rounds n []) <= pos <= length s)%nat ->
  print_int_loop rounds s pos n
    = take (pos - length (dec_loop rounds n [])) s ++ dec_loop rounds n [] ++ drop pos s.
Proof.
  induction rounds as [|k IH]; intros s pos n Hpos.
  - simpl. rewrite Nat.sub_0_r, take_drop. reflexivity.
  - simpl in *. destruct (n <? 10) eqn:E.
    + simpl in Hpos. cbn [length app].
      rewrite insert_take_drop by lia.
      replace (S (pos - 1)) with pos by lia. reflexivity.
    + rewrite dec_loop_acc, length_app in Hpos. cbn [length] in Hpos.
      rewrite IH by (rewrite length_insert; lia).
      rewrite (dec_loop_acc k _ [_]), length_app. cbn [length].
      rewrite take_insert_ge by lia.
      rewrite (insert_take_drop s (pos - 1)) by lia.
      rewrite drop_app_length' by (rewrite length_take; lia).
      replace (S (pos - 1)) with pos by lia.
      rewrite <- app_assoc. cbn [app].
      replace (pos - 1 - length (dec_loop k (Z.quot n 10) []))%nat
        with (pos - (length (dec_loop k (Z.quot n 10) []) + 1))%nat by lia.
      reflexivity.
Qed.

Lemma counter_bytes_decimal n : 0 <= n <= INT_MAX -> counter_bytes n = decimal n.
Proof.
  intros Hn. unfold counter_bytes.
  destruct (0 <=? n) eqn:E; [|apply Z.leb_gt in E; lia].
  rewrite intlen_decimal by exact Hn. unfold print_int, buffer, decimal.
  rewrite Nat2Z.id. rewrite print_int_loop_spec by (rewrite length_replicate; lia).
  cbn [Nat.add]. rewrite Nat.sub_diag, take_0, drop_ge by (rewrite length_replicate; lia).
  apply app_nil_r.
Qed.

Lemma counter_bytes_sentinel n : n < 0 -> counter_bytes n = ["-"%char].
Proof.
  intros Hn. unfold counter_bytes.
  destruct (0 <=? n) eqn:E; [apply Z.leb_le in E; lia|]. reflexivity.
Qed.

Lemma counter_bytes_length n :
  n <= INT_MAX ->
  Z.of_nat (length (counter_bytes n)) = (if 0 <=? n then intlen n else 1).
Proof.
  intros Hn. destruct (0 <=? n) eqn:E.
  - apply Z.leb_le in E. rewrite counter_bytes_decimal, intlen_decimal by lia. reflexivity.
  - apply Z.leb_gt in E. rewrite counter_bytes_sentinel by lia. reflexivity.
Qed.

Lemma sys_lseek0_quiet fd w p pos :
  faults w SysLseek = [] -> fds w !! fd = Some (p, pos) ->
  sys_lseek0 fd w
    = (Ok 0, with_fds (<[fd := (p, 0%nat)]> (fds w)) (next_fd w)
               (with_trace (EvLseek fd :: trace w) w)).
Proof.
  intros Hq Hfd. unfold sys_lseek0. rewrite scripted_quiet by exact Hq.
  cbn [fds with_trace]. rewrite Hfd. reflexivity.
Qed.

Lemma sys_write_quiet fd buf w p pos c u g m :
  faults w SysWrite = [] ->
  fds w !! fd = Some (p, pos) -> fs w !! p = Some (File c u g m) ->
  sys_write fd buf w
    = (Ok (Z.of_nat (length buf)),
       with_fds (<[fd := (p, (pos + length buf)%nat)]> (fds w)) (next_fd w)
         (with_fs (<[p := File (store_at pos buf c) u g m]> (fs w))
            (with_trace (EvWrite fd buf :: trace w) w))).
Proof.
  intros Hq Hfd Hfs. unfold sys_write. rewrite scripted_quiet by exact Hq.
  unfold fd_file. cbn [fds fs with_trace]. rewrite Hfd, Hfs. reflexivity.
Qed.

Lemma sys_ftruncate_quiet fd len w p pos c u g m :
  faults w SysFtruncate = [] ->
  fds w !! fd = Some (p, pos) -> fs w !! p = Some (File c u g m) ->
  sys_ftruncate fd len w
    = (Ok tt,
       with_fs (<[p := File (take (Z.to_nat len) c ++ replicate (Z.to_nat len - length c) NUL) u g m]> (fs w))
         (with_trace (EvFtruncate fd len :: trace w) w)).
Proof.
  intros Hq Hfd Hfs. unfold sys_ftruncate. rewrite scripted_quiet by exact Hq.
  unfold fd_file. cbn [fds fs with_trace]. rewrite Hfd, Hfs. reflexivity.
Qed.

Lemma do_while_eintr_quiet {A} s (call : M (res A)) w a w' :
  faults w s = [] -> call w = (Ok a, w') ->
  do_while_eintr s call w = (Ok a, w').
Proof.
  intros Hq Hc. unfold do_while_eintr. rewrite Hq. cbn [length retry_eintr].
  unfold bind. rewrite Hc. reflexivity.
Qed.

(** Overwriting from offset 0 and cutting at the length of what was
    written leaves exactly what was written. *)
Lemma store_then_truncate (buf c : list ascii) :
  let stored := store_at 0 buf c in
  take (length buf) stored ++ replicate (length buf - length stored) NUL = buf.
Proof.
  unfold store_at. rewrite take_0, Nat.sub_0_l. cbn [replicate app Nat.add].
  rewrite take_app_length, length_app.
  replace (length buf - (length buf + length (drop (length buf) c)))%nat with 0%nat by lia.
  apply app_nil_r.
Qed.

Lemma write_counter_quiet fd count w p pos c u g m :
  count <= INT_MAX ->
  faults w SysLseek = [] -> faults w SysWrite = [] -> faults w SysFtruncate = [] ->
  fds w !! fd = Some (p, pos) -> fs w !! p = Some (File c u g m) ->
  write_counter fd count w = (0, after_write fd p (counter_bytes count) c u g m w).
Proof.
  intros Hc Hls Hwr Hft Hfd Hfs.
  unfold write_counter.
  rewrite (bind_run _ _ _ _ _ (sys_lseek0_quiet fd w p pos Hls Hfd)).
  fold (counter_bytes count).
  pose proof (counter_bytes_length count Hc) as Hlen.
  set (bytes := counter_bytes count) in *.
  set (l := if 0 <=? count then intlen count else 1) in *.
  clearbody bytes l.
  set (w1 := with_fds _ _ _).
  unfold bind at 1.
  assert (Hq1 : faults w1 SysWrite = []) by exact Hwr.
  rewrite Hq1. cbn [length write_loop].
  unfold bind at 1.
  replace (take (Z.to_nat (l - 0)) (drop (Z.to_nat 0) bytes)) with bytes.
  2: { change (Z.to_nat 0) with 0%nat. rewrite drop_0, Z.sub_0_r, <- Hlen, Nat2Z.id, take_ge; [reflexivity|lia]. }
  erewrite sys_write_quiet; [|exact Hwr|unfold w1; world_simpl; apply lookup_insert_eq|exact Hfs].
  rewrite Z.add_0_l, Hlen, Z.eqb_refl. cbn [ret].
  set (w2 := with_fds _ _ _).
  unfold bind at 1.
  erewrite do_while_eintr_quiet; [|exact Hft|].
  2: { apply sys_ftruncate_quiet with (p := p) (pos := (0 + length bytes)%nat) (u := u) (g := g) (m := m);
         [exact Hft|unfold w2; world_simpl; apply lookup_insert_eq|unfold w2, w1; world_simpl; apply lookup_insert_eq]. }
  cbn [ret]. f_equal.
  unfold after_write, w2, w1.
  apply world_eq; world_simpl; rewrite <- ?Hlen, ?Nat2Z.id, ?store_then_truncate,
    ?insert_insert_eq; reflexivity.
Qed.

Lemma scripted_fail {A} s ev (normal : option nat -> M (res A)) w e q :
  faults w s = Some (Fail e) :: q ->
  scripted s ev normal w
    = (Err e, with_faults (fun s' => if decide (s' = s) then q else faults w s')
                (with_trace (ev :: trace w) w)).
Proof.
  intros H. unfold scripted, bind, emit, pop_fault. cbn [faults with_trace].
  rewrite H. reflexivity.
Qed.

Lemma do_while_eintr_fail {A} s (call : M (res A)) w e w' :
  e <> EINTR -> call w = (Err e, w') ->
  do_while_eintr s call w = (Err e, w').
Proof.
  intros He Hc. unfold do_while_eintr. cbn [retry_eintr].
  unfold bind. rewrite Hc.
  destruct (e =? EINTR) eqn:E; [apply Z.eqb_eq in E; contradiction|]. reflexivity.
Qed.

(** The self-heal on a descriptor whose calls are not scripted. *)
Lemma emergency_invalidate_counter_quiet fd w p pos c u g m :
  faults w SysLseek = [] -> faults w SysWrite = [] -> faults w SysFtruncate = [] ->
  fds w !! fd = Some (p, pos) -> fs w !! p = Some (File c u g m) ->
  exists w',
    emergency_invalidate_counter fd w = (tt, w')
    /\ fs w' = <[p := File ["-"%char] u g m]> (fs w)
    /\ fds w' = <[fd := (p, 1%nat)]> (fds w).
Proof.
  intros Hls Hwr Hft Hfd Hfs.
  unfold emergency_invalidate_counter.
  rewrite (bind_run _ _ _ _ _ (sys_lseek0_quiet fd w p pos Hls Hfd)).
  set (w4 := with_fds _ _ _).
  erewrite (bind_run _ _ w4); cycle 1.
  { apply do_while_eintr_quiet; [exact Hwr|].
    apply sys_write_quiet with (pos := 0%nat) (u := u) (g := g) (m := m) (c := c).
    - exact Hwr.
    - unfold w4. world_simpl. apply lookup_insert_eq.
    - exact Hfs. }
  cbn [length]. change (Z.of_nat 1 =? 1) with true. cbv iota.
  set (w5 := with_fds _ _ _).
  erewrite (bind_run _ _ w5); cycle 1.
  { apply do_while_eintr_quiet; [exact Hft|].
    apply sys_ftruncate_quiet with (pos := 1%nat) (u := u) (g := g) (m := m)
                                   (c := store_at 0 ["-"%char] c).
    - exact Hft.
    - unfold w5. world_simpl. apply lookup_insert_eq.
    - unfold w5. world_simpl. apply lookup_insert_eq. }
  eexists. split; [reflexivity|].
  unfold w5, w4. world_simpl.
  rewrite !insert_insert_eq. split; reflexivity.
Qed.

(** A truncation that fails once: the self-heal then rewinds, writes the
    sentinel byte and cuts the file to it. *)
Lemma write_counter_truncate_fails fd count w p pos c u g m e :
  count <= INT_MAX -> e <> EINTR ->
  faults w SysLseek = [] -> faults w SysWrite = [] ->
  faults w SysFtruncate = [Some (Fail e)] ->
  fds w !! fd = Some (p, pos) -> fs w !! p = Some (File c u g m) ->
  exists w',
    write_counter fd count w = (-1, w')
    /\ fs w' = <[p := File ["-"%char] u g m]> (fs w)
    /\ fds w' = <[fd := (p, 1%nat)]> (fds w).
Proof.
  intros Hc He Hls Hwr Hft Hfd Hfs.
  unfold write_counter.
  rewrite (bind_run _ _ _ _ _ (sys_lseek0_quiet fd w p pos Hls Hfd)).
  fold (counter_bytes count).
  pose proof (counter_bytes_length count Hc) as Hlen.
  set (bytes := counter_bytes count) in *.
  set (l := if 0 <=? count then intlen count else 1) in *.
  clearbody bytes l.
  set (w1 := with_fds _ _ _).
  unfold bind at 1.
  assert (Hq1 : faults w1 SysWrite = []) by exact Hwr.
  rewrite Hq1. cbn [length write_loop].
  unfold bind at 1.
  replace (take (Z.to_nat (l - 0)) (drop (Z.to_nat 0) bytes)) with bytes.
  2: { change (Z.to_nat 0) with 0%nat. rewrite drop_0, Z.sub_0_r, <- Hlen, Nat2Z.id, take_ge; [reflexivity|lia]. }
  erewrite sys_write_quiet; [|exact Hwr|unfold w1; world_simpl; apply lookup_insert_eq|exact Hfs].
  rewrite Z.add_0_l, Hlen, Z.eqb_refl. cbn [ret].
  set (w2 := with_fds _ _ _).
  unfold bind at 1.
  erewrite do_while_eintr_fail; [|exact He|].
  2: { unfold sys_ftruncate. apply scripted_fail. exact Hft. }
  set (w3 := with_faults _ _).
  destruct (emergency_invalidate_counter_quiet fd w3 p (0 + length bytes)%nat
              (store_at 0 bytes c) u g m) as (w' & Hrun & Hfs' & Hfds').
  { unfold w3. world_simpl. decide_syscalls. exact Hls. }
  { unfold w3. world_simpl. decide_syscalls. exact Hwr. }
  { unfold w3. world_simpl. decide_syscalls. reflexivity. }
  { unfold w3, w2. world_simpl. apply lookup_insert_eq. }
  { unfold w3, w2, w1. world_simpl. apply lookup_insert_eq. }
  rewrite (bind_run _ _ _ _ _ Hrun).
  exists w'. split; [reflexivity|].
  rewrite Hfs', Hfds'. unfold w3, w2, w1. world_simpl.
  rewrite !insert_insert_eq. split; reflexivity.
Qed.

(** C3, as amended.  For a count that fits an [int], on a descriptor of
    the counter file whose seeks and writes are not scripted (so that no
    write is cut short): when the truncation succeeds, [write_counter]
    returns 0 and the file holds the minimal decimal representation of the
    count; when the truncation fails once, the self-heal rewinds, writes
    the sentinel byte and truncates to length 1, [write_counter] returns -1
    and the file holds exactly the sentinel byte. *)
Theorem write_counter_content (w : world) (fd : Z) p pos c u g m (count : Z) :
  0 <= count <= INT_MAX ->
  fds w !! fd = Some (p, pos) -> fs w !! p = Some (File c u g m) ->
  faults w SysLseek = [] -> faults w SysWrite = [] ->
  (faults w SysFtruncate = [] ->
   fst (write_counter fd count w) = 0
   /\ exists c', file_content (snd (write_counter fd count w)) p = Some c'
                 /\ decimal_of count c')
  /\ (forall e, e <> EINTR -> faults w SysFtruncate = [Some (Fail e)] ->
      fst (write_counter fd count w) = -1
      /\ file_content (snd (write_counter fd count w)) p = Some ["-"%char]).
Proof.
  intros Hc Hfd Hfs Hls Hwr. split.
  - intros Hft.
    rewrite (write_counter_quiet fd count w p pos c u g m) by (assumption || lia).
    split; [reflexivity|].
    exists (decimal count). split.
    + unfold file_content, after_write. cbn [snd fs].
      rewrite lookup_insert_eq, counter_bytes_decimal by exact Hc. reflexivity.
    + apply decimal_is_decimal_of. exact Hc.
  - intros e He Hft.
    destruct (write_counter_truncate_fails fd count w p pos c u g m e)
      as (w' & Hrun & Hfs' & _); try assumption; try lia.
    rewrite Hrun. split; [reflexivity|].
    unfold file_content. cbn [snd]. rewrite Hfs', lookup_insert_eq. reflexivity.
Qed.

Lemma write_counter_content_witness :
  (let w := reading (list_ascii_of_string "12") quiet_faults in
   fst (write_counter 3 5 w) = 0
   /\ exists c', file_content (snd (write_counter 3 5 w)) "/run/user/.1000" = Some c'
                 /\ decimal_of 5 c')
  /\ (let w := reading (list_ascii_of_string "12") truncate_fails_once in
      fst (write_counter 3 5 w) = -1
      /\ file_content (snd (write_counter 3 5 w)) "/run/user/.1000" = Some ["-"%char]).
Proof.
  assert (Hc : 0 <= 5 <= INT_MAX) by (unfold INT_MAX; lia).
  split; intros w.
  - destruct (write_counter_content w 3 "/run/user/.1000" 0%nat
                (list_ascii_of_string "12") 0 0 420 5 Hc eq_refl eq_refl eq_refl eq_refl)
      as [H _].
    exact (H eq_refl).
  - destruct (write_counter_content w 3 "/run/user/.1000" 0%nat
                (list_ascii_of_string "12") 0 0 420 5 Hc eq_refl eq_refl eq_refl eq_refl)
      as [_ H].
    apply (H EIO); [discriminate|reflexivity].
Defined.

(** C3 as stated fails: when the truncation fails and the truncation of
    the self-heal fails too, the file is left as it is; over the old content
    "12" a write of 5 leaves "-2", which is neither a decimal number nor the
    single sentinel byte. *)
Lemma write_counter_failed_heal_leaves_mixed_content :
  let w := reading (list_ascii_of_string "12") truncate_fails_twice in
  let out := write_counter 3 5 w in
  fst out = -1
  /\ file_content (snd out) "/run/user/.1000" = Some (list_ascii_of_string "-2")
  /\ list_ascii_of_string "-2" <> ["-"%char]
  /\ ~ (exists n, decimal_of n (list_ascii_of_string "-2")).
Proof.
  split; [reflexivity|]. split; [reflexivity|]. split; [discriminate|].
  intros [n (_ & Hd & _)]. discriminate Hd.
Qed.

(** The slip in the write loop: [w] restarts from 0 in every round, so
    after a write cut short the whole buffer is written again behind the
    part already stored.  Writing 12 with a first write of one byte reports
    success and leaves "11". *)
Lemma write_counter_short_write_repeats_prefix :
  let w := reading (list_ascii_of_string "7") short_write_once in
  let out := write_counter 3 12 w in
  fst out = 0
  /\ file_content (snd out) "/run/user/.1000" = Some (list_ascii_of_string "11").
Proof. split; reflexivity. Qed.

Lemma retry_eintr_total {A} s (call : M (res A)) :
  eintr_is_scripted s call ->
  forall budget w, (length (faults w s) < budget)%nat ->
  exists r w', retry_eintr budget call w = (Some r, w').
Proof.
  intros Hcall. induction budget as [|budget IH]; intros w Hb; [lia|].
  simpl. unfold bind. specialize (Hcall w).
  destruct (call w) as [[a|e] w1]; [eexists _, _; reflexivity|].
  destruct (e =? EINTR) eqn:E; [|eexists _, _; reflexivity].
  apply IH. apply Z.eqb_eq in E. specialize (Hcall E). lia.
Qed.

Lemma scripted_eintr {A} s ev (normal : option nat -> M (res A)) :
  (forall o w, match normal o w with
               | (Err e, w1) => e <> EINTR
               | (Ok _, _) => True
               end) ->
  eintr_is_scripted s (scripted s ev normal).
Proof.
  intros Hn w. unfold scripted, bind, emit, pop_fault. cbn [faults with_trace].
  destruct (faults w s) as [|[[e|n]|] q] eqn:Eq.
  - specialize (Hn None (with_trace (ev :: trace w) w)).
    destruct (normal None _) as [[a|e] w1]; [exact I|]. intros He. contradiction.
  - cbn. intros _. destruct (decide (s = s)); [lia|contradiction].
  - match goal with |- context [normal ?o ?x] => specialize (Hn o x); destruct (normal o x) as [[a|e] w1] end;
      [exact I|]. intros He. contradiction.
  - match goal with |- context [normal ?o ?x] => specialize (Hn o x); destruct (normal o x) as [[a|e] w1] end;
      [exact I|]. intros He. contradiction.
Qed.

Lemma ftruncate_eintr fd len : eintr_is_scripted SysFtruncate (sys_ftruncate fd len).
Proof.
  apply scripted_eintr. intros o w.
  destruct (fd_file w fd) as [[[[[[p pos] c] u] g] m]|]; [exact I|discriminate].
Qed.

Lemma write_eintr fd buf : eintr_is_scripted SysWrite (sys_write fd buf).
Proof.
  apply scripted_eintr. intros o w.
  destruct (fd_file w fd) as [[[[[[p pos] c] u] g] m]|]; [exact I|discriminate].
Qed.

(** The budgets of the two [do ... while] loops are never used up. *)
Lemma do_while_eintr_total {A} s (call : M (res A)) :
  eintr_is_scripted s call ->
  forall w, exists r w', retry_eintr (S (length (faults w s))) call w = (Some r, w').
Proof. intros Hc w. apply (retry_eintr_total s call Hc). lia. Qed.

(** One [write] of the whole buffer either transfers all of it or uses up
    a scripted outcome. *)
Lemma sys_write_progress fd buf w :
  match sys_write fd buf w with
  | (Err e, w1) => e = EINTR -> (length (faults w1 SysWrite) < length (faults w SysWrite))%nat
  | (Ok n, w1) => n <> Z.of_nat (length buf) ->
                  (length (faults w1 SysWrite) < length (faults w SysWrite))%nat
  end.
Proof.
  unfold sys_write, scripted, bind, emit, pop_fault. cbn [faults with_trace].
  destruct (faults w SysWrite) as [|[[e|n]|] q] eqn:Eq.
  - destruct (fd_file _ fd) as [[[[[[p pos] c] u] g] m]|]; [congruence|discriminate].
  - cbn. intros _. decide_syscalls. lia.
  - cbn [ret]. destruct (fd_file _ fd) as [[[[[[p pos] c] u] g] m]|];
      [|discriminate]. intros _. cbn. decide_syscalls. lia.
  - cbn [ret]. destruct (fd_file _ fd) as [[[[[[p pos] c] u] g] m]|];
      [|discriminate]. intros _. cbn. decide_syscalls. lia.
Qed.

(** The budget [write_counter] gives its write loop is never used up. *)
Lemma write_loop_total fd buf l : 
  l = Z.of_nat (length buf) ->
  forall budget w, (length (faults w SysWrite) < budget)%nat ->
  exists x w', write_loop budget fd buf l w = (Some x, w').
Proof.
  intros Hl. induction budget as [|budget IH]; intros w Hb; [lia|].
  simpl write_loop. cbv zeta. unfold bind at 1.
  replace (take (Z.to_nat (l - 0)) (drop (Z.to_nat 0) buf)) with buf.
  2: { change (Z.to_nat 0) with 0%nat. rewrite drop_0, Z.sub_0_r, Hl, Nat2Z.id, take_ge; [reflexivity|lia]. }
  pose proof (sys_write_progress fd buf w) as Hstep.
  destruct (sys_write fd buf w) as [[n|e] w1].
  - rewrite Z.add_0_l. destruct (n =? l) eqn:E; [eexists _, _; reflexivity|].
    apply IH. apply Z.eqb_neq in E. specialize (Hstep ltac:(lia)). lia.
  - destruct (e =? EINTR) eqn:E.
    + apply IH. apply Z.eqb_eq in E. specialize (Hstep E). lia.
    + change (0 <? 0) with false. cbv iota. eexists _, _; reflexivity.
Qed.

(** ** The two paths of an identity *)

Lemma cstring_app_nul pre rest :
  forallb (fun a => negb (Ascii.eqb a NUL)) pre = true ->
  cstring (pre ++ NUL :: rest) = string_of_list_ascii pre.
Proof.
  induction pre as [|a pre IH]; intros H; [reflexivity|].
  simpl in *. apply andb_true_iff in H as [Ha Hp].
  destruct (Ascii.eqb a NUL); [discriminate|]. rewrite IH by exact Hp. reflexivity.
Qed.

Lemma digit_not_nul a : is_digit a = true -> negb (Ascii.eqb a NUL) = true.
Proof.
  intros H. destruct (Ascii.eqb a NUL) eqn:E; [|reflexivity].
  apply Ascii.eqb_eq in E. subst a. discriminate H.
Qed.

Lemma digits_not_nul c :
  forallb is_digit c = true -> forallb (fun a => negb (Ascii.eqb a NUL)) c = true.
Proof.
  induction c as [|a c IH]; intros H; [reflexivity|]. simpl in *.
  apply andb_true_iff in H as [Ha Hc]. rewrite digit_not_nul, IH by assumption. reflexivity.
Qed.

Lemma memcpy_fresh (src : list ascii) N :
  (length src <= N)%nat ->
  memcpy (replicate N NUL) 0 src = src ++ replicate (N - length src) NUL.
Proof.
  intros H. unfold memcpy. rewrite take_0, Nat.add_0_l, drop_replicate, length_replicate.
  cbn [app]. apply take_ge. rewrite length_app, length_replicate. lia.
Qed.

Lemma insert_at_end (pre : list ascii) M a :
  <[length pre := a]> (pre ++ replicate (S M) NUL) = (pre ++ [a]) ++ replicate M NUL.
Proof.
  rewrite insert_app_r_alt by lia. rewrite Nat.sub_diag. cbn.
  rewrite <- app_assoc. reflexivity.
Qed.

Lemma dec_loop_length rounds : forall n, (length (dec_loop rounds n []) <= rounds)%nat.
Proof.
  induction rounds as [|k IH]; intros n; simpl; [lia|].
  destruct (n <? 10); [simpl; lia|].
  rewrite dec_loop_acc, length_app. cbn [length]. specialize (IH (Z.quot n 10)). lia.
Qed.

Lemma decimal_length n : (1 <= length (decimal n) <= 10)%nat.
Proof.
  unfold decimal. pose proof (dec_loop_length 10 n).
  pose proof (dec_loop_nonempty 10 n ltac:(discriminate)).
  destruct (dec_loop 10 n []); [congruence|]. simpl in *. lia.
Qed.

(** The buffer [print_filename] fills: the counter path, its terminator,
    and the untouched rest of the array. *)
Lemma counter_file_bytes uid :
  0 <= uid <= INT_MAX ->
  counter_file uid
    = list_ascii_of_string "/run/user/." ++ decimal uid
        ++ replicate (Z.to_nat MAX_PATH_LEN - 11 - length (decimal uid)) NUL.
Proof.
  intros Hu. unfold counter_file, print_filename, buffer.
  rewrite wrap32_id by (unfold INT_MAX in *; lia).
  rewrite intlen_decimal by exact Hu. rewrite Nat2Z.id.
  pose proof (decimal_length uid) as Hk.
  set (k := length (decimal uid)) in *.
  assert (HN : Z.to_nat MAX_PATH_LEN = (S (S (4094 - 11 - k) + 11 + k))%nat)
    by (unfold MAX_PATH_LEN; lia).
  rewrite HN.
  set (M := (4094 - 11 - k)%nat).
  change (String.length PARENT_DIR) with 9%nat.
  rewrite memcpy_fresh by (simpl; lia).
  change (length (list_ascii_of_string PARENT_DIR)) with 9%nat.
  replace (S (S M + 11 + k) - 9)%nat with (S (S (S M + k + 1)))%nat by lia.
  rewrite (insert_at_end (list_ascii_of_string PARENT_DIR)).
  rewrite (insert_at_end (list_ascii_of_string PARENT_DIR ++ ["/"%char])).
  unfold print_int.
  rewrite Nat2Z.id. fold k.
  change ((list_ascii_of_string PARENT_DIR ++ ["/"%char]) ++ ["."%char])
    with (list_ascii_of_string "/run/user/.").
  set (pre := list_ascii_of_string "/run/user/.").
  assert (Hpre : length pre = 11%nat) by reflexivity.
  rewrite print_int_loop_spec.
  2: { fold (decimal uid). fold k. rewrite length_app, length_replicate, Hpre. lia. }
  fold (decimal uid). fold k.
  replace (9 + 2 + k - k)%nat with (length pre) by lia.
  rewrite take_app_length.
  replace (9 + 2 + k)%nat with (length pre + k)%nat by lia.
  rewrite drop_app_add, drop_replicate.
  replace (S M + k + 1 - k)%nat with (S (S M)) by lia.
  rewrite !app_assoc.
  rewrite (list_insert_id _ (length pre + k)%nat NUL).
  2: { rewrite lookup_app_r by (rewrite length_app; fold k; lia).
       rewrite length_app. fold k. replace (length pre + k - (length pre + k))%nat with 0%nat by lia.
       reflexivity. }
  rewrite <- !app_assoc. f_equal. f_equal. f_equal. lia.
Qed.

Lemma string_of_app (a b : list ascii) :
  string_of_list_ascii (a ++ b) = string_of_list_ascii a +:+ string_of_list_ascii b.
Proof. induction a as [|x a IH]; simpl; [reflexivity|]. rewrite IH. reflexivity. Qed.

Lemma counter_path_eq uid :
  0 <= uid <= INT_MAX -> counter_path uid = "/run/user/." +:+ uid_text uid.
Proof.
  intros Hu. unfold counter_path. rewrite counter_file_bytes by exact Hu.
  pose proof (decimal_length uid) as Hk.
  replace (Z.to_nat MAX_PATH_LEN - 11 - length (decimal uid))%nat
    with (S (4084 - length (decimal uid))) by (unfold MAX_PATH_LEN; lia).
  cbn [replicate]. rewrite app_assoc, cstring_app_nul.
  - rewrite string_of_app. reflexivity.
  - rewrite forallb_app. apply andb_true_iff. split; [reflexivity|].
    apply digits_not_nul. apply decimal_is_decimal_of. exact Hu.
Qed.

(** What the [memmove] of the hooks leaves: the dot is kept, the slash is
    lost and the last digit is doubled. *)
Lemma derived_runtime_dir_eq uid :
  0 <= uid <= INT_MAX ->
  derived_runtime_dir uid
    = "/run/user." +:+ uid_text uid +:+ String (List.last (decimal uid) NUL) "".
Proof.
  intros Hu. unfold derived_runtime_dir. rewrite counter_file_bytes by exact Hu.
  rewrite wrap32_id by (unfold INT_MAX in *; lia).
  rewrite intlen_decimal by exact Hu.
  pose proof (decimal_length uid) as Hk.
  assert (Hd : forallb is_digit (decimal uid) = true) by (apply decimal_is_decimal_of; exact Hu).
  unfold uid_text.
  destruct (exists_last (l := decimal uid)) as (di & dl & Hdec).
  { intros E. rewrite E in Hk. simpl in Hk. lia. }
  rewrite Hdec in *. rewrite last_last.
  rewrite length_app in *. cbn [length] in *.
  set (k := length di) in *.
  replace (Z.to_nat MAX_PATH_LEN - 11 - (k + 1))%nat with (S (4083 - k)) by (unfold MAX_PATH_LEN; lia).
  replace (Z.to_nat (Z.of_nat (k + 1) + 1)) with (S (S k)) by lia.
  change parent_len with 9%nat.
  unfold memmove, memcpy.
  set (p9 := list_ascii_of_string "/run/user").
  change (list_ascii_of_string "/run/user/.") with (p9 ++ ["/"%char; "."%char]).
  set (R := replicate (S (4083 - k)) NUL).
  assert (Hp9 : length p9 = 9%nat) by reflexivity.
  assert (HB : (p9 ++ ["/"%char; "."%char]) ++ (di ++ [dl]) ++ R
               = (p9 ++ ["/"%char]) ++ ("."%char :: di ++ [dl]) ++ R).
  { repeat (rewrite <- app_assoc; cbn [app]). reflexivity. }
  rewrite HB.
  assert (Hdrop : drop 10 ((p9 ++ ["/"%char]) ++ ("."%char :: di ++ [dl]) ++ R)
                  = ("."%char :: di ++ [dl]) ++ R).
  { apply drop_app_length'. rewrite length_app, Hp9. reflexivity. }
  rewrite Hdrop.
  assert (Htake : take (S (S k)) (("."%char :: di ++ [dl]) ++ R) = "."%char :: di ++ [dl]).
  { apply take_app_length'. cbn [length]. rewrite length_app. cbn [length]. fold k. lia. }
  rewrite Htake.
  assert (Htake9 : take 9 ((p9 ++ ["/"%char]) ++ ("."%char :: di ++ [dl]) ++ R) = p9).
  { rewrite <- app_assoc. apply take_app_length'. exact Hp9. }
  rewrite Htake9.
  assert (Hdrop2 : drop (9 + length ("."%char :: di ++ [dl]))
                     ((p9 ++ ["/"%char]) ++ ("."%char :: di ++ [dl]) ++ R)
                   = dl :: R).
  { cbn [length]. rewrite length_app. cbn [length]. fold k.
    replace ((p9 ++ ["/"%char]) ++ ("."%char :: di ++ [dl]) ++ R)
      with ((p9 ++ "/"%char :: "."%char :: di) ++ dl :: R)
      by (repeat (rewrite <- app_assoc; cbn [app]); reflexivity).
    apply drop_app_length'. rewrite length_app, Hp9. cbn [length]. fold k. lia. }
  rewrite Hdrop2.
  rewrite take_ge.
  2: { rewrite !length_app. cbn [length]. rewrite !length_app. cbn [length]. lia. }
  unfold R. cbn [replicate].
  replace (p9 ++ ("."%char :: di ++ [dl]) ++ dl :: NUL :: replicate (4083 - k) NUL)
    with ((p9 ++ "."%char :: (di ++ [dl]) ++ [dl]) ++ NUL :: replicate (4083 - k) NUL)
    by (repeat (rewrite <- app_assoc; cbn [app]); reflexivity).
  rewrite cstring_app_nul.
  - rewrite string_of_app. cbn [string_of_list_ascii p9 list_ascii_of_string].
    rewrite string_of_app. reflexivity.
  - rewrite forallb_app. apply andb_true_iff. split; [reflexivity|].
    cbn [forallb]. apply andb_true_iff. split; [reflexivity|].
    rewrite forallb_app. apply andb_true_iff. split; [apply digits_not_nul; exact Hd|].
    rewrite forallb_app in Hd. apply andb_true_iff in Hd as [_ Hl].
    apply digits_not_nul. exact Hl.
Qed.

Lemma strrchr_app pre t c :
  strrchr (pre +:+ t) c
  = match strrchr t c with
    | Some i => Some (String.length pre + i)%nat
    | None => strrchr pre c
    end.
Proof.
  induction pre as [|a pre IH].
  - change ("" +:+ t) with t. destruct (strrchr t c); reflexivity.
  - change (String a pre +:+ t) with (String a (pre +:+ t)).
    cbn [strrchr String.length]. rewrite IH. destruct (strrchr t c); [reflexivity|].
    destruct (strrchr pre c); reflexivity.
Qed.

Lemma strrchr_digits c :
  forallb is_digit c = true -> strrchr (string_of_list_ascii c) "/" = None.
Proof.
  induction c as [|a c IH]; intros H; [reflexivity|]. simpl in *.
  apply andb_true_iff in H as [Ha Hc]. rewrite IH by exact Hc.
  destruct (Ascii.eqb a "/") eqn:E; [|reflexivity].
  apply Ascii.eqb_eq in E. subst a. discriminate Ha.
Qed.

Lemma counter_path_slash uid :
  0 <= uid <= INT_MAX ->
  strrchr (counter_path uid) "/" = Some 9%nat
  /\ substring 0 9 (counter_path uid) = PARENT_DIR.
Proof.
  intros Hu. rewrite counter_path_eq by exact Hu. split; [|reflexivity].
  rewrite strrchr_app. unfold uid_text.
  rewrite strrchr_digits by (apply decimal_is_decimal_of; exact Hu). reflexivity.
Qed.

Lemma paths_distinct uid :
  0 <= uid <= INT_MAX ->
  counter_path uid <> PARENT_DIR
  /\ derived_runtime_dir uid <> PARENT_DIR
  /\ String.prefix (derived_runtime_dir uid) (counter_path uid) = false.
Proof.
  intros Hu. rewrite counter_path_eq, derived_runtime_dir_eq by exact Hu.
  repeat split; try discriminate.
Qed.

(** ** What a removal can touch *)

Lemma prefix_refl s : String.prefix s s = true.
Proof.
  induction s as [|a s IH]; [reflexivity|]. simpl.
  destruct (ascii_dec a a); [exact IH|contradiction].
Qed.

Lemma prefix_app s t : String.prefix s (s +:+ t) = true.
Proof.
  induction s as [|a s IH]; [destruct t; reflexivity|].
  change (String a s +:+ t) with (String a (s +:+ t)). simpl.
  destruct (ascii_dec a a); [exact IH|contradiction].
Qed.

Lemma prefix_trans a : forall b q,
  String.prefix a b = true -> String.prefix b q = true -> String.prefix a q = true.
Proof.
  induction a as [|x a IH]; intros b q Hab Hbq; [destruct q; reflexivity|].
  destruct b as [|y b]; [discriminate|]. destruct q as [|z q]; [discriminate|].
  simpl in *.
  destruct (ascii_dec x y); [|discriminate]. destruct (ascii_dec y z); [|discriminate].
  subst. destruct (ascii_dec z z); [|contradiction]. eapply IH; eassumption.
Qed.

Lemma prefix_outside a b q :
  String.prefix a b = true -> String.prefix a q = false -> String.prefix b q = false.
Proof.
  intros Hab Haq. destruct (String.prefix b q) eqn:E; [|reflexivity].
  rewrite (prefix_trans a b q Hab E) in Haq. discriminate.
Qed.

Lemma substring_all s : forall n, (String.length s <= n)%nat -> substring 0 n s = s.
Proof.
  induction s as [|a s IH]; intros n Hn; [destruct n; reflexivity|].
  destruct n; simpl in *; [lia|]. rewrite IH by lia. reflexivity.
Qed.

Lemma length_append s t : String.length (s +:+ t) = (String.length s + String.length t)%nat.
Proof.
  induction s as [|a s IH]; [reflexivity|].
  change (String a s +:+ t) with (String a (s +:+ t)). simpl. rewrite IH. reflexivity.
Qed.

Lemma frame_refl path w : frame path w w.
Proof.
  split; auto.
  - exists []. split; [reflexivity|]. intros args [].
  - exists []. reflexivity.
Qed.

Lemma frame_trans path w1 w2 w3 :
  frame path w1 w2 -> frame path w2 w3 -> frame path w1 w3.
Proof.
  intros [F1 D1 Q1 (l1 & L1 & N1) (t1 & T1)] [F2 D2 Q2 (l2 & L2 & N2) (t2 & T2)].
  split.
  - intros q Hq. rewrite F2, F1 by exact Hq. reflexivity.
  - congruence.
  - auto.
  - exists (l2 ++ l1). rewrite L2, L1, app_assoc. split; [reflexivity|].
    intros args Hin. apply in_app_or in Hin as [Hin|Hin]; [eapply N2|eapply N1]; eassumption.
  - exists (t2 ++ t1). rewrite T2, T1, app_assoc. reflexivity.
Qed.

Lemma frame_weaken path path' w w' :
  String.prefix path path' = true -> frame path' w w' -> frame path w w'.
Proof.
  intros Hp [F D Q L T]. split; auto.
  intros q Hq. apply F. eapply prefix_outside; eassumption.
Qed.

Lemma framed_ret {A} path (a : A) : framed path (ret a).
Proof. intros w. apply frame_refl. Qed.

Lemma framed_bind {A B} path (m : M A) (k : A -> M B) :
  framed path m -> (forall a, framed path (k a)) -> framed path (bind m k).
Proof.
  intros Hm Hk w. unfold bind. specialize (Hm w). destruct (m w) as [a w1].
  eapply frame_trans; [exact Hm|apply Hk].
Qed.

Lemma framed_log path fmt args :
  fmt <> removal_failed_fmt -> framed path (log_error fmt args).
Proof.
  intros Hf w. split; auto.
  - exists [(fmt, args)]. split; [reflexivity|].
    intros a [H|[]]. inversion H. contradiction.
  - exists []. reflexivity.
Qed.

Lemma frame_pop s path w : frame path w (snd (pop_fault s w)).
Proof.
  unfold pop_fault. destruct (faults w s) as [|f q] eqn:E; [apply frame_refl|].
  split; auto.
  - intros s0 H0. cbn. destruct (decide (s0 = s)) as [->|]; [congruence|exact H0].
  - exists []. split; [reflexivity|]. intros args [].
  - exists []. reflexivity.
Qed.

Lemma framed_scripted {A} path s ev (normal : option nat -> M (res A)) :
  (forall o, framed path (normal o)) -> framed path (scripted s ev normal).
Proof.
  intros Hn w. unfold scripted.
  apply framed_bind.
  - intros w0. split; auto.
    + exists []. split; [reflexivity|]. intros args [].
    + exists [ev]. reflexivity.
  - intros _. apply framed_bind.
    + intros w0. apply frame_pop.
    + intros [[c|n]|]; [apply framed_ret|apply Hn|apply Hn].
Qed.

(** A change of the file system at one path below [path]. *)
Lemma frame_with_fs path p f w :
  String.prefix path p = true ->
  (forall q, q <> p -> f !! q = fs w !! q) ->
  frame path w (with_fs f w).
Proof.
  intros Hp Hf. split; auto.
  - intros q Hq. apply Hf. intros ->. congruence.
  - exists []. split; [reflexivity|]. intros args [].
  - exists []. reflexivity.
Qed.

Lemma framed_stat path p : framed path (sys_stat p).
Proof.
  apply framed_scripted. intros o w. destruct (fs w !! p); apply frame_refl.
Qed.

Lemma framed_opendir path p : framed path (sys_opendir p).
Proof.
  apply framed_scripted. intros o w. destruct (fs w !! p) as [[]|]; apply frame_refl.
Qed.

Lemma framed_unlink path p :
  String.prefix path p = true -> framed path (sys_unlink p).
Proof.
  intros Hp. apply framed_scripted. intros o w.
  destruct (fs w !! p) as [[]|]; try apply frame_refl.
  apply (frame_with_fs path p); [exact Hp|].
  intros q Hq. apply lookup_delete_ne. congruence.
Qed.

Lemma framed_rmdir path p :
  String.prefix path p = true -> framed path (sys_rmdir p).
Proof.
  intros Hp. apply framed_scripted. intros o w.
  destruct (fs w !! p) as [[]|]; try apply frame_refl.
  destruct (children (fs w) p); [|apply frame_refl].
  apply (frame_with_fs path p); [exact Hp|].
  intros q Hq. apply lookup_delete_ne. congruence.
Qed.

Lemma framed_for_each {A B} path (f : A -> B -> M A) :
  (forall a b, framed path (f a b)) ->
  forall l a, framed path (for_each f a l).
Proof.
  intros Hf. induction l as [|b l IH]; intros a; simpl.
  - apply framed_ret.
  - apply framed_bind; [apply Hf|intros a'; apply IH].
Qed.

Ltac framed_logs :=
  apply framed_bind; [apply framed_log; discriminate|intros; apply framed_ret].

Lemma framed_entry recurse path r d_name :
  (forall p, framed p (recurse p)) ->
  framed path (rmrf_entry recurse path (Z.of_nat (String.length path)) r d_name).
Proof.
  intros Hrec. unfold rmrf_entry.
  destruct (_ || _); [apply framed_ret|].
  destruct (MAX_PATH_LEN <=? _) eqn:E; [framed_logs|].
  apply Z.leb_gt in E.
  assert (Hfull : String.prefix path
                    (snprintf MAX_PATH_LEN (path +:+ "/" +:+ d_name)) = true).
  { unfold snprintf. rewrite substring_all; [apply prefix_app|].
    rewrite !length_append. simpl String.length. unfold MAX_PATH_LEN in *. lia. }
  apply framed_bind; [apply framed_stat|].
  intros [nd|e]; [|framed_logs].
  destruct (S_ISDIR nd).
  - apply framed_bind.
    + intros w. eapply frame_weaken; [exact Hfull|apply Hrec].
    + intros rr. destruct (negb (rr =? 0)); apply framed_ret.
  - apply framed_bind; [apply framed_unlink; exact Hfull|].
    intros [u|e]; [apply framed_ret|framed_logs].
Qed.

Lemma framed_body recurse path :
  (forall p, framed p (recurse p)) -> framed path (rmrf_body recurse path).
Proof.
  intros Hrec. unfold rmrf_body.
  apply framed_bind; [apply framed_unlink, prefix_refl|].
  intros [u|e]; [apply framed_ret|].
  destruct (negb (e =? EISDIR)); [framed_logs|].
  apply framed_bind; [apply framed_opendir|].
  intros [entries|e']; [|framed_logs].
  destruct (MAX_PATH_LEN - 1 <=? _); [framed_logs|].
  apply framed_bind; [apply framed_for_each; intros; apply framed_entry; exact Hrec|].
  intros r. apply framed_bind; [apply framed_rmdir, prefix_refl|].
  intros [u|e'']; [apply framed_ret|framed_logs].
Qed.

Lemma framed_rmrf_depth : forall depth path, framed path (rmrf_depth depth path).
Proof.
  induction depth as [|depth IH]; intros path; simpl; apply framed_body.
  - intros p. apply framed_ret.
  - exact IH.
Qed.

Lemma framed_rmrf path : framed path (rmrf path).
Proof. apply framed_rmrf_depth. Qed.


(** ** Session-end up to the removal *)

Ltac quiet_by H := world_simpl; apply H; discriminate.

Lemma ensure_parent_dir_existing w du dg dm :
  faults w SysMkdir = [] -> faults w SysStat = [] ->
  faults w SysChown = [] -> faults w SysChmod = [] ->
  fs w !! PARENT_DIR = Some (Dir du dg dm) ->
  exists w',
    ensure_parent_dir w = (1, w')
    /\ fs w' = <[PARENT_DIR := Dir 0 0 493]> (fs w)
    /\ fds w' = fds w /\ next_fd w' = next_fd w /\ locked w' = locked w
    /\ faults w' = faults w /\ log w' = log w
    /\ exists t, trace w' = t ++ trace w /\ forall p, ~ In (EvUnlink p) t.
Proof.
  intros Hmk Hst Hco Hcm Hdir.
  unfold ensure_parent_dir.
  unfold bind at 1. unfold sys_umask at 1. cbv iota beta.
  unfold bind at 1. unfold bind at 1. unfold bind at 1.
  unfold sys_mkdir. rewrite scripted_quiet by exact Hmk.
  world_simpl. rewrite Hdir.
  change (negb (EEXIST =? EEXIST)) with false. cbv iota.
  unfold bind at 1. unfold sys_stat. rewrite scripted_quiet by exact Hst.
  world_simpl. rewrite Hdir. cbn [S_ISDIR negb ret].
  unfold bind at 1. unfold bind at 1.
  unfold sys_chown. rewrite scripted_quiet by exact Hco.
  world_simpl. rewrite Hdir.
  cbn [ret]. unfold bind at 1. unfold bind at 1.
  unfold sys_chmod. rewrite scripted_quiet by exact Hcm.
  world_simpl. rewrite lookup_insert_eq.
  cbn [ret]. unfold bind at 1. unfold sys_umask.
  eexists. split; [reflexivity|]. world_simpl.
  rewrite insert_insert_eq.
  repeat (split; [reflexivity|]).
  eexists (_ :: _ :: _ :: _ :: _ :: _ :: []). split; [reflexivity|].
  intros p Hin. repeat (destruct Hin as [Hin|Hin]; [discriminate Hin|]). exact Hin.
Qed.

Lemma open_and_lock_free file w n du dg dm c u g m :
  faults w SysStat = [] -> faults w SysOpen = [] -> faults w SysFlock = [] ->
  strrchr file "/" = Some n -> Z.of_nat n < PATH_MAX ->
  fs w !! substring 0 n file = Some (Dir du dg dm) ->
  fs w !! file = Some (File c u g m) ->
  file ∉ locked w ->
  exists w',
    open_and_lock file w = (Z.of_nat (next_fd w), w')
    /\ fs w' = fs w
    /\ fds w' = <[Z.of_nat (next_fd w) := (file, 0%nat)]> (fds w)
    /\ faults w' = faults w /\ log w' = log w
    /\ exists t, trace w' = t ++ trace w /\ forall p, ~ In (EvUnlink p) t.
Proof.
  intros Hst Hop Hfl Hstr Hn Hdir Hfile Hfree.
  unfold open_and_lock. rewrite Hstr.
  destruct (PATH_MAX <=? Z.of_nat n) eqn:E; [apply Z.leb_le in E; lia|].
  unfold bind at 1. unfold bind at 1.
  unfold sys_stat. rewrite scripted_quiet by exact Hst.
  world_simpl. rewrite Hdir. cbn [S_ISDIR negb ret].
  unfold bind at 1. unfold LOCK_RETRIES at 1. cbn [open_retry].
  unfold bind at 1. unfold sys_open. rewrite scripted_quiet by exact Hop.
  world_simpl. rewrite Hfile. cbn [ret].
  unfold bind at 1. unfold LOCK_RETRIES. cbn [lock_retry].
  unfold bind at 1. unfold sys_flock. rewrite scripted_quiet by exact Hfl.
  world_simpl. rewrite lookup_insert_eq.
  destruct (decide (file ∈ locked w)); [contradiction|]. cbn [ret].
  eexists. split; [reflexivity|]. world_simpl.
  repeat (split; [reflexivity|]).
  eexists (_ :: _ :: _ :: []). split; [reflexivity|].
  intros p Hin. repeat (destruct Hin as [Hin|Hin]; [discriminate Hin|]). exact Hin.
Qed.

Lemma intlen_uid_ok uid :
  0 <= uid <= INT_MAX ->
  (intlen (wrap32 uid) <=? 0) || (MAX_UID_LENGTH <? intlen (wrap32 uid)) = false.
Proof.
  intros Hu. rewrite wrap32_id by (unfold INT_MAX in *; lia).
  rewrite intlen_decimal by exact Hu.
  pose proof (decimal_length uid). unfold MAX_UID_LENGTH.
  apply orb_false_iff. split; [apply Z.leb_gt|apply Z.ltb_ge]; lia.
Qed.

(** Session-end, from the call of the hook to the counter just read. *)
Lemma close_session_to_count w user uid gid c :
  session_end_ready w user uid gid c ->
  exists v w2 pos2,
    parse_chunks (S (length c)) c 0 = Some v
    /\ pam_sm_close_session w
       = close_session_counted (Z.of_nat (next_fd w)) (counter_file uid)
           (intlen (wrap32 uid)) v w2
    /\ fs w2 = <[PARENT_DIR := Dir 0 0 493]> (fs w)
    /\ fds w2 = <[Z.of_nat (next_fd w) := (counter_path uid, pos2)]> (fds w)
    /\ faults w2 = faults w /\ log w2 = log w
    /\ exists t, trace w2 = t ++ trace w /\ forall p, ~ In (EvUnlink p) t.
Proof.
  intros [Hq Hroot [d Hd] [Huser Hne] Hpw Hu (du & dg & dm & Hdir) (cu & cg & cm & Hc) Hfree].
  destruct (counter_path_slash uid Hu) as [Hslash Hsub].
  destruct (paths_distinct uid Hu) as (Hcp & _ & _).
  set (w0 := with_trace (EvGeteuid :: trace w) w).
  destruct (ensure_parent_dir_existing w0 du dg dm)
    as (w1 & Hrun1 & Hfs1 & Hfds1 & Hnext1 & Hlock1 & Hq1 & Hlog1 & t1 & Ht1 & Hno1);
    try (unfold w0; world_simpl; apply Hq; discriminate).
  { exact Hdir. }
  destruct (open_and_lock_free (counter_path uid) w1 9%nat 0 0 493 c cu cg cm)
    as (w1' & Hrun2 & Hfs2 & Hfds2 & Hq2 & Hlog2 & t2 & Ht2 & Hno2);
    try (rewrite Hq1; unfold w0; world_simpl; apply Hq; discriminate).
  { exact Hslash. }
  { unfold PATH_MAX. lia. }
  { rewrite Hsub, Hfs1. apply lookup_insert_eq. }
  { rewrite Hfs1, lookup_insert_ne by congruence. exact Hc. }
  { rewrite Hlock1. exact Hfree. }
  rewrite Hnext1 in Hrun2, Hfds2.
  change (next_fd w0) with (next_fd w) in Hrun2, Hfds2.
  destruct (read_counter_quiet (Z.of_nat (next_fd w)) (counter_path uid) c cu cg cm w1' 0)
    as (v & pos2 & nr & Hv & Hrun3).
  { rewrite Hq2, Hq1. unfold w0. world_simpl. apply Hq; discriminate. }
  { rewrite Hfds2. apply lookup_insert_eq. }
  { rewrite Hfs2, Hfs1, lookup_insert_ne by congruence. exact Hc. }
  rewrite Nat.sub_0_r, drop_0 in Hv.
  exists v. eexists. exists pos2. split; [exact Hv|]. split.
  { unfold pam_sm_close_session.
    unfold bind at 1. unfold pam_get_data, bind at 1.
    rewrite pop_fault_quiet by (apply Hq; discriminate).
    rewrite Hd. cbn [fst snd is_null].
    change (negb (PAM_SUCCESS =? PAM_SUCCESS) && negb (PAM_SUCCESS =? PAM_NO_MODULE_DATA)) with false.
    change ((PAM_SUCCESS =? PAM_NO_MODULE_DATA) || false) with false. cbv iota.
    unfold bind at 1. unfold sys_geteuid at 1. rewrite Hroot.
    change (negb (0 =? 0)) with false. cbv iota.
    fold w0.
    unfold bind at 1. unfold pam_get_user at 1. unfold bind at 1.
    rewrite pop_fault_quiet by (unfold w0; world_simpl; apply Hq; discriminate).
    change (pam_user w0) with (pam_user w). rewrite Huser. cbn [fst snd default from_option]. unfold id.
    assert (Hnu : no_user PAM_SUCCESS (Some user) = false).
    { unfold no_user. destruct user; [contradiction|reflexivity]. }
    rewrite Hnu.
    unfold bind at 1. unfold sys_getpwnam at 1. unfold bind at 1.
    rewrite pop_fault_quiet by (unfold w0; world_simpl; apply Hq; discriminate).
    change (passwd w0) with (passwd w). rewrite Hpw.
    rewrite intlen_uid_ok by exact Hu.
    unfold bind at 1.
    rewrite Hrun1. change (1 =? 0) with false. cbv iota.
    fold (counter_file uid). fold (counter_path uid).
    unfold bind at 1.
    rewrite Hrun2.
    destruct (Z.of_nat (next_fd w) <? 0) eqn:Efd; [apply Z.ltb_lt in Efd; lia|].
    unfold close_session_locked.
    rewrite (bind_run _ _ _ _ _ Hrun3). reflexivity. }
  world_simpl. rewrite Hfs2, Hfs1, Hfds2, Hfds1, Hq2, Hq1, Hlog2, Hlog1, Ht2, Ht1.
  unfold w0. world_simpl. rewrite insert_insert_eq.
  repeat (split; [reflexivity|]).
  exists (replicate nr (EvRead (Z.of_nat (next_fd w))) ++ t2 ++ t1 ++ [EvGeteuid]).
  split; [rewrite <- !app_assoc; reflexivity|].
  intros p Hin. apply in_app_or in Hin as [Hin|Hin].
  { apply list_elem_of_In, elem_of_replicate in Hin as [Hin _]. discriminate Hin. }
  apply in_app_or in Hin as [Hin|Hin]; [exact (Hno2 p Hin)|].
  apply in_app_or in Hin as [Hin|Hin]; [exact (Hno1 p Hin)|].
  destruct Hin as [Hin|[]]. discriminate Hin.
Qed.

(** ** Session-end from the counter on *)

Lemma close_session_done_quiet fd r w :
  faults w PamSetData = [] ->
  close_session_done fd r w
    = (if r =? 0 then PAM_SUCCESS else PAM_SESSION_ERR,
       with_pam_data (Some None)
         (with_fds (delete fd (fds w)) (next_fd w)
            (with_trace (EvClose fd :: trace w) w))).
Proof.
  intros Hq. unfold close_session_done.
  unfold bind at 1. unfold sys_close at 1.
  unfold bind at 1. unfold pam_set_data at 1. unfold bind at 1.
  rewrite pop_fault_quiet by exact Hq. reflexivity.
Qed.

(** The counter update when every call succeeds; [count] is -1 after a
    failed removal. *)
Lemma close_session_update_quiet fd count file w p pos c u g m :
  -1 <= count <= INT_MAX ->
  faults w SysLseek = [] -> faults w SysWrite = [] -> faults w SysFtruncate = [] ->
  fds w !! fd = Some (p, pos) -> fs w !! p = Some (File c u g m) ->
  close_session_update fd count file w
    = (if count =? -1 then -1 else 0,
       if count =? -1 then
         with_log (("Error state encountered during directory removal", []) 
                   :: log w)
           (after_write fd p (counter_bytes count) c u g m w)
       else after_write fd p (counter_bytes count) c u g m w).
Proof.
  intros Hc Hls Hwr Hft Hfd Hfs. unfold close_session_update.
  rewrite (bind_run _ _ _ _ _
             (write_counter_quiet fd count w p pos c u g m ltac:(lia) Hls Hwr Hft Hfd Hfs)).
  change (0 <? 0) with false. cbv iota.
  destruct (count =? -1); reflexivity.
Qed.


(** Session-end when the decrement reaches 0, given what the removal
    returned and left. *)
Lemma close_session_removal fd uid count w2 rr w3 pos c u g m :
  count = 0 \/ count = 1 ->
  rmrf (derived_runtime_dir uid) w2 = (rr, w3) ->
  faults w3 SysLseek = [] -> faults w3 SysWrite = [] -> faults w3 SysFtruncate = [] ->
  faults w3 PamSetData = [] ->
  fds w3 !! fd = Some (counter_path uid, pos) ->
  fs w3 !! counter_path uid = Some (File c u g m) ->
  exists wf,
    close_session_counted fd (counter_file uid) (intlen (wrap32 uid)) count w2
      = (if rr <? 0 then PAM_SESSION_ERR else PAM_SUCCESS, wf)
    /\ fs wf = <[counter_path uid := File (if rr <? 0 then ["-"%char] else ["0"%char]) u g m]> (fs w3)
    /\ pam_data wf = Some None
    /\ log wf = (if rr <? 0
                 then [("Error state encountered during directory removal", []);
                       (removal_failed_fmt, [derived_runtime_dir uid])]
                 else []) ++ log w3
    /\ trace wf = EvClose fd :: EvFtruncate fd 1
                    :: EvWrite fd (if rr <? 0 then ["-"%char] else ["0"%char])
                    :: EvLseek fd :: trace w3.
Proof.
  intros Hcount Hrm Hls Hwr Hft Hps Hfd Hfs.
  unfold close_session_counted.
  assert (E1 : (count <? 0) = false) by (apply Z.ltb_ge; lia).
  rewrite E1.
  assert (E2 : ((if 0 <? count then count - 1 else count) =? 0) = true).
  { destruct Hcount as [-> | ->]; reflexivity. }
  rewrite E2.
  fold (derived_runtime_dir uid).
  unfold bind at 1. unfold bind at 1. unfold bind at 1.
  rewrite Hrm.
  destruct (rr <? 0) eqn:Er.
  - unfold bind at 1. unfold log_error at 1. cbn [ret fst snd].
    erewrite (close_session_update_quiet fd (-1)); cycle 1.
    { unfold INT_MAX. lia. }
    { exact Hls. } { exact Hwr. } { exact Hft. }
    { world_simpl. exact Hfd. } { world_simpl. exact Hfs. }
    change (-1 =? -1) with true. cbv iota.
    rewrite close_session_done_quiet by exact Hps.
    eexists. split; [reflexivity|]. unfold after_write. world_simpl.
    repeat split; reflexivity.
  - cbn [ret fst snd].
    assert (E3 : (if 0 <? count then count - 1 else count) = 0).
    { destruct Hcount as [-> | ->]; reflexivity. }
    rewrite E3.
    erewrite (close_session_update_quiet fd 0); cycle 1.
    { unfold INT_MAX. lia. }
    { exact Hls. } { exact Hwr. } { exact Hft. }
    { exact Hfd. } { exact Hfs. }
    change (0 =? -1) with false. cbv iota.
    rewrite close_session_done_quiet by exact Hps.
    eexists. split; [reflexivity|]. unfold after_write. world_simpl.
    repeat split; reflexivity.
Qed.

Lemma rmrf_absent p w :
  faults w SysUnlink = [] -> fs w !! p = None ->
  rmrf p w = (-1, with_log (("Failed to unlink %s: %m", [p]) :: log w)
                    (with_trace (EvUnlink p :: trace w) w)).
Proof.
  intros Hq Hfs. unfold rmrf.
  assert (Hstep : forall depth, rmrf_depth depth p
                   = rmrf_body (match depth with
                                | O => fun _ => ret (-1)
                                | S k => rmrf_depth k
                                end) p) by (intros []; reflexivity).
  rewrite Hstep. unfold rmrf_body.
  unfold bind at 1. unfold sys_unlink. rewrite scripted_quiet by exact Hq.
  world_simpl. rewrite Hfs.
  change (negb (ENOENT =? EISDIR)) with true. cbv iota.
  reflexivity.
Qed.

(** On a content that is all digits and fits an [int], a quiet read
    returns the decimal value. *)
Lemma parse_digits c v :
  forallb is_digit c = true -> digits_value 0 c <= INT_MAX ->
  parse_chunks (S (length c)) c 0 = Some v -> v = digits_value 0 c.
Proof.
  intros Hd Hle Hv.
  destruct (parse_chunks_spec (S (length c)) c 0) as [[_ Hp] | [(Hn & _) | (Hn & _)]];
    try congruence; try lia.
  rewrite digit_prefix_all by exact Hd. exact Hle.
Qed.

(** The state of a session-end just before the removal decision. *)
Lemma close_session_at_count w user uid gid c :
  session_end_ready w user uid gid c ->
  forallb is_digit c = true -> digits_value 0 c <= INT_MAX ->
  exists w2 pos2 cu cg cm t2,
    pam_sm_close_session w
    = close_session_counted (Z.of_nat (next_fd w)) (counter_file uid)
        (intlen (wrap32 uid)) (digits_value 0 c) w2
    /\ fds w2 !! Z.of_nat (next_fd w) = Some (counter_path uid, pos2)
    /\ fs w2 !! counter_path uid = Some (File c cu cg cm)
    /\ fs w2 !! derived_runtime_dir uid = fs w !! derived_runtime_dir uid
    /\ faults w2 = faults w /\ log w2 = log w
    /\ trace w2 = t2 ++ trace w /\ forall p, ~ In (EvUnlink p) t2.
Proof.
  intros Hready Hd Hle.
  destruct (close_session_to_count w user uid gid c Hready)
    as (v & w2 & pos2 & Hv & Hrun & Hfs & Hfds & Hq & Hlog & t2 & Ht & Hno).
  apply (parse_digits c v Hd Hle) in Hv. subst v.
  destruct Hready as [_ _ _ _ _ Hu _ (cu & cg & cm & Hc) _].
  destruct (paths_distinct uid Hu) as (Hcp & Hrp & _).
  exists w2, pos2, cu, cg, cm, t2. split; [exact Hrun|].
  rewrite Hfs, Hfds, lookup_insert_eq, !lookup_insert_ne by congruence.
  auto 10.
Qed.

(** C5, as amended.  When the path session-end hands to the removal is
    already absent as the count drops to 0 (the counter holds 0 or 1), the
    removal fails on its first [unlink]: the failure is logged, the
    sentinel is written to the counter file, the token is cleared and
    session-end returns [PAM_SESSION_ERR]. *)
Theorem close_session_directory_already_gone (w : world) user uid gid c :
  session_end_ready w user uid gid c ->
  faults w SysUnlink = [] ->
  forallb is_digit c = true -> digits_value 0 c <= 1 ->
  fs w !! derived_runtime_dir uid = None ->
  let out := pam_sm_close_session w in
  fst out = PAM_SESSION_ERR
  /\ file_content (snd out) (counter_path uid) = Some ["-"%char]
  /\ In ("Failed to unlink %s: %m", [derived_runtime_dir uid]) (log (snd out))
  /\ In (removal_failed_fmt, [derived_runtime_dir uid]) (log (snd out))
  /\ pam_data (snd out) = Some None.
Proof.
  intros Hready Hun Hd Hle Habs out.
  destruct (close_session_at_count w user uid gid c Hready Hd)
    as (w2 & pos2 & cu & cg & cm & t2 & Hrun & Hfd & Hfs & Hdir & Hq & Hlog & Ht & Hno).
  { unfold INT_MAX. lia. }
  assert (Hcount : digits_value 0 c = 0 \/ digits_value 0 c = 1).
  { pose proof (digits_value_ge c 0 Hd ltac:(lia)). lia. }
  pose proof (ser_faults _ _ _ _ _ Hready) as Hrf.
  destruct (close_session_removal (Z.of_nat (next_fd w)) uid (digits_value 0 c) w2 (-1)
              (with_log (("Failed to unlink %s: %m", [derived_runtime_dir uid]) :: log w2)
                 (with_trace (EvUnlink (derived_runtime_dir uid) :: trace w2) w2))
              pos2 c cu cg cm Hcount)
    as (wf & Hfin & Hfsf & Hpam & Hlogf & _).
  { apply rmrf_absent; [rewrite Hq; exact Hun|rewrite Hdir; exact Habs]. }
  { world_simpl. rewrite Hq. apply Hrf; discriminate. }
  { world_simpl. rewrite Hq. apply Hrf; discriminate. }
  { world_simpl. rewrite Hq. apply Hrf; discriminate. }
  { world_simpl. rewrite Hq. apply Hrf; discriminate. }
  { exact Hfd. }
  { exact Hfs. }
  subst out. rewrite Hrun, Hfin. cbn [fst snd].
  change (-1 <? 0) with true in *. cbv iota in *.
  unfold file_content. rewrite Hfsf, lookup_insert_eq, Hlogf, Hpam.
  world_simpl. cbn [app In]. auto 10.
Qed.


Lemma ending_ready f q c cu cg cm :
  (forall s, s <> SysUnlink -> s <> SysOpendir -> s <> SysRmdir -> q s = []) ->
  f !! "/run/user" = Some (Dir 0 0 493) ->
  f !! "/run/user/.1000" = Some (File c cu cg cm) ->
  session_end_ready (ending f q) "alice" 1000 1000 c.
Proof.
  intros Hq Hp Hc. split.
  - exact Hq.
  - reflexivity.
  - exists 1. reflexivity.
  - split; [reflexivity|discriminate].
  - vm_compute. reflexivity.
  - unfold INT_MAX. lia.
  - exists 0, 0, 493. exact Hp.
  - exists cu, cg, cm.
    replace (counter_path 1000) with "/run/user/.1000" by (vm_compute; reflexivity).
    exact Hc.
  - cbn [locked ending machine]. apply not_elem_of_empty.
Qed.

Lemma close_session_directory_already_gone_witness :
  let out := pam_sm_close_session (ending (counter_fs "1") quiet_faults) in
  fst out = PAM_SESSION_ERR
  /\ file_content (snd out) (counter_path 1000) = Some ["-"%char]
  /\ In ("Failed to unlink %s: %m", [derived_runtime_dir 1000]) (log (snd out))
  /\ In (removal_failed_fmt, [derived_runtime_dir 1000]) (log (snd out))
  /\ pam_data (snd out) = Some None.
Proof.
  apply (close_session_directory_already_gone
           (ending (counter_fs "1") quiet_faults) "alice" 1000 1000 ["1"%char]).
  - apply (ending_ready _ _ _ 0 0 420); [reflexivity|vm_compute; reflexivity|vm_compute; reflexivity].
  - reflexivity.
  - reflexivity.
  - vm_compute. discriminate.
  - vm_compute. reflexivity.
Defined.

(** C5 as stated fails: with the runtime directory gone (neither
    [/run/user/1000] nor the derived path exists) and the counter at 1,
    session-end returns [PAM_SESSION_ERR], not success. *)
Lemma close_session_gone_directory_is_an_error :
  let w := ending (counter_fs "1") quiet_faults in
  is_directory w "/run/user/1000" = false
  /\ fs w !! derived_runtime_dir 1000 = None
  /\ fst (pam_sm_close_session w) = PAM_SESSION_ERR
  /\ fst (pam_sm_close_session w) <> PAM_SUCCESS.
Proof. vm_compute. repeat split. discriminate. Qed.



(** ** The recursion budgets are enough *)

(** More than ten rounds change nothing for an [int]. *)
Lemma intlen_rounds_enough : forall r n l k,
  n < 10 ^ Z.of_nat (S r) ->
  intlen_loop (S r + k) n l = intlen_loop (S r) n l.
Proof.
  induction r as [|r IH]; intros n l k Hn.
  - change (10 ^ Z.of_nat 1) with 10 in Hn. simpl.
    destruct (n <? 10) eqn:E; [reflexivity|apply Z.ltb_ge in E; lia].
  - change (S (S r) + k)%nat with (S (S r + k)).
    cbn [intlen_loop]. destruct (n <? 10) eqn:E; [reflexivity|].
    apply Z.ltb_ge in E. apply IH.
    rewrite Z.quot_div_nonneg by lia.
    apply Z.div_lt_upper_bound; [lia|].
    rewrite (Nat2Z.inj_succ (S r)), Z.pow_succ_r in Hn by lia. lia.
Qed.

Lemma print_int_rounds_enough : forall r s pos n k,
  n < 10 ^ Z.of_nat (S r) ->
  print_int_loop (S r + k) s pos n = print_int_loop (S r) s pos n.
Proof.
  induction r as [|r IH]; intros s pos n k Hn.
  - change (10 ^ Z.of_nat 1) with 10 in Hn. simpl.
    destruct (n <? 10) eqn:E; [reflexivity|apply Z.ltb_ge in E; lia].
  - change (S (S r) + k)%nat with (S (S r + k)).
    cbn [print_int_loop]. destruct (n <? 10) eqn:E; [reflexivity|].
    apply Z.ltb_ge in E. apply IH.
    rewrite Z.quot_div_nonneg by lia.
    apply Z.div_lt_upper_bound; [lia|].
    rewrite (Nat2Z.inj_succ (S r)), Z.pow_succ_r in Hn by lia. lia.
Qed.

(** [intlen] and [print_int] with any larger budget, on any [int]. *)
Lemma int_rounds_enough n k :
  n <= INT_MAX ->
  intlen_loop (10 + k) n 1 = intlen n
  /\ forall s pos, print_int_loop (10 + k) s pos n = print_int_loop 10 s pos n.
Proof.
  intros Hn. split; [|intros s pos].
  - apply (intlen_rounds_enough 9). apply int_below_pow10. exact Hn.
  - apply (print_int_rounds_enough 9). apply int_below_pow10. exact Hn.
Qed.

Lemma for_each_ext {A B} (f g : A -> B -> M A) :
  (forall a b w, f a b w = g a b w) ->
  forall l a w, for_each f a l w = for_each g a l w.
Proof.
  intros H. induction l as [|b l IH]; intros a w; simpl; [reflexivity|].
  unfold bind. rewrite H. destruct (g a b w). apply IH.
Qed.

(** [rmrf_body] only calls itself on strictly longer paths that fit the
    path buffer. *)
Lemma rmrf_body_ext r1 r2 path :
  (forall p w, (String.length path < String.length p)%nat ->
               Z.of_nat (String.length p) < MAX_PATH_LEN ->
               r1 p w = r2 p w) ->
  forall w, rmrf_body r1 path w = rmrf_body r2 path w.
Proof.
  intros H w. unfold rmrf_body, bind.
  destruct (sys_unlink path w) as [[u|e] w1]; [reflexivity|].
  destruct (negb (e =? EISDIR)); [reflexivity|].
  destruct (sys_opendir path w1) as [[entries|e'] w2]; [|reflexivity].
  destruct (MAX_PATH_LEN - 1 <=? _); [reflexivity|].
  rewrite (for_each_ext (rmrf_entry r1 path (Z.of_nat (String.length path)))
                        (rmrf_entry r2 path (Z.of_nat (String.length path)))).
  { reflexivity. }
  intros a d_name w'. unfold rmrf_entry.
  destruct (_ || _); [reflexivity|].
  destruct (MAX_PATH_LEN <=? _) eqn:E; [reflexivity|]. apply Z.leb_gt in E.
  unfold bind. destruct (sys_stat _ w') as [[nd|e''] w'']; [|reflexivity].
  destruct (S_ISDIR nd); [|reflexivity].
  rewrite H; [reflexivity| |].
  - unfold snprintf. rewrite substring_all.
    + rewrite !length_append. simpl String.length. lia.
    + rewrite !length_append. simpl String.length. unfold MAX_PATH_LEN in *. lia.
  - unfold snprintf. rewrite substring_all.
    + rewrite !length_append. simpl String.length. lia.
    + rewrite !length_append. simpl String.length. unfold MAX_PATH_LEN in *. lia.
Qed.

(** The nesting bound of [rmrf] is never reached: one more level of
    budget changes nothing once the budget covers the room left in the
    path buffer. *)
Lemma rmrf_depth_enough : forall depth path w,
  (Z.to_nat MAX_PATH_LEN - 1 <= depth + String.length path)%nat ->
  rmrf_depth (S depth) path w = rmrf_depth depth path w.
Proof.
  induction depth as [|depth IH]; intros path w Hd.
  - simpl. apply rmrf_body_ext. intros p w' Hlen Hmax.
    exfalso. unfold MAX_PATH_LEN in *. lia.
  - change (rmrf_depth (S (S depth)) path w)
      with (rmrf_body (rmrf_depth (S depth)) path w).
    change (rmrf_depth (S depth) path w)
      with (rmrf_body (rmrf_depth depth) path w).
    apply rmrf_body_ext. intros p w' Hlen Hmax. apply IH. lia.
Qed.

Lemma rmrf_any_depth path w k :
  rmrf_depth (Z.to_nat MAX_PATH_LEN + k) path w = rmrf path w.
Proof.
  unfold rmrf. induction k as [|k IH]; [rewrite Nat.add_0_r; reflexivity|].
  rewrite Nat.add_succ_r, rmrf_depth_enough by lia. exact IH.
Qed.

(** ** Return codes of session-start *)

Lemma returns_ret {A} (P : A -> Prop) a : P a -> returns P (ret a).
Proof. intros H w. exact H. Qed.

Lemma returns_bind {A B} (P : B -> Prop) (m : M A) (k : A -> M B) :
  (forall a, returns P (k a)) -> returns P (bind m k).
Proof. intros H w. unfold bind. destruct (m w) as [a w1]. apply H. Qed.

Lemma returns_weaken {A} (P Q : A -> Prop) (m : M A) :
  (forall a, P a -> Q a) -> returns P m -> returns Q m.
Proof. intros HPQ H w. apply HPQ, H. Qed.

(** Whatever brought the hook to [revert_counter], it answers
    [PAM_SESSION_ERR]. *)
Lemma revert_counter_returns fd count file :
  returns (eq PAM_SESSION_ERR) (revert_counter fd count file).
Proof.
  unfold revert_counter. cbv zeta.
  apply returns_bind. intros ?. apply returns_bind. intros ?.
  apply returns_ret. reflexivity.
Qed.

Lemma restore_privs_returns fd count file :
  returns (eq PAM_SESSION_ERR) (restore_privs fd count file).
Proof.
  unfold restore_privs.
  apply returns_bind. intros ?. apply returns_bind. intros ?. apply returns_bind. intros ?.
  apply revert_counter_returns.
Qed.

(** One step through a branch that ends in a constant other than the
    excluded one. *)
Ltac returns_step :=
  first
    [ apply (returns_weaken (eq PAM_SESSION_ERR));
        [intros ? <-; discriminate | apply revert_counter_returns]
    | apply (returns_weaken (eq PAM_SESSION_ERR));
        [intros ? <-; discriminate | apply restore_privs_returns]
    | apply returns_ret; discriminate
    | apply returns_bind; intros ].

Lemma open_session_locked_returns fd file l user uid gid :
  returns not_buf_err (open_session_locked fd file l user uid gid).
Proof.
  unfold open_session_locked. cbv zeta.
  apply returns_bind. intros count.
  destruct (_ && _); [repeat returns_step|].
  apply returns_bind. intros r.
  destruct (r <? 0) eqn:Er.
  { apply returns_bind. intros ?. apply returns_ret.
    apply Z.ltb_lt in Er. unfold not_buf_err, PAM_BUF_ERR. lia. }
  apply returns_bind. intros session_data.
  destruct (negb session_data); [repeat returns_step|].
  apply returns_bind. intros r'.
  destruct (negb (r' =? PAM_SUCCESS)); [repeat returns_step|].
  apply returns_bind. intros g. apply returns_bind. intros dropped.
  destruct (negb dropped); [repeat returns_step|].
  apply returns_bind. intros m.
  match goal with |- returns _ (if ?b then _ else _) => destruct b end;
    [repeat returns_step|].
  apply returns_bind. intros r''.
  destruct (negb (r'' =? PAM_SUCCESS)); repeat returns_step.
Qed.

(** Session-start never returns [PAM_BUF_ERR], whatever the calls answer. *)
Lemma open_session_never_buf_err w : fst (pam_sm_open_session w) <> PAM_BUF_ERR.
Proof.
  revert w. change (returns not_buf_err pam_sm_open_session).
  unfold pam_sm_open_session.
  apply returns_bind. intros e.
  destruct (negb (e =? 0)); [repeat returns_step|].
  apply returns_bind. intros gu.
  destruct (no_user _ _); [repeat returns_step|].
  apply returns_bind. intros [[pw_uid pw_gid]|]; [|repeat returns_step].
  destruct (_ || _); [repeat returns_step|].
  apply returns_bind. intros ok.
  destruct (ok =? 0); [repeat returns_step|].
  apply returns_bind. intros fd.
  destruct (fd <? 0); [repeat returns_step|].
  intros w. unfold bind.
  pose proof (open_session_locked_returns fd
                (print_filename (buffer MAX_PATH_LEN) (wrap32 pw_uid) (intlen (wrap32 pw_uid)))
                (intlen (wrap32 pw_uid)) (default EmptyString (snd gu)) pw_uid pw_gid w) as H.
  destruct (open_session_locked _ _ _ _ _ _ w) as [r w1]. cbn [fst] in H.
  destruct (if 0 <=? fd then sys_close fd w1 else ret tt w1) as [u w2] eqn:E.
  destruct (0 <=? fd); rewrite E; exact H.
Qed.

(** ** The identity a successful session-start leaves *)

Lemma hoare_ret {A} (P : world -> Prop) (a : A) (Q : A -> world -> Prop) :
  (forall w, P w -> Q a w) -> hoare P (ret a) Q.
Proof. intros H w Hw. apply H, Hw. Qed.

Lemma hoare_bind {A B} (P : world -> Prop) (R : A -> world -> Prop)
    (Q : B -> world -> Prop) (m : M A) (k : A -> M B) :
  hoare P m R -> (forall a, hoare (R a) (k a) Q) -> hoare P (bind m k) Q.
Proof.
  intros Hm Hk w Hw. unfold bind. specialize (Hm w Hw).
  destruct (m w) as [a w1]. apply Hk, Hm.
Qed.

Lemma hoare_pre {A} (P P' : world -> Prop) (m : M A) Q :
  (forall w, P w -> P' w) -> hoare P' m Q -> hoare P m Q.
Proof. intros HP H w Hw. apply H, HP, Hw. Qed.

Lemma hoare_post {A} (P : world -> Prop) (m : M A) (Q Q' : A -> world -> Prop) :
  (forall a w, Q a w -> Q' a w) -> hoare P m Q -> hoare P m Q'.
Proof. intros HQ H w Hw. apply HQ, H, Hw. Qed.

Lemma hoare_any {A} (P : world -> Prop) (m : M A) : hoare P m (fun _ => anywhere).
Proof. intros w _. exact I. Qed.

(** A hook that never answers [PAM_SUCCESS] promises anything of its
    successes. *)
Lemma hoare_fails (P : world -> Prop) (m : M Z) (Q : world -> Prop) :
  returns (fun r => r <> PAM_SUCCESS) m ->
  hoare P m (fun r w => r = PAM_SUCCESS -> Q w).
Proof. intros H w _ E. destruct (H w E). Qed.

Lemma keeps_ids_scripted {A} s e (normal : option nat -> M (res A)) u g :
  (forall o, hoare (has_ids u g) (normal o) (fun _ => has_ids u g)) ->
  hoare (has_ids u g) (scripted s e normal) (fun _ => has_ids u g).
Proof.
  intros Hn w H. unfold scripted, bind, emit, pop_fault. cbn.
  destruct (faults w s) as [|[[c|n]|] q]; cbn; try exact H; apply Hn; exact H.
Qed.

Lemma keeps_ids_mkdir p mode u g :
  hoare (has_ids u g) (sys_mkdir p mode) (fun _ => has_ids u g).
Proof.
  apply keeps_ids_scripted. intros o w H.
  destruct (fs w !! p); [exact H|].
  destruct (parent_error (fs w) p); exact H.
Qed.

Lemma keeps_ids_chown p u' g' u g :
  hoare (has_ids u g) (sys_chown p u' g') (fun _ => has_ids u g).
Proof.
  apply keeps_ids_scripted. intros o w H.
  destruct (fs w !! p) as [[]|]; exact H.
Qed.

Lemma keeps_ids_chmod p mode u g :
  hoare (has_ids u g) (sys_chmod p mode) (fun _ => has_ids u g).
Proof.
  apply keeps_ids_scripted. intros o w H.
  destruct (fs w !! p) as [[]|]; exact H.
Qed.

Lemma keeps_ids_putenv s u g :
  hoare (has_ids u g) (pam_putenv s) (fun _ => has_ids u g).
Proof.
  intros w H. unfold pam_putenv, bind, pop_fault.
  destruct (faults w PamPutenv) as [|[f|] q]; exact H.
Qed.

Lemma keeps_ids_log fmt args u g :
  hoare (has_ids u g) (log_error fmt args) (fun _ => has_ids u g).
Proof. intros w H. exact H. Qed.

Lemma keeps_ids_close fd u g :
  hoare (has_ids u g) (sys_close fd) (fun _ => has_ids u g).
Proof. intros w H. exact H. Qed.

(** A [setegid] that succeeds has set the effective gid. *)
Lemma sys_setegid_sets gid :
  hoare anywhere (sys_setegid gid) (fun r w => forall x, r = Ok x -> egid w = gid).
Proof.
  intros w _. unfold sys_setegid, scripted, bind, emit, pop_fault. cbn.
  destruct (faults w SysSetegid) as [|[[c|n]|] q]; cbn;
    try (intros x; discriminate);
    destruct (_ || _); cbn; intros x Hx; first [reflexivity | discriminate].
Qed.

(** A [seteuid] that succeeds has set the effective uid, and the gid is
    what it was. *)
Lemma sys_seteuid_sets uid gid :
  hoare (fun w => egid w = gid) (sys_seteuid uid)
        (fun r w => forall x, r = Ok x -> has_ids uid gid w).
Proof.
  intros w Hg. unfold sys_seteuid, scripted, bind, emit, pop_fault. cbn.
  destruct (faults w SysSeteuid) as [|[[c|n]|] q]; cbn;
    try (intros x; discriminate);
    destruct (_ || _); cbn; intros x Hx;
    first [split; [reflexivity|exact Hg] | discriminate].
Qed.

Ltac fails_here :=
  apply hoare_fails; repeat returns_step.

(** Once the counter file is locked, a success of session-start is reached
    under the identity of the user. *)
Lemma open_session_locked_identity fd file l user uid gid :
  hoare anywhere (open_session_locked fd file l user uid gid)
        (fun r w => r = PAM_SUCCESS -> has_ids uid gid w).
Proof.
  unfold open_session_locked. cbv zeta.
  apply (hoare_bind _ (fun _ => anywhere)); [apply hoare_any|]. intros count.
  destruct (_ && _); [fails_here|].
  apply (hoare_bind _ (fun _ => anywhere)); [apply hoare_any|]. intros r.
  destruct (r <? 0) eqn:Er.
  { apply hoare_fails. apply returns_bind. intros ?. apply returns_ret.
    apply Z.ltb_lt in Er. unfold PAM_SUCCESS. lia. }
  apply (hoare_bind _ (fun _ => anywhere)); [apply hoare_any|]. intros session_data.
  destruct (negb session_data); [fails_here|].
  apply (hoare_bind _ (fun _ => anywhere)); [apply hoare_any|]. intros r'.
  destruct (negb (r' =? PAM_SUCCESS)); [fails_here|].
  apply (hoare_bind _ (fun g w => forall x, g = Ok x -> egid w = gid));
    [apply sys_setegid_sets|]. intros g.
  apply (hoare_bind _ (fun dropped w => dropped = true -> has_ids uid gid w)).
  { destruct g as [x|e].
    - apply (hoare_bind _ (fun u w => forall x, u = Ok x -> has_ids uid gid w)).
      + apply (hoare_pre _ (fun w => egid w = gid)); [|apply sys_seteuid_sets].
        intros w H. apply (H x). reflexivity.
      + intros [y|e]; apply hoare_ret; intros w H E; [apply (H y); reflexivity|discriminate].
    - apply hoare_ret. intros w _ E. discriminate. }
  intros [|]; cbn [negb]; [|fails_here].
  apply (hoare_pre _ (has_ids uid gid)); [intros w H; apply H; reflexivity|].
  apply (hoare_bind _ (fun _ => has_ids uid gid)); [apply keeps_ids_mkdir|]. intros m.
  match goal with |- hoare _ (if ?b then _ else _) _ => destruct b end; [fails_here|].
  apply (hoare_bind _ (fun _ => has_ids uid gid)); [apply keeps_ids_putenv|]. intros r''.
  destruct (negb (r'' =? PAM_SUCCESS)); [fails_here|].
  apply (hoare_bind _ (fun _ => has_ids uid gid)); [apply keeps_ids_chown|]. intros co.
  apply (hoare_bind _ (fun _ => has_ids uid gid)).
  { destruct co; [apply hoare_ret; auto|apply keeps_ids_log]. }
  intros _.
  apply (hoare_bind _ (fun _ => has_ids uid gid)); [apply keeps_ids_chmod|]. intros cm.
  apply (hoare_bind _ (fun _ => has_ids uid gid)).
  { destruct cm; [apply hoare_ret; auto|apply keeps_ids_log]. }
  intros _. apply hoare_ret. intros w H _. exact H.
Qed.

Lemma hoare_assume {A} (P : world -> Prop) (fact : Prop) (m : M A) Q :
  (forall w, P w -> fact) -> (fact -> hoare P m Q) -> hoare P m Q.
Proof. intros H1 H2 w Hw. apply (H2 (H1 w Hw)), Hw. Qed.

Lemma pam_get_user_known pu pw :
  hoare (known pu pw) pam_get_user
        (fun gu w => (fst gu = PAM_SUCCESS -> snd gu = pu) /\ passwd w = pw).
Proof.
  intros w [Hu Hp]. unfold pam_get_user, bind, pop_fault.
  destruct (faults w PamGetUser) as [|[f|] q]; cbn.
  - split; [intros _; exact Hu|exact Hp].
  - split; [|exact Hp]. destruct f as [c|n]; cbn; [|discriminate].
    destruct (c =? PAM_SUCCESS) eqn:E; [discriminate|].
    intros Hc. apply Z.eqb_neq in E. contradiction.
  - split; [intros _; exact Hu|exact Hp].
Qed.

Lemma sys_getpwnam_known user pw :
  hoare (fun w => passwd w = pw) (sys_getpwnam user)
        (fun r w => forall x, r = Some x -> pw !! user = Some x).
Proof.
  intros w Hp. unfold sys_getpwnam, bind, pop_fault.
  destruct (faults w SysGetpwnam) as [|[f|] q]; cbn;
    try (intros x; discriminate); rewrite Hp; auto.
Qed.

Lemma no_user_false r user :
  no_user r user = false -> r = PAM_SUCCESS /\ user = Some (default EmptyString user).
Proof.
  unfold no_user. intros H. apply orb_false_iff in H. destruct H as [H1 H2].
  apply negb_false_iff, Z.eqb_eq in H1. split; [exact H1|].
  destruct user as [[|a s]|]; try discriminate. reflexivity.
Qed.

(** A session-start that returns [PAM_SUCCESS] was called by root and
    returns under the uid and gid of the PAM user: no path to that return
    passes through [restore_privs]. *)
Lemma open_session_success_identity w :
  fst (pam_sm_open_session w) = PAM_SUCCESS ->
  exists user uid gid,
    pam_user w = Some user /\ passwd w !! user = Some (uid, gid)
    /\ euid w = 0
    /\ has_ids uid gid (snd (pam_sm_open_session w)).
Proof.
  assert (H : hoare (fun w0 => known (pam_user w) (passwd w) w0 /\ euid w0 = euid w)
                pam_sm_open_session
                (fun r w' => r = PAM_SUCCESS ->
                   exists user uid gid,
                     pam_user w = Some user /\ passwd w !! user = Some (uid, gid)
                     /\ euid w = 0 /\ has_ids uid gid w')).
  2: { apply H. repeat split. }
  generalize (pam_user w) (passwd w) (euid w). clear w. intros pu pw e0.
  unfold pam_sm_open_session.
  apply (hoare_bind _ (fun e w => known pu pw w /\ e = e0)).
  { intros w [Hk He]. split; [exact Hk|exact He]. }
  intros e. destruct (e =? 0) eqn:Ee; cbn [negb]; [|apply hoare_fails; repeat returns_step].
  apply Z.eqb_eq in Ee.
  apply (hoare_assume _ (e0 = 0)); [intros w [_ He]; congruence|]. intros He0.
  apply (hoare_pre _ (known pu pw)); [intros w H; apply H|].
  apply (hoare_bind _ _ _ _ _ (pam_get_user_known pu pw)). intros gu.
  destruct (no_user _ _) eqn:En; [apply hoare_fails; repeat returns_step|].
  apply no_user_false in En. destruct En as [Er Eu].
  apply (hoare_assume _ (pu = Some (default EmptyString (snd gu)))).
  { intros w [H _]. rewrite <- (H Er). exact Eu. }
  intros Hpu. cbv zeta.
  apply (hoare_bind _ (fun r w => forall x, r = Some x ->
                                  pw !! default EmptyString (snd gu) = Some x)).
  { apply (hoare_pre _ (fun w => passwd w = pw)); [intros w H; apply H|].
    apply sys_getpwnam_known. }
  intros [[pw_uid pw_gid]|]; [|apply hoare_fails; repeat returns_step].
  apply (hoare_assume _ (pw !! default EmptyString (snd gu) = Some (pw_uid, pw_gid))).
  { intros w H. apply H. reflexivity. }
  intros Hpw.
  destruct (_ || _); [apply hoare_fails; repeat returns_step|].
  apply (hoare_bind _ (fun _ => anywhere)); [apply hoare_any|]. intros ok.
  destruct (ok =? 0); [apply hoare_fails; repeat returns_step|].
  apply (hoare_bind _ (fun _ => anywhere)); [apply hoare_any|]. intros fd.
  destruct (fd <? 0); [apply hoare_fails; repeat returns_step|].
  apply (hoare_bind _ (fun r w => r = PAM_SUCCESS -> has_ids pw_uid pw_gid w));
    [apply open_session_locked_identity|]. intros r.
  apply (hoare_bind _ (fun _ w => r = PAM_SUCCESS -> has_ids pw_uid pw_gid w)).
  { intros w H. destruct (0 <=? fd); exact H. }
  intros _. apply hoare_ret. intros w H E.
  exists (default EmptyString (snd gu)), pw_uid, pw_gid.
  repeat split; try assumption; apply (H E).
Qed.

(** ** C1, C6, C9: the session hooks on concrete runs *)

(** C1.  A session-start that succeeds returns with the effective uid and
    gid of the PAM user, not with those of its caller, who was root: the
    success path jumps to [done] past the label [restore_privs].  For alice
    the trace has [seteuid (1000)] and no [seteuid (0)] after it. *)
Theorem open_session_success_leaves_identity_dropped :
  (forall w, fst (pam_sm_open_session w) = PAM_SUCCESS ->
     exists user uid gid,
       pam_user w = Some user /\ passwd w !! user = Some (uid, gid)
       /\ euid w = 0
       /\ euid (snd (pam_sm_open_session w)) = uid
       /\ egid (snd (pam_sm_open_session w)) = gid)
  /\ (let w := machine prepared_fs 0 None quiet_faults in
      let out := pam_sm_open_session w in
      euid w = 0 /\ egid w = 0
      /\ fst out = PAM_SUCCESS
      /\ euid (snd out) = 1000 /\ egid (snd out) = 1000
      /\ In (EvSeteuid 1000) (trace (snd out))
      /\ ~ In (EvSeteuid 0) (trace (snd out))).
Proof.
  split.
  - intros w H. destruct (open_session_success_identity w H)
      as (user & uid & gid & Hu & Hp & He & Hi & Hg).
    exists user, uid, gid. auto.
  - vm_compute. repeat split; auto 20.
    intros H. repeat (destruct H as [H | H]; [discriminate H|]). exact H.
Qed.

Lemma open_session_success_leaves_identity_dropped_witness :
  let w := machine prepared_fs 0 None quiet_faults in
  exists user uid gid,
    pam_user w = Some user /\ passwd w !! user = Some (uid, gid)
    /\ euid w = 0
    /\ euid (snd (pam_sm_open_session w)) = uid
    /\ egid (snd (pam_sm_open_session w)) = gid.
Proof.
  intros w.
  apply (proj1 open_session_success_leaves_identity_dropped w).
  vm_compute. reflexivity.
Defined.

(** C6.  Session-start never returns [PAM_BUF_ERR].  When [malloc] fails
    it logs the failure, puts the counter back to its old value and returns
    [PAM_SESSION_ERR]: the [PAM_BUF_ERR] it stored in [r] is overwritten at
    the label [revert_counter]. *)
Theorem open_session_malloc_failure_is_session_err :
  (forall w, fst (pam_sm_open_session w) <> PAM_BUF_ERR)
  /\ (let w := machine base_fs 0 None out_of_memory in
      let out := pam_sm_open_session w in
      fst out = PAM_SESSION_ERR
      /\ In ("Memory allocation failed", []) (log (snd out))
      /\ In (EvWrite 3 ["1"%char]) (trace (snd out))
      /\ file_content (snd out) "/run/user/.1000" = Some ["0"%char]).
Proof.
  split; [exact open_session_never_buf_err|].
  vm_compute. repeat split; auto 20.
Qed.

(** C9.  One session-start followed by one session-end in the same
    process, for alice with no counter file: the start succeeds, yet the
    directory [/run/user/1000] never exists (the path derived by the
    [memmove] is [/run/user.10000], which is what gets published), and the
    end, running under the identity the start left behind, is refused: the
    counter stays at 1 and nothing is removed. *)
Theorem start_then_end_does_not_balance :
  let w := machine prepared_fs 0 None quiet_faults in
  let started := pam_sm_open_session w in
  let ended := pam_sm_close_session (snd started) in
  file_content w "/run/user/.1000" = None
  /\ fst started = PAM_SUCCESS
  /\ is_directory (snd started) "/run/user/1000" = false
  /\ pam_env (snd started) = ["XDG_RUNTIME_DIR=/run/user.10000"]
  /\ file_content (snd started) "/run/user/.1000" = Some ["1"%char]
  /\ fst ended = PAM_SESSION_ERR
  /\ file_content (snd ended) "/run/user/.1000" = Some ["1"%char]
  /\ is_directory (snd ended) "/run/user.10000" = true.
Proof.
  vm_compute. repeat split.
Qed.

(** * Further properties *)

(** ** Integer formatting and the counter path *)

(** X1.  For an [int] [n >= 0], [intlen n] is between 1 and 10 and
    [print_int] writes exactly that many bytes at the offset it is given,
    leaving the rest of the array alone; the bytes are the digits of [n]
    without a leading zero, and the digit loop of [read_counter] reads them
    back as [n]. *)
Theorem print_int_round_trip (n : Z) (s : list ascii) (off : nat) :
  0 <= n <= INT_MAX ->
  (off + Z.to_nat (intlen n) <= length s)%nat ->
  let l := intlen n in
  let s' := print_int s off n l in
  1 <= l <= MAX_UID_LENGTH
  /\ length s' = length s
  /\ take off s' = take off s
  /\ drop (off + Z.to_nat l) s' = drop (off + Z.to_nat l) s
  /\ scan_digits (take (Z.to_nat l) (drop off s')) 0 = Some n
  /\ (0 < n -> hd NUL (drop off s') <> "0"%char).
Proof.
  intros Hn Hlen l s'.
  pose proof (intlen_decimal n Hn) as Hl.
  pose proof (decimal_length n) as Hd.
  destruct (decimal_is_decimal_of n Hn) as (Hne & Hdig & Hval & Hz).
  assert (Hl' : Z.to_nat l = length (decimal n)) by (unfold l; lia).
  assert (Hs' : s' = take off s ++ decimal n ++ drop (off + Z.to_nat l) s).
  { unfold s', print_int. rewrite print_int_loop_spec.
    - fold (decimal n). rewrite Hl'. f_equal. f_equal. lia.
    - fold (decimal n). fold l. rewrite Hl' in *. lia. }
  assert (Hto : length (take off s) = off) by (rewrite length_take; fold l in Hlen; lia).
  repeat split.
  - unfold l. lia.
  - unfold l, MAX_UID_LENGTH. lia.
  - rewrite Hs', !length_app, Hto, length_drop. fold l in Hlen. lia.
  - rewrite Hs'. rewrite take_app_length'; [reflexivity|symmetry; exact Hto].
  - rewrite Hs' at 1. rewrite app_assoc. rewrite drop_app_length'; [reflexivity|].
    rewrite length_app, Hto. lia.
  - rewrite Hs'. rewrite drop_app_length' by (symmetry; exact Hto).
    rewrite take_app_length' by exact Hl'.
    rewrite scan_digits_value; [rewrite Hval; reflexivity|exact Hdig|lia|lia].
  - intros Hpos. rewrite Hs'. rewrite drop_app_length' by (symmetry; exact Hto).
    destruct (decimal n) as [|a r] eqn:E; [contradiction|]. cbn [hd app].
    intros Ha. cbn [hd] in Hz. injection (Hz Ha) as Ea Er.
    rewrite Ea, Er in Hval. vm_compute in Hval. lia.
Qed.

Lemma print_int_round_trip_witness :
  let s' := print_int (buffer 8) 2 1000 (intlen 1000) in
  scan_digits (take 4 (drop 2 s')) 0 = Some 1000.
Proof.
  pose proof (print_int_round_trip 1000 (buffer 8) 2
                ltac:(unfold INT_MAX; lia) ltac:(vm_compute; lia)) as H.
  cbv zeta in H. destruct H as (_ & _ & _ & _ & H & _).
  exact H.
Defined.

Lemma list_of_string_of (c : list ascii) :
  list_ascii_of_string (string_of_list_ascii c) = c.
Proof. induction c as [|a c IH]; [reflexivity|]. simpl. rewrite IH. reflexivity. Qed.

Lemma uid_text_scan uid :
  0 <= uid <= INT_MAX ->
  scan_digits (list_ascii_of_string (uid_text uid)) 0 = Some uid.
Proof.
  intros H. unfold uid_text. rewrite list_of_string_of.
  destruct (decimal_is_decimal_of uid H) as (_ & Hdig & Hval & _).
  rewrite scan_digits_value; [rewrite Hval; reflexivity|exact Hdig|lia|lia].
Qed.

Lemma uid_text_inj a b :
  0 <= a <= INT_MAX -> 0 <= b <= INT_MAX -> uid_text a = uid_text b -> a = b.
Proof.
  intros Ha Hb E.
  pose proof (uid_text_scan a Ha) as Sa. pose proof (uid_text_scan b Hb) as Sb.
  rewrite E in Sa. congruence.
Qed.

(** X2.  For a uid that fits an [int], the name [print_filename] builds in
    a fresh [MAX_PATH_LEN] array is [PARENT_DIR], "/.", and the decimal
    digits of the uid; the digits read back as the uid, so two uids never
    share a counter file. *)
Theorem print_filename_names_the_uid (uid : Z) :
  0 <= uid <= INT_MAX ->
  let name u := cstring (print_filename (buffer MAX_PATH_LEN) u (intlen u)) in
  name uid = PARENT_DIR +:+ "/." +:+ uid_text uid
  /\ scan_digits (list_ascii_of_string (uid_text uid)) 0 = Some uid
  /\ forall uid', 0 <= uid' <= INT_MAX -> name uid' = name uid -> uid' = uid.
Proof.
  intros H name.
  assert (Hname : forall u, 0 <= u <= INT_MAX ->
                    name u = PARENT_DIR +:+ "/." +:+ uid_text u).
  { intros u Hu. pose proof (counter_path_eq u Hu) as E.
    unfold counter_path, counter_file in E.
    rewrite wrap32_id in E by (unfold INT_MAX in *; lia). exact E. }
  split; [apply Hname, H|]. split; [apply uid_text_scan, H|].
  intros uid' H' E. rewrite !Hname in E by assumption.
  apply String.app_inj in E. apply String.app_inj in E.
  apply uid_text_inj; assumption.
Qed.

Lemma print_filename_names_the_uid_witness :
  cstring (print_filename (buffer MAX_PATH_LEN) 1000 (intlen 1000))
  = PARENT_DIR +:+ "/." +:+ uid_text 1000.
Proof.
  apply (print_filename_names_the_uid 1000). unfold INT_MAX. lia.
Defined.


Lemma string_of_list_inj (a b : list ascii) :
  string_of_list_ascii a = string_of_list_ascii b -> a = b.
Proof.
  intros E. rewrite <- (list_of_string_of a), <- (list_of_string_of b), E. reflexivity.
Qed.

(** X3.  The runtime-directory name both hooks derive from the counter
    name, by the [memmove] over the byte after [PARENT_DIR], is
    [PARENT_DIR], a dot, the digits of the uid and the last digit once
    more: the move starts at the slash, not at the dot.  The name is not
    below [PARENT_DIR], it is not [PARENT_DIR/uid], and it is still
    different for different uids. *)
Theorem derived_runtime_dir_shape (uid : Z) :
  0 <= uid <= INT_MAX ->
  derived_runtime_dir uid
    = PARENT_DIR +:+ "." +:+ uid_text uid +:+ String (List.last (decimal uid) NUL) ""
  /\ String.prefix (PARENT_DIR +:+ "/") (derived_runtime_dir uid) = false
  /\ derived_runtime_dir uid <> PARENT_DIR +:+ "/" +:+ uid_text uid
  /\ forall uid', 0 <= uid' <= INT_MAX ->
       derived_runtime_dir uid' = derived_runtime_dir uid -> uid' = uid.
Proof.
  intros H.
  assert (Hshape : forall u, 0 <= u <= INT_MAX ->
            derived_runtime_dir u
            = PARENT_DIR +:+ "." +:+ uid_text u +:+ String (List.last (decimal u) NUL) "").
  { intros u Hu. rewrite (derived_runtime_dir_eq u Hu). reflexivity. }
  split; [apply Hshape, H|].
  split; [rewrite (Hshape uid H); reflexivity|].
  split; [rewrite (Hshape uid H); discriminate|].
  intros uid' H' E. rewrite (Hshape uid H), (Hshape uid' H') in E.
  apply String.app_inj in E. apply String.app_inj in E.
  unfold uid_text in E.
  change (String ?a "") with (string_of_list_ascii [a]) in E.
  rewrite <- !string_of_app in E. apply string_of_list_inj in E.
  apply app_inj_tail in E. destruct E as [E _].
  apply uid_text_inj; [assumption..|]. unfold uid_text. rewrite E. reflexivity.
Qed.

Lemma derived_runtime_dir_shape_witness :
  derived_runtime_dir 1000 = "/run/user.10000".
Proof.
  pose proof (derived_runtime_dir_shape 1000 ltac:(unfold INT_MAX; lia)) as [H _].
  rewrite H. reflexivity.
Defined.

(** ** What the calls leave alone *)

Lemma keeps_ret {A} (a : A) : keeps_ambient (ret a).
Proof. intros w. reflexivity. Qed.

Lemma keeps_bind {A B} (m : M A) (k : A -> M B) :
  keeps_ambient m -> (forall a, keeps_ambient (k a)) -> keeps_ambient (bind m k).
Proof.
  intros Hm Hk w. unfold bind. specialize (Hm w).
  destruct (m w) as [a w1]. rewrite <- Hm. apply Hk.
Qed.

Lemma keeps_log fmt args : keeps_ambient (log_error fmt args).
Proof. intros w. reflexivity. Qed.

Lemma keeps_scripted {A} s e (normal : option nat -> M (res A)) :
  (forall o, keeps_ambient (normal o)) -> keeps_ambient (scripted s e normal).
Proof.
  intros Hn w. unfold scripted, bind, emit, pop_fault. cbn.
  destruct (faults w s) as [|[[c|n]|] q]; cbn; try reflexivity;
    (etrans; [apply Hn|reflexivity]).
Qed.

Lemma keeps_pop {A} s (k : option fault -> M A) :
  (forall f, keeps_ambient (k f)) -> keeps_ambient (bind (pop_fault s) k).
Proof.
  intros Hk w. unfold bind, pop_fault.
  destruct (faults w s) as [|f q]; (etrans; [apply Hk|reflexivity]).
Qed.

Lemma keeps_mkdir p mode : keeps_ambient (sys_mkdir p mode).
Proof.
  apply keeps_scripted. intros o w.
  destruct (fs w !! p); [reflexivity|].
  destruct (parent_error (fs w) p); reflexivity.
Qed.

Lemma keeps_stat p : keeps_ambient (sys_stat p).
Proof. apply keeps_scripted. intros o w. destruct (fs w !! p); reflexivity. Qed.

Lemma keeps_chown p u g : keeps_ambient (sys_chown p u g).
Proof. apply keeps_scripted. intros o w. destruct (fs w !! p) as [[]|]; reflexivity. Qed.

Lemma keeps_chmod p mode : keeps_ambient (sys_chmod p mode).
Proof. apply keeps_scripted. intros o w. destruct (fs w !! p) as [[]|]; reflexivity. Qed.

Lemma keeps_open p mode : keeps_ambient (sys_open p mode).
Proof.
  apply keeps_scripted. intros o w.
  destruct (fs w !! p) as [[]|]; try reflexivity.
  destruct (parent_error (fs w) p); reflexivity.
Qed.

Lemma keeps_flock fd : keeps_ambient (sys_flock fd).
Proof.
  apply keeps_scripted. intros o w.
  destruct (fds w !! fd) as [[p n]|]; [|reflexivity].
  destruct (decide (p ∈ locked w)); reflexivity.
Qed.

Lemma keeps_usleep n : keeps_ambient (sys_usleep n).
Proof. intros w. reflexivity. Qed.

Lemma keeps_close fd : keeps_ambient (sys_close fd).
Proof. intros w. reflexivity. Qed.

Lemma keeps_read fd n : keeps_ambient (sys_read fd n).
Proof.
  apply keeps_scripted. intros o w. unfold fd_file.
  destruct (fds w !! fd) as [[p pos]|]; [|reflexivity].
  destruct (fs w !! p) as [[]|]; reflexivity.
Qed.

Lemma keeps_lseek0 fd : keeps_ambient (sys_lseek0 fd).
Proof.
  apply keeps_scripted. intros o w.
  destruct (fds w !! fd) as [[p pos]|]; reflexivity.
Qed.

Lemma keeps_write fd buf : keeps_ambient (sys_write fd buf).
Proof.
  apply keeps_scripted. intros o w. unfold fd_file.
  destruct (fds w !! fd) as [[p pos]|]; [|reflexivity].
  destruct (fs w !! p) as [[]|]; reflexivity.
Qed.

Lemma keeps_ftruncate fd len : keeps_ambient (sys_ftruncate fd len).
Proof.
  apply keeps_scripted. intros o w. unfold fd_file.
  destruct (fds w !! fd) as [[p pos]|]; [|reflexivity].
  destruct (fs w !! p) as [[]|]; reflexivity.
Qed.

Lemma keeps_unlink p : keeps_ambient (sys_unlink p).
Proof. apply keeps_scripted. intros o w. destruct (fs w !! p) as [[]|]; reflexivity. Qed.

Lemma keeps_opendir p : keeps_ambient (sys_opendir p).
Proof. apply keeps_scripted. intros o w. destruct (fs w !! p) as [[]|]; reflexivity. Qed.

Lemma keeps_rmdir p : keeps_ambient (sys_rmdir p).
Proof.
  apply keeps_scripted. intros o w. destruct (fs w !! p) as [[]|]; try reflexivity.
  destruct (children (fs w) p); reflexivity.
Qed.

Lemma keeps_geteuid : keeps_ambient sys_geteuid.
Proof. intros w. reflexivity. Qed.

Lemma keeps_getpwnam user : keeps_ambient (sys_getpwnam user).
Proof. apply keeps_pop. intros [f|]; intros w; reflexivity. Qed.

Lemma keeps_get_data : keeps_ambient pam_get_data.
Proof.
  apply keeps_pop. intros [f|]; intros w; [reflexivity|].
  destruct (pam_data w); reflexivity.
Qed.

Lemma keeps_get_user : keeps_ambient pam_get_user.
Proof. apply keeps_pop. intros [f|]; intros w; reflexivity. Qed.

(** One step of a proof that a piece of code keeps the credentials. *)
Ltac keeps_step :=
  first
    [ apply keeps_ret | apply keeps_log | apply keeps_mkdir | apply keeps_stat
    | apply keeps_chown | apply keeps_chmod | apply keeps_open | apply keeps_flock
    | apply keeps_usleep | apply keeps_close | apply keeps_read | apply keeps_lseek0
    | apply keeps_write | apply keeps_ftruncate | apply keeps_unlink
    | apply keeps_opendir | apply keeps_rmdir | apply keeps_geteuid
    | apply keeps_getpwnam | apply keeps_get_data
    | apply keeps_get_user
    | assumption
    | apply keeps_bind; [|intros ?]
    | match goal with
      | |- keeps_ambient (match ?x with _ => _ end) => destruct x
      end ].

Lemma keeps_run {A} (m : M A) w :
  keeps_ambient m -> exists a w', m w = (a, w') /\ ambient w' = ambient w.
Proof.
  intros H. specialize (H w). destruct (m w) as [a w']. exists a, w'. auto.
Qed.

Lemma ensure_parent_dir_ambient (w : world) :
  0 <= umask_ w <= 511 -> ambient (snd (ensure_parent_dir w)) = ambient w.
Proof.
  intros Hu.
  assert (Hland : Z.land (umask_ w) 511 = umask_ w).
  { change 511 with (Z.ones 9). rewrite Z.land_ones by lia.
    apply Z.mod_small. change (2 ^ 9) with 512. lia. }
  unfold ensure_parent_dir.
  rewrite (bind_run _ _ w (umask_ w)
             (with_umask (Z.land S_IWOTH 511) (with_trace (EvUmask S_IWOTH :: trace w) w)))
    by reflexivity.
  match goal with
  | |- context [bind ?m (fun r => bind (sys_umask _) _)] =>
      assert (Hin : keeps_ambient m) by repeat keeps_step;
      destruct (keeps_run m (with_umask (Z.land S_IWOTH 511)
                               (with_trace (EvUmask S_IWOTH :: trace w) w)) Hin)
        as (r & w2 & E & Hc)
  end.
  rewrite (bind_run _ _ _ _ _ E).
  unfold bind, sys_umask, ret. cbn [fst snd].
  unfold ambient in *. cbn in Hc. cbn. rewrite Hland.
  congruence.
Qed.

Lemma keeps_open_retry file : forall n, keeps_ambient (open_retry n file).
Proof. induction n as [|n IH]; simpl; repeat keeps_step. Qed.

Lemma keeps_lock_retry fd file : forall n, keeps_ambient (lock_retry n fd file).
Proof. induction n as [|n IH]; simpl; repeat keeps_step. Qed.

Lemma keeps_open_and_lock file : keeps_ambient (open_and_lock file).
Proof.
  unfold open_and_lock.
  pose proof (keeps_open_retry file LOCK_RETRIES).
  pose proof (fun fd => keeps_lock_retry fd file LOCK_RETRIES).
  repeat keeps_step.
Qed.

Lemma keeps_read_counter_loop fd : forall budget count,
  keeps_ambient (read_counter_loop budget fd count).
Proof.
  induction budget as [|k IH]; intros count; simpl; [apply keeps_ret|].
  apply keeps_bind; [apply keeps_read|]. intros [buf|e].
  - destruct buf as [|a buf]; [apply keeps_ret|].
    destruct (_ && _); [apply keeps_ret|].
    destruct (scan_digits _ _); [apply IH|apply keeps_ret].
  - destruct (e =? EINTR); [apply IH|apply keeps_ret].
Qed.

Lemma keeps_read_counter fd : keeps_ambient (read_counter fd).
Proof.
  intros w. unfold read_counter.
  pose proof (keeps_read_counter_loop fd (S (read_measure fd w)) 0 w) as H.
  destruct (read_counter_loop _ _ _ w) as [r w']. exact H.
Qed.

Lemma keeps_retry_eintr {A} (call : M (res A)) :
  keeps_ambient call -> forall budget, keeps_ambient (retry_eintr budget call).
Proof.
  intros Hc. induction budget as [|k IH]; simpl; [apply keeps_ret|].
  apply keeps_bind; [exact Hc|]. intros [a|e]; [apply keeps_ret|].
  destruct (e =? EINTR); [apply IH|apply keeps_ret].
Qed.

Lemma keeps_do_while_eintr {A} s (call : M (res A)) :
  keeps_ambient call -> keeps_ambient (do_while_eintr s call).
Proof.
  intros Hc w. unfold do_while_eintr.
  pose proof (keeps_retry_eintr call Hc (S (length (faults w s))) w) as H.
  destruct (retry_eintr _ _ w) as [r w']. exact H.
Qed.

Lemma keeps_emergency fd : keeps_ambient (emergency_invalidate_counter fd).
Proof.
  unfold emergency_invalidate_counter.
  pose proof (keeps_do_while_eintr SysWrite _ (keeps_write fd ["-"%char])).
  pose proof (keeps_do_while_eintr SysFtruncate _ (keeps_ftruncate fd 1)).
  repeat keeps_step.
Qed.

Lemma keeps_write_loop fd buf l : forall budget, keeps_ambient (write_loop budget fd buf l).
Proof.
  induction budget as [|k IH]; simpl; [apply keeps_ret|].
  pose proof (keeps_emergency fd).
  repeat keeps_step.
Qed.

Lemma keeps_write_counter fd count : keeps_ambient (write_counter fd count).
Proof.
  unfold write_counter. cbv zeta.
  apply keeps_bind; [apply keeps_lseek0|]. intros [z|e]; [|apply keeps_ret].
  apply keeps_bind.
  - intros w.
    match goal with
    | |- context [write_loop ?b ?f ?bf ?l w] =>
        pose proof (keeps_write_loop f bf l b w) as H;
        destruct (write_loop b f bf l w) as [x w']
    end.
    exact H.
  - intros x.
    pose proof (keeps_emergency fd).
    assert (keeps_ambient (do_while_eintr SysFtruncate
              (sys_ftruncate fd (if 0 <=? count then intlen count else 1))))
      by (apply keeps_do_while_eintr, keeps_ftruncate).
    repeat keeps_step.
Qed.

Lemma keeps_for_each {A B} (f : A -> B -> M A) :
  (forall a b, keeps_ambient (f a b)) -> forall l a, keeps_ambient (for_each f a l).
Proof.
  intros Hf. induction l as [|b l IH]; intros a; simpl; [apply keeps_ret|].
  apply keeps_bind; [apply Hf|]. intros a'. apply IH.
Qed.

Lemma keeps_rmrf_body recurse path :
  (forall p, keeps_ambient (recurse p)) -> keeps_ambient (rmrf_body recurse path).
Proof.
  intros Hr. unfold rmrf_body.
  apply keeps_bind; [apply keeps_unlink|]. intros [u|e]; [apply keeps_ret|].
  destruct (negb _); [repeat keeps_step|].
  apply keeps_bind; [apply keeps_opendir|]. intros [entries|e']; [|repeat keeps_step].
  destruct (_ <=? _); [repeat keeps_step|].
  apply keeps_bind; [|intros; repeat keeps_step].
  apply keeps_for_each. intros r d_name. unfold rmrf_entry. cbv zeta.
  destruct (_ || _); [apply keeps_ret|].
  destruct (_ <=? _); [repeat keeps_step|].
  apply keeps_bind; [apply keeps_stat|]. intros [nd|e']; [|repeat keeps_step].
  destruct (S_ISDIR nd); [|repeat keeps_step].
  apply keeps_bind; [apply Hr|]. intros rr. destruct (negb _); apply keeps_ret.
Qed.

Lemma keeps_rmrf_depth : forall depth path, keeps_ambient (rmrf_depth depth path).
Proof.
  induction depth as [|k IH]; intros path; simpl; apply keeps_rmrf_body.
  - intros p. apply keeps_ret.
  - exact IH.
Qed.

Lemma keeps_rmrf path : keeps_ambient (rmrf path).
Proof. apply keeps_rmrf_depth. Qed.


Lemma ambient_fields w w' :
  ambient w' = ambient w ->
  euid w' = euid w /\ egid w' = egid w /\ ruid w' = ruid w /\ rgid w' = rgid w
  /\ umask_ w' = umask_ w /\ passwd w' = passwd w /\ pam_user w' = pam_user w
  /\ pam_data w' = pam_data w /\ pam_env w' = pam_env w /\ locked w' = locked w.
Proof.
  unfold ambient. intros H. injection H as -> -> -> -> -> -> -> -> -> ->.
  repeat split; reflexivity.
Qed.

(** ** Credentials and the umask *)

Lemma ambient_creds w w' : ambient w' = ambient w -> creds w' = creds w.
Proof. unfold ambient, creds. intros H. injection H as -> -> -> -> -> _. reflexivity. Qed.

Lemma keeps_creds_of_ambient {A} (m : M A) : keeps_ambient m -> keeps_creds m.
Proof. intros H w. apply ambient_creds, H. Qed.

Lemma keeps_creds_bind {A B} (m : M A) (k : A -> M B) :
  keeps_creds m -> (forall a, keeps_creds (k a)) -> keeps_creds (bind m k).
Proof.
  intros Hm Hk w. unfold bind. specialize (Hm w).
  destruct (m w) as [a w1]. rewrite <- Hm. apply Hk.
Qed.

Lemma keeps_creds_set_data d : keeps_creds (pam_set_data d).
Proof.
  intros w. unfold pam_set_data, bind, pop_fault.
  destruct (faults w PamSetData) as [|[f|] q]; reflexivity.
Qed.

(** X4.  [ensure_parent_dir] returns with the umask it was called with,
    on the failure paths as on the success path, whatever the calls in
    between answer; the ids of the process are not touched either. *)
Theorem ensure_parent_dir_restores_umask (w : world) :
  0 <= umask_ w <= 511 ->
  umask_ (snd (ensure_parent_dir w)) = umask_ w
  /\ creds (snd (ensure_parent_dir w)) = creds w.
Proof.
  intros Hu. pose proof (ambient_creds _ _ (ensure_parent_dir_ambient w Hu)) as H.
  split; [|exact H]. unfold creds in H. congruence.
Qed.

Lemma ensure_parent_dir_restores_umask_witness :
  umask_ (snd (ensure_parent_dir (machine blocked_fs 0 None quiet_faults))) = 18.
Proof.
  apply (ensure_parent_dir_restores_umask (machine blocked_fs 0 None quiet_faults)).
  vm_compute. split; discriminate.
Defined.

Lemma keeps_creds_close_session_locked fd file l :
  keeps_creds (close_session_locked fd file l).
Proof.
  unfold close_session_locked, close_session_counted, close_session_update,
    close_session_done. cbv zeta.
  apply keeps_creds_bind; [apply keeps_creds_of_ambient, keeps_read_counter|].
  intros count. apply keeps_creds_bind.
  - apply keeps_creds_of_ambient.
    pose proof keeps_rmrf. pose proof keeps_write_counter.
    repeat (first [apply keeps_rmrf | apply keeps_write_counter | keeps_step]).
  - intros r. apply keeps_creds_bind; [apply keeps_creds_of_ambient, keeps_close|].
    intros _. apply keeps_creds_bind; [apply keeps_creds_set_data|].
    intros _. apply keeps_creds_of_ambient, keeps_ret.
Qed.

Lemma keeps_hoare {A} c (m : M A) :
  keeps_creds m -> hoare (fun w => creds w = c) m (fun _ w => creds w = c).
Proof. intros H w Hw. rewrite H. exact Hw. Qed.

Lemma ensure_parent_dir_creds (w : world) :
  0 <= umask_ w <= 511 -> creds (snd (ensure_parent_dir w)) = creds w.
Proof. intros H. apply ambient_creds, ensure_parent_dir_ambient, H. Qed.

Lemma close_session_creds (w : world) :
  0 <= umask_ w <= 511 -> creds (snd (pam_sm_close_session w)) = creds w.
Proof.
  intros Hu. set (c := creds w).
  assert (H : hoare (fun w0 => creds w0 = c) pam_sm_close_session
                (fun _ w' => creds w' = c)); [|apply H; reflexivity].
  assert (Hc : 0 <= snd c <= 511) by exact Hu. clearbody c. clear w Hu.
  assert (Hk : forall A (m : M A), keeps_ambient m ->
                 hoare (fun w => creds w = c) m (fun _ w => creds w = c)).
  { intros A m Hm. apply keeps_hoare, keeps_creds_of_ambient, Hm. }
  unfold pam_sm_close_session. cbv zeta.
  apply (hoare_bind _ (fun _ w => creds w = c)); [apply Hk, keeps_get_data|].
  intros gd. destruct (_ && _); [apply Hk; repeat keeps_step|].
  destruct (_ || _); [apply Hk; repeat keeps_step|].
  apply (hoare_bind _ (fun _ w => creds w = c)); [apply Hk, keeps_geteuid|].
  intros e. destruct (negb _); [apply Hk; repeat keeps_step|].
  apply (hoare_bind _ (fun _ w => creds w = c)); [apply Hk, keeps_get_user|].
  intros gu. destruct (no_user _ _); [apply Hk; repeat keeps_step|].
  apply (hoare_bind _ (fun _ w => creds w = c)); [apply Hk, keeps_getpwnam|].
  intros [[pw_uid pw_gid]|]; [|apply Hk; repeat keeps_step].
  destruct (_ || _); [apply Hk; repeat keeps_step|].
  apply (hoare_bind _ (fun _ w => creds w = c)).
  { intros w Hw. rewrite ensure_parent_dir_creds; [exact Hw|].
    unfold creds in Hw. rewrite <- Hw in Hc. exact Hc. }
  intros ok.
  destruct (ok =? 0); [apply Hk; repeat keeps_step|].
  apply (hoare_bind _ (fun _ w => creds w = c)); [apply Hk, keeps_open_and_lock|].
  intros fd.
  destruct (fd <? 0); [apply Hk; repeat keeps_step|].
  apply keeps_hoare, keeps_creds_close_session_locked.
Qed.

(** X5.  Nothing but session-start switches the identity of the process:
    [open_and_lock], [read_counter], [write_counter] and [rmrf] return with
    the ids and the umask they were called with, whatever the calls they
    make answer, and so does session-end on every path. *)
Theorem only_session_start_switches_identity :
  (forall file, keeps_creds (open_and_lock file))
  /\ (forall fd, keeps_creds (read_counter fd))
  /\ (forall fd count, keeps_creds (write_counter fd count))
  /\ (forall path, keeps_creds (rmrf path))
  /\ (forall w, 0 <= umask_ w <= 511 ->
        creds (snd (pam_sm_close_session w)) = creds w).
Proof.
  repeat split; try apply close_session_creds;
    intros; apply keeps_creds_of_ambient;
    auto using keeps_open_and_lock, keeps_read_counter, keeps_write_counter, keeps_rmrf.
Qed.

Lemma only_session_start_switches_identity_witness :
  let w := ending (occupied_fs "1") child_unlink_denied in
  creds (snd (pam_sm_close_session w)) = (0, 0, 0, 0, 18).
Proof.
  intros w.
  destruct only_session_start_switches_identity as (_ & _ & _ & _ & H).
  rewrite (H w); [reflexivity|]. vm_compute. split; discriminate.
Defined.

(** ** Return codes of the hooks *)

Lemma returns_bind_with {A B} (R : A -> Prop) (P : B -> Prop) (m : M A) (k : A -> M B) :
  returns R m -> (forall a, R a -> returns P (k a)) -> returns P (bind m k).
Proof.
  intros Hm Hk w. unfold bind. specialize (Hm w).
  destruct (m w) as [a w1]. apply Hk, Hm.
Qed.

Lemma write_loop_returns fd buf l : forall budget,
  returns (fun x => forall r, x = Some (Return r) -> r = -1) (write_loop budget fd buf l).
Proof.
  induction budget as [|k IH]; simpl.
  - apply returns_ret. discriminate.
  - apply returns_bind. intros [n|e].
    + destruct (_ =? _); [apply returns_ret; discriminate|apply IH].
    + destruct (e =? EINTR); [apply IH|].
      apply returns_bind. intros _. apply returns_ret. intros r [= <-]. reflexivity.
Qed.

(** [write_counter] answers 0 or -1. *)
Lemma write_counter_returns fd count :
  returns (fun r => r = 0 \/ r = -1) (write_counter fd count).
Proof.
  unfold write_counter. cbv zeta.
  apply returns_bind. intros [z|e]; [|apply returns_ret; auto].
  apply (returns_bind_with (fun x => forall r, x = Return r -> r = -1)).
  - intros w.
    match goal with
    | |- context [write_loop ?b ?f ?bf ?l w] =>
        pose proof (write_loop_returns f bf l b w) as H;
        destruct (write_loop b f bf l w) as [x w']
    end.
    cbn [fst] in *. destruct x as [x|]; [|intros r [= <-]; reflexivity].
    intros r ->. apply H. reflexivity.
  - intros x Hx. destruct x as [fd'|r|].
    + apply returns_bind. intros [u|e]; [apply returns_ret; auto|].
      apply returns_bind. intros _. apply returns_ret. auto.
    + apply returns_ret. right. apply Hx. reflexivity.
    + apply returns_bind. intros [u|e]; [apply returns_ret; auto|].
      apply returns_bind. intros _. apply returns_ret. auto.
Qed.

(** The length check on the uid never fires: [intlen] of an [int] is
    between 1 and [MAX_UID_LENGTH]. *)
Lemma intlen_int_ok z :
  (intlen (wrap32 z) <=? 0) || (MAX_UID_LENGTH <? intlen (wrap32 z)) = false.
Proof.
  assert (Hr : -2147483648 <= wrap32 z <= INT_MAX).
  { unfold wrap32, INT_MAX.
    pose proof (Z.mod_pos_bound (z + 2147483648) 4294967296 ltac:(lia)). lia. }
  destruct (Z_lt_le_dec (wrap32 z) 0) as [Hneg|Hpos].
  - unfold intlen. simpl. destruct (wrap32 z <? 10) eqn:E; [reflexivity|].
    apply Z.ltb_ge in E. lia.
  - generalize dependent (wrap32 z). intros n Hr Hpos.
    rewrite intlen_decimal by lia.
    pose proof (decimal_length n). unfold MAX_UID_LENGTH.
    apply orb_false_iff. split; [apply Z.leb_gt|apply Z.ltb_ge]; lia.
Qed.

Ltac code_step :=
  first
    [ apply (returns_weaken (eq PAM_SESSION_ERR));
        [intros ? <-; unfold start_code; auto | apply revert_counter_returns]
    | apply (returns_weaken (eq PAM_SESSION_ERR));
        [intros ? <-; unfold start_code; auto | apply restore_privs_returns]
    | apply returns_ret; unfold start_code, end_code; auto; fail
    | apply returns_bind; intros ].

Lemma open_session_locked_codes fd file l user uid gid :
  returns start_code (open_session_locked fd file l user uid gid).
Proof.
  unfold open_session_locked. cbv zeta.
  apply returns_bind. intros count.
  destruct (_ && _); [repeat code_step|].
  apply (returns_bind_with _ _ _ _ (write_counter_returns fd _)). intros r Hr.
  destruct (r <? 0) eqn:Er.
  { apply returns_bind. intros ?. apply returns_ret.
    apply Z.ltb_lt in Er. unfold start_code. destruct Hr; [lia|auto]. }
  apply returns_bind. intros session_data.
  destruct (negb session_data); [repeat code_step|].
  apply returns_bind. intros r'.
  destruct (negb (r' =? PAM_SUCCESS)); [repeat code_step|].
  apply returns_bind. intros g. apply returns_bind. intros dropped.
  destruct (negb dropped); [repeat code_step|].
  apply returns_bind. intros m.
  match goal with |- returns _ (if ?b then _ else _) => destruct b end;
    [repeat code_step|].
  apply returns_bind. intros r''.
  destruct (negb (r'' =? PAM_SUCCESS)); repeat code_step.
Qed.

Lemma open_session_codes : returns start_code pam_sm_open_session.
Proof.
  unfold pam_sm_open_session.
  apply returns_bind. intros e.
  destruct (negb (e =? 0)); [repeat code_step|].
  apply returns_bind. intros gu.
  destruct (no_user _ _); [repeat code_step|].
  apply returns_bind. intros [[pw_uid pw_gid]|]; [|repeat code_step].
  cbv zeta. rewrite intlen_int_ok.
  apply returns_bind. intros ok.
  destruct (ok =? 0); [repeat code_step|].
  apply returns_bind. intros fd.
  destruct (fd <? 0); [repeat code_step|].
  apply (returns_bind_with _ _ _ _ (open_session_locked_codes _ _ _ _ _ _)).
  intros r Hr. apply returns_bind. intros _. apply returns_ret. exact Hr.
Qed.

Lemma close_session_codes : returns end_code pam_sm_close_session.
Proof.
  unfold pam_sm_close_session. cbv zeta.
  apply returns_bind. intros gd.
  destruct (_ && _); [repeat code_step|].
  destruct (_ || _); [repeat code_step|].
  apply returns_bind. intros e.
  destruct (negb (e =? 0)); [repeat code_step|].
  apply returns_bind. intros gu.
  destruct (no_user _ _); [repeat code_step|].
  apply returns_bind. intros [[pw_uid pw_gid]|]; [|repeat code_step].
  rewrite intlen_int_ok.
  apply returns_bind. intros ok.
  destruct (ok =? 0); [repeat code_step|].
  apply returns_bind. intros fd.
  destruct (fd <? 0); [repeat code_step|].
  unfold close_session_locked, close_session_counted, close_session_done.
  apply returns_bind. intros count. apply returns_bind. intros r.
  apply returns_bind. intros _. apply returns_bind. intros _.
  apply returns_ret. unfold end_code. destruct (r =? 0); auto.
Qed.

(** X6.  Whatever the calls answer, session-end returns [PAM_SUCCESS],
    [PAM_SESSION_ERR] or [PAM_USER_UNKNOWN], and session-start returns one
    of these or the raw -1 of a failed [write_counter], which it passes on
    as it is.  Neither returns [PAM_SYSTEM_ERR]: [intlen] of an [int] is
    between 1 and [MAX_UID_LENGTH], so the length check never fires. *)
Theorem session_hooks_return_codes (w : world) :
  start_code (fst (pam_sm_open_session w))
  /\ end_code (fst (pam_sm_close_session w))
  /\ fst (pam_sm_open_session w) <> PAM_SYSTEM_ERR
  /\ fst (pam_sm_close_session w) <> PAM_SYSTEM_ERR.
Proof.
  pose proof (open_session_codes w) as Ho.
  pose proof (close_session_codes w) as Hc.
  repeat split; try assumption.
  - destruct Ho as [E|[E|[E|E]]]; rewrite E; discriminate.
  - destruct Hc as [E|[E|E]]; rewrite E; discriminate.
Qed.

(** ** Descriptors of [open_and_lock] *)

Lemma hoare_scripted {A} (P : world -> Prop) (Q : res A -> world -> Prop) s e
    (normal : option nat -> M (res A)) :
  (forall w t, P w -> P (with_trace t w)) ->
  (forall w f, P w -> P (with_faults f w)) ->
  (forall c w, P w -> Q (Err c) w) ->
  (forall o, hoare P (normal o) Q) ->
  hoare P (scripted s e normal) Q.
Proof.
  intros Ht Hf He Hn w Hw. unfold scripted, bind, emit, pop_fault. cbn.
  destruct (faults w s) as [|[[c|n]|] q]; cbn.
  - apply Hn, Ht, Hw.
  - apply He, Hf, Ht, Hw.
  - apply Hn, Hf, Ht, Hw.
  - apply Hn, Hf, Ht, Hw.
Qed.

Lemma pop_fault_head s w f q :
  faults w s = f :: q ->
  pop_fault s w = (f, with_faults (fun s' => if decide (s' = s) then q else faults w s') w).
Proof. intros H. unfold pop_fault. rewrite H. reflexivity. Qed.

Lemma pam_code_fails f : negb (pam_code f =? PAM_SUCCESS) = true.
Proof.
  destruct f as [c|k]; [|reflexivity]. unfold pam_code.
  destruct (c =? PAM_SUCCESS) eqn:E; [reflexivity|]. rewrite E. reflexivity.
Qed.

Section Descriptors.

Variable file : string.
Variable F : gmap Z (string * nat).
Variable N : nat.
Variable L : gset string.
Hypothesis fresh : F !! Z.of_nat N = None.

Local Abbreviation closed := (descriptors_closed F N L).
Local Abbreviation opened := (descriptors_opened file F N L).

Lemma closed_stat p : hoare closed (sys_stat p) (fun _ => closed).
Proof.
  apply hoare_scripted; try (intros; assumption).
  intros o w H. destruct (fs w !! p); exact H.
Qed.

Lemma closed_mkdir p mode : hoare closed (sys_mkdir p mode) (fun _ => closed).
Proof.
  apply hoare_scripted; try (intros; assumption).
  intros o w H. destruct (fs w !! p); [exact H|].
  destruct (parent_error (fs w) p); exact H.
Qed.

Lemma closed_log fmt args : hoare closed (log_error fmt args) (fun _ => closed).
Proof. intros w H. exact H. Qed.

Lemma open_retry_descriptor : forall n,
  hoare closed (open_retry n file)
    (fun x w => match x with
                | Break fd => fd = Z.of_nat N /\ opened w
                | Return r => r = -1 /\ closed w
                | Exhausted => closed w
                end).
Proof.
  induction n as [|n IH]; simpl; [apply hoare_ret; auto|].
  apply (hoare_bind _ (fun o w => match o with
                                  | Ok fd => fd = Z.of_nat N /\ opened w
                                  | Err _ => closed w
                                  end)).
  - apply hoare_scripted; try (intros; assumption).
    intros o w (Hf & Hn & Hl). unfold descriptors_opened, is_file.
    destruct (fs w !! file) as [[c u g m|u g m]|] eqn:E; cbn.
    + rewrite Hf, Hn. split; [reflexivity|]. split; [reflexivity|].
      split; [assumption|]. eauto.
    + repeat split; assumption.
    + destruct (parent_error (fs w) file); cbn; [repeat split; assumption|].
      rewrite Hf, Hn. split; [reflexivity|]. split; [reflexivity|].
      split; [assumption|]. rewrite lookup_insert_eq. eauto.
  - intros [fd|e]; [apply hoare_ret; auto|].
    destruct (_ && _).
    + apply (hoare_bind _ (fun _ => closed)); [apply closed_log|].
      intros _. apply hoare_ret. auto.
    + apply (hoare_bind _ (fun _ => closed)); [intros w H; exact H|].
      intros _. apply IH.
Qed.

Lemma lock_retry_descriptor : forall n,
  hoare opened (lock_retry n (Z.of_nat N) file)
    (fun x w => locked w = L /\
                match x with
                | Return r =>
                    (r = Z.of_nat N /\ opened w /\ file ∉ L)
                    \/ (r = -1 /\ fds w = F)
                | Exhausted => opened w
                | Break _ => False
                end).
Proof.
  induction n as [|n IH]; simpl.
  { apply hoare_ret. intros w H. split; [apply H|exact H]. }
  apply (hoare_bind _ (fun l w => opened w /\ (forall u, l = Ok u -> file ∉ L))).
  - apply hoare_scripted; try (intros; assumption).
    + intros c w H. split; [exact H|discriminate].
    + intros o w Ho. pose proof Ho as (Hf & Hl & Hfile). rewrite Hf, lookup_insert_eq.
      destruct (decide (file ∈ locked w)) as [Hin|Hout]; cbn.
      * split; [exact Ho|discriminate].
      * split; [exact Ho|]. intros _ _. rewrite <- Hl. exact Hout.
  - intros [u|e].
    + apply hoare_ret. intros w [H Hu]. split; [apply H|].
      left. split; [reflexivity|]. split; [exact H|]. apply (Hu u). reflexivity.
    + destruct (_ && _).
      * apply (hoare_bind _ (fun _ w => locked w = L /\ fds w = F)).
        { intros w [(Hf & Hl & _) _]. cbn. rewrite Hf, delete_insert_eq, delete_id by exact fresh.
          auto. }
        intros _. apply (hoare_bind _ (fun _ w => locked w = L /\ fds w = F));
          [intros w H; exact H|].
        intros _. apply hoare_ret. intros w [Hl Hf]. auto.
      * apply (hoare_bind _ (fun _ => opened)); [intros w H; apply H|].
        intros _. apply IH.
Qed.

Lemma open_and_lock_descriptor_in :
  hoare closed (open_and_lock file)
    (fun r w =>
       locked w = L
       /\ ((r = -1 /\ fds w = F)
           \/ (r = Z.of_nat N /\ opened w /\ file ∉ L))).
Proof.
  unfold open_and_lock.
  apply (hoare_bind _ (fun _ => closed)).
  { destruct (strrchr file "/") as [dir_len|]; [|apply hoare_ret; auto].
    destruct (_ <=? _).
    - apply (hoare_bind _ (fun _ => closed)); [apply closed_log|].
      intros _. apply hoare_ret. auto.
    - cbv zeta. apply (hoare_bind _ (fun _ => closed)); [apply closed_stat|].
      intros [nd|e].
      + destruct (negb _); [|apply hoare_ret; auto].
        apply (hoare_bind _ (fun _ => closed)); [apply closed_log|].
        intros _. apply hoare_ret. auto.
      + apply (hoare_bind _ (fun _ => closed)); [apply closed_mkdir|].
        intros [u|e']; [apply hoare_ret; auto|].
        destruct (negb _); [|apply hoare_ret; auto].
        apply (hoare_bind _ (fun _ => closed)); [apply closed_log|].
        intros _. apply hoare_ret. auto. }
  intros ready. destruct (negb ready).
  { apply hoare_ret. intros w (Hf & Hn & Hl). auto. }
  apply (hoare_bind _ _ _ _ _ (open_retry_descriptor LOCK_RETRIES)).
  intros [fd|r|].
  - apply (hoare_assume _ (fd = Z.of_nat N)); [intros w H; apply H|]. intros ->.
    apply (hoare_pre _ opened); [intros w H; apply H|].
    apply (hoare_bind _ _ _ _ _ (lock_retry_descriptor LOCK_RETRIES)).
    intros [fd'|r|].
    + apply hoare_ret. intros w [_ []].
    + apply hoare_ret. intros w [Hl [H|H]]; split; auto; tauto.
    + apply (hoare_bind _ (fun _ w => locked w = L /\ fds w = F)).
      { intros w [_ (Hf & Hl & _)]. cbn. rewrite Hf, delete_insert_eq, delete_id by exact fresh. auto. }
      intros _. apply (hoare_bind _ (fun _ w => locked w = L /\ fds w = F));
        [intros w H; exact H|].
      intros _. apply hoare_ret. intros w [Hl Hf]. auto.
  - apply hoare_ret. intros w [-> (Hf & Hn & Hl)]. auto.
  - apply (hoare_bind _ (fun _ => closed)); [apply closed_log|].
    intros _. apply hoare_ret. intros w (Hf & Hn & Hl). auto.
Qed.

End Descriptors.

(** X7.  [open_and_lock] answers -1 or the descriptor it opened.  When it
    answers -1 no descriptor is left open: a descriptor opened before the
    lock was given up has been closed again.  When it answers a descriptor,
    that descriptor is open on [file] at offset 0, [file] is a regular file
    and no other process holds its lock.  This holds whatever the calls
    answer. *)
Theorem open_and_lock_descriptor (file : string) (w : world) :
  fds w !! Z.of_nat (next_fd w) = None ->
  let out := open_and_lock file w in
  (fst out = -1 /\ fds (snd out) = fds w)
  \/ (fst out = Z.of_nat (next_fd w)
      /\ fds (snd out) = <[fst out := (file, 0%nat)]> (fds w)
      /\ is_file (snd out) file
      /\ file ∉ locked w).
Proof.
  intros Hfresh out.
  destruct (open_and_lock_descriptor_in file (fds w) (next_fd w) (locked w) Hfresh w)
    as [Hl [[Hr Hf]|(Hr & (Hf & _ & Hfile) & Hout)]]; [repeat split| |].
  - left. auto.
  - right. fold out in Hr, Hf, Hfile. rewrite Hr. auto.
Qed.

Lemma open_and_lock_descriptor_witness :
  let out := open_and_lock "/run/user/.1000" contended in
  fst out = -1 /\ fds (snd out) = fds contended.
Proof.
  destruct (open_and_lock_descriptor "/run/user/.1000" contended eq_refl)
    as [H|(H & _)]; [exact H|].
  vm_compute in H. discriminate H.
Defined.

Lemma open_and_lock_absent file w n du dg dm :
  faults w SysStat = [] -> faults w SysOpen = [] -> faults w SysFlock = [] ->
  strrchr file "/" = Some n -> Z.of_nat n < PATH_MAX ->
  fs w !! substring 0 n file = Some (Dir du dg dm) ->
  fs w !! file = None ->
  file ∉ locked w ->
  exists w',
    open_and_lock file w = (Z.of_nat (next_fd w), w')
    /\ fs w' = <[file := File [] (euid w) (egid w)
                           (Z.land (Z.land 420 (Z.lnot (umask_ w))) 511)]> (fs w)
    /\ fds w' = <[Z.of_nat (next_fd w) := (file, 0%nat)]> (fds w)
    /\ faults w' = faults w /\ log w' = log w.
Proof.
  intros Hst Hop Hfl Hstr Hn Hdir Hfile Hfree.
  assert (Hpe : parent_error (fs w) file = None).
  { unfold parent_error. rewrite Hstr. destruct n; [reflexivity|]. rewrite Hdir. reflexivity. }
  unfold open_and_lock. rewrite Hstr.
  destruct (PATH_MAX <=? Z.of_nat n) eqn:E; [apply Z.leb_le in E; lia|].
  unfold bind at 1. unfold bind at 1.
  unfold sys_stat. rewrite scripted_quiet by exact Hst.
  world_simpl. rewrite Hdir. cbn [S_ISDIR negb ret].
  unfold bind at 1. unfold LOCK_RETRIES at 1. cbn [open_retry].
  unfold bind at 1. unfold sys_open. rewrite scripted_quiet by exact Hop.
  world_simpl. rewrite Hfile, Hpe. cbn [ret].
  unfold bind at 1. unfold LOCK_RETRIES. cbn [lock_retry].
  unfold bind at 1. unfold sys_flock. rewrite scripted_quiet by exact Hfl.
  world_simpl. rewrite lookup_insert_eq.
  destruct (decide (file ∈ locked w)); [contradiction|]. cbn [ret].
  eexists. split; [reflexivity|]. world_simpl.
  repeat split; reflexivity.
Qed.

(** X8.  With the directory of [file] in place and the lock free,
    [open_and_lock] creates a missing [file] empty, owned by the effective
    ids, with mode 0644 less the umask, and leaves an existing regular file
    as it is; either way it answers the new descriptor, open at offset 0. *)
Theorem open_and_lock_creates_counter (file : string) (w : world) n du dg dm :
  faults w SysStat = [] -> faults w SysOpen = [] -> faults w SysFlock = [] ->
  strrchr file "/" = Some n -> Z.of_nat n < PATH_MAX ->
  fs w !! substring 0 n file = Some (Dir du dg dm) ->
  file ∉ locked w ->
  let out := open_and_lock file w in
  let created := File [] (euid w) (egid w) (Z.land (Z.land 420 (Z.lnot (umask_ w))) 511) in
  (fs w !! file = None ->
   fst out = Z.of_nat (next_fd w)
   /\ fs (snd out) = <[file := created]> (fs w)
   /\ fds (snd out) = <[Z.of_nat (next_fd w) := (file, 0%nat)]> (fds w))
  /\ (is_file w file ->
      fst out = Z.of_nat (next_fd w)
      /\ fs (snd out) = fs w
      /\ fds (snd out) = <[Z.of_nat (next_fd w) := (file, 0%nat)]> (fds w)).
Proof.
  intros Hst Hop Hfl Hstr Hn Hdir Hfree out created. split.
  - intros Hfile.
    destruct (open_and_lock_absent file w n du dg dm Hst Hop Hfl Hstr Hn Hdir Hfile Hfree)
      as (w' & E & Hfs & Hfds & _).
    unfold out. rewrite E. auto.
  - intros (c & u & g & m & Hfile).
    destruct (open_and_lock_free file w n du dg dm c u g m Hst Hop Hfl Hstr Hn Hdir Hfile Hfree)
      as (w' & E & Hfs & Hfds & _).
    unfold out. rewrite E. auto.
Qed.

Lemma open_and_lock_creates_counter_witness :
  let w := machine base_fs 0 None quiet_faults in
  let out := open_and_lock "/run/user/.1000" w in
  fst out = 3
  /\ fs (snd out) = <["/run/user/.1000" := File [] 0 0 420]> (fs w)
  /\ fds (snd out) = <[3 := ("/run/user/.1000", 0%nat)]> (fds w).
Proof.
  intros w.
  assert (Hfree : "/run/user/.1000" ∉ locked w) by (vm_compute; set_solver).
  destruct (open_and_lock_creates_counter "/run/user/.1000" w 9 0 0 493
              eq_refl eq_refl eq_refl eq_refl ltac:(vm_compute; reflexivity) eq_refl Hfree)
    as [H _].
  exact (H eq_refl).
Defined.

(** ** Interrupted reads and writes *)

(** Scripted [EINTR] failures of [read] cost one round each and nothing
    else. *)
Lemma read_counter_loop_eintr fd : forall k budget w count rest,
  faults w SysRead = replicate k (Some (Fail EINTR)) ++ rest ->
  exists w',
    read_counter_loop (k + budget) fd count w = read_counter_loop budget fd count w'
    /\ faults w' SysRead = rest
    /\ fds w' = fds w /\ fs w' = fs w.
Proof.
  induction k as [|k IH]; intros budget w count rest Hq.
  - exists w. auto.
  - cbn [Nat.add read_counter_loop].
    unfold sys_read at 1.
    rewrite (bind_run _ _ _ _ _
               (scripted_fail SysRead _ _ w EINTR
                  (replicate k (Some (Fail EINTR)) ++ rest) Hq)).
    change (EINTR =? EINTR) with true. cbv iota.
    destruct (IH budget
                (with_faults (fun s' => if decide (s' = SysRead)
                                        then replicate k (Some (Fail EINTR)) ++ rest
                                        else faults w s')
                   (with_trace (EvRead fd :: trace w) w)) count rest)
      as (w' & E & Hq' & Hfds & Hfs).
    { world_simpl. destruct (decide (SysRead = SysRead)); [reflexivity|contradiction]. }
    exists w'. rewrite E. auto.
Qed.

Lemma read_counter_interrupted_value w fd p pos c u g m k :
  fds w !! fd = Some (p, pos) -> fs w !! p = Some (File c u g m) ->
  faults w SysRead = replicate k (Some (Fail EINTR)) ->
  parse_chunks (S (length c - pos)) (drop pos c) 0 = Some (fst (read_counter fd w)).
Proof.
  intros Hfd Hfs Hq.
  unfold read_counter, read_measure.
  rewrite Hq, (fd_file_Some _ _ _ _ _ _ _ _ Hfd Hfs), length_replicate.
  replace (S (k + (length c - pos))) with (k + S (length c - pos))%nat by lia.
  destruct (read_counter_loop_eintr fd k (S (length c - pos)) w 0 [])
    as (w' & E & Hq' & Hfds & Hfs').
  { rewrite app_nil_r. exact Hq. }
  rewrite E.
  destruct (read_counter_loop_quiet fd p c u g m (S (length c - pos)) w' 0 pos)
    as (pos' & n & Hrun); [exact Hq'|rewrite Hfds; exact Hfd|rewrite Hfs'; exact Hfs|].
  rewrite Hrun. cbn [fst].
  destruct (parse_chunks_total (S (length c - pos)) (drop pos c) 0) as [v Hv].
  { rewrite length_drop. lia. }
  rewrite Hv. reflexivity.
Qed.

Lemma read_counter_loop_error fd budget count w e q :
  e <> EINTR -> faults w SysRead = Some (Fail e) :: q ->
  read_counter_loop (S budget) fd count w
  = (Some (-1),
     with_faults (fun s' => if decide (s' = SysRead) then q else faults w s')
       (with_trace (EvRead fd :: trace w) w)).
Proof.
  intros He Hq. simpl read_counter_loop. unfold sys_read at 1.
  rewrite (bind_run _ _ _ _ _ (scripted_fail SysRead _ _ w e q Hq)).
  destruct (e =? EINTR) eqn:Ee; [apply Z.eqb_eq in Ee; contradiction|].
  reflexivity.
Qed.

(** X9.  [read_counter] retries a [read] that fails with [EINTR]: any
    number of such failures leaves its answer what it is without them.  Any
    other failure of [read] makes it answer -1, and the file is not
    touched. *)
Theorem read_counter_interrupted (w : world) (fd : Z) p pos c u g m (k : nat) :
  fds w !! fd = Some (p, pos) -> fs w !! p = Some (File c u g m) ->
  (faults w SysRead = replicate k (Some (Fail EINTR)) ->
   fst (read_counter fd w) = fst (read_counter fd (with_faults (fun _ => []) w)))
  /\ (forall e q, e <> EINTR ->
        faults w SysRead = replicate k (Some (Fail EINTR)) ++ Some (Fail e) :: q ->
        fst (read_counter fd w) = -1 /\ fs (snd (read_counter fd w)) = fs w).
Proof.
  intros Hfd Hfs. split.
  - intros Hq.
    pose proof (read_counter_interrupted_value w fd p pos c u g m k Hfd Hfs Hq) as H1.
    pose proof (read_counter_interrupted_value (with_faults (fun _ => []) w)
                  fd p pos c u g m 0 Hfd Hfs eq_refl) as H2.
    congruence.
  - intros e q He Hq.
    unfold read_counter, read_measure.
    rewrite Hq, (fd_file_Some _ _ _ _ _ _ _ _ Hfd Hfs), length_app, length_replicate.
    cbn [length].
    replace (S (k + S (length q) + (length c - pos)))
      with (k + S (S (length q) + (length c - pos)))%nat by lia.
    destruct (read_counter_loop_eintr fd k (S (S (length q) + (length c - pos))) w 0
                (Some (Fail e) :: q) Hq)
      as (w' & E & Hq' & Hfds & Hfs').
    rewrite E, (read_counter_loop_error fd _ 0 w' e q He Hq').
    world_simpl. split; [reflexivity|exact Hfs'].
Qed.

Lemma read_counter_interrupted_witness :
  let eintr := fun s => match s with
                        | SysRead => [Some (Fail EINTR); Some (Fail EINTR)]
                        | _ => []
                        end in
  fst (read_counter 3 (reading (list_ascii_of_string "42") eintr))
  = fst (read_counter 3 (with_faults (fun _ => [])
                           (reading (list_ascii_of_string "42") eintr))).
Proof.
  intros eintr.
  apply (read_counter_interrupted (reading (list_ascii_of_string "42") eintr) 3
           "/run/user/.1000" 0 (list_ascii_of_string "42") 0 0 420 2 eq_refl eq_refl).
  reflexivity.
Defined.

(** ** What [write_counter] stores and [read_counter] reads *)

(** X10.  What [write_counter] stores, [read_counter] reads back: a later
    reader of the file, through a descriptor at offset 0, gets the count
    that was written when it was not negative, and -2 (the mark of an
    unusable directory) when a negative count, written as the single byte
    '-', was stored. *)
Theorem write_then_read_counter (w w2 : world) (fd fd2 : Z) p pos c u g m (count : Z) :
  count <= INT_MAX ->
  faults w SysLseek = [] -> faults w SysWrite = [] -> faults w SysFtruncate = [] ->
  fds w !! fd = Some (p, pos) -> fs w !! p = Some (File c u g m) ->
  faults w2 SysRead = [] -> fds w2 !! fd2 = Some (p, 0%nat) ->
  fs w2 !! p = fs (snd (write_counter fd count w)) !! p ->
  fst (write_counter fd count w) = 0
  /\ fst (read_counter fd2 w2) = (if 0 <=? count then count else -2).
Proof.
  intros Hc Hls Hwr Hft Hfd Hfs Hrd Hfd2 Hsame.
  rewrite (write_counter_quiet fd count w p pos c u g m Hc Hls Hwr Hft Hfd Hfs) in *.
  split; [reflexivity|].
  unfold after_write in Hsame. world_simpl. cbn [fs snd] in Hsame.
  rewrite lookup_insert_eq in Hsame.
  destruct (read_counter_quiet fd2 p (counter_bytes count) u g m w2 0 Hrd Hfd2 Hsame)
    as (v & pos' & n & Hv & Hrun).
  rewrite Hrun. cbn [fst]. rewrite drop_0, Nat.sub_0_r in Hv.
  destruct (0 <=? count) eqn:E.
  - apply Z.leb_le in E.
    rewrite counter_bytes_decimal in Hv by lia.
    destruct (decimal_is_decimal_of count ltac:(lia)) as (_ & Hdig & Hval & _).
    rewrite <- Hval. apply parse_digits; [exact Hdig|lia|exact Hv].
  - apply Z.leb_gt in E. rewrite counter_bytes_sentinel in Hv by lia.
    vm_compute in Hv. congruence.
Qed.

Lemma write_then_read_counter_witness :
  let w := reading (list_ascii_of_string "7") quiet_faults in
  fst (write_counter 3 41 w) = 0
  /\ fst (read_counter 3 (reading (list_ascii_of_string "41") quiet_faults)) = 41.
Proof.
  intros w.
  apply (write_then_read_counter w (reading (list_ascii_of_string "41") quiet_faults)
           3 3 "/run/user/.1000" 0 (list_ascii_of_string "7") 0 0 420 41);
    try reflexivity.
  unfold INT_MAX. lia.
Defined.

(** Scripted [EINTR] failures of a call cost one round of the retry loop
    each and leave the files and descriptors alone. *)
Lemma retry_eintr_skips {A} s ev (normal : option nat -> M (res A)) :
  forall k budget w rest,
  faults w s = replicate k (Some (Fail EINTR)) ++ rest ->
  exists w',
    retry_eintr (k + budget) (scripted s ev normal) w
      = retry_eintr budget (scripted s ev normal) w'
    /\ faults w' s = rest
    /\ (forall s', s' <> s -> faults w' s' = faults w s')
    /\ fds w' = fds w /\ fs w' = fs w.
Proof.
  induction k as [|k IH]; intros budget w rest Hq.
  - exists w. auto.
  - cbn [Nat.add retry_eintr].
    rewrite (bind_run _ _ _ _ _
               (scripted_fail s ev normal w EINTR
                  (replicate k (Some (Fail EINTR)) ++ rest) Hq)).
    change (EINTR =? EINTR) with true. cbv iota.
    destruct (IH budget
                (with_faults (fun s' => if decide (s' = s)
                                        then replicate k (Some (Fail EINTR)) ++ rest
                                        else faults w s')
                   (with_trace (ev :: trace w) w)) rest)
      as (w' & E & Hq' & Hoth & Hfds & Hfs).
    { world_simpl. destruct (decide (s = s)); [reflexivity|contradiction]. }
    exists w'. rewrite E. repeat split; try assumption.
    intros s' Hs'. rewrite (Hoth s' Hs'). world_simpl.
    destruct (decide (s' = s)); [contradiction|reflexivity].
Qed.

Lemma write_loop_skips fd buf l : forall k budget w rest,
  faults w SysWrite = replicate k (Some (Fail EINTR)) ++ rest ->
  exists w',
    write_loop (k + budget) fd buf l w = write_loop budget fd buf l w'
    /\ faults w' SysWrite = rest
    /\ (forall s', s' <> SysWrite -> faults w' s' = faults w s')
    /\ fds w' = fds w /\ fs w' = fs w.
Proof.
  induction k as [|k IH]; intros budget w rest Hq.
  - exists w. auto.
  - cbn [Nat.add write_loop]. unfold sys_write at 1.
    rewrite (bind_run _ _ _ _ _
               (scripted_fail SysWrite _ _ w EINTR
                  (replicate k (Some (Fail EINTR)) ++ rest) Hq)).
    change (EINTR =? EINTR) with true. cbv iota.
    destruct (IH budget
                (with_faults (fun s' => if decide (s' = SysWrite)
                                        then replicate k (Some (Fail EINTR)) ++ rest
                                        else faults w s')
                   (with_trace (EvWrite fd (take (Z.to_nat (l - 0)) (drop (Z.to_nat 0) buf))
                                  :: trace w) w)) rest)
      as (w' & E & Hq' & Hoth & Hfds & Hfs).
    { world_simpl. destruct (decide (SysWrite = SysWrite)); [reflexivity|contradiction]. }
    exists w'. rewrite E. repeat split; try assumption.
    intros s' Hs'. rewrite (Hoth s' Hs'). world_simpl.
    destruct (decide (s' = SysWrite)); [contradiction|reflexivity].
Qed.

Lemma ftruncate_retry_skips fd l k budget w rest :
  faults w SysFtruncate = replicate k (Some (Fail EINTR)) ++ rest ->
  exists w',
    retry_eintr (k + budget) (sys_ftruncate fd l) w
      = retry_eintr budget (sys_ftruncate fd l) w'
    /\ faults w' SysFtruncate = rest
    /\ (forall s', s' <> SysFtruncate -> faults w' s' = faults w s')
    /\ fds w' = fds w /\ fs w' = fs w.
Proof. unfold sys_ftruncate. apply retry_eintr_skips. Qed.

Lemma write_counter_interrupted_ok fd count w p pos c u g m k j :
  count <= INT_MAX ->
  faults w SysLseek = [] ->
  faults w SysWrite = replicate k (Some (Fail EINTR)) ->
  faults w SysFtruncate = replicate j (Some (Fail EINTR)) ->
  fds w !! fd = Some (p, pos) -> fs w !! p = Some (File c u g m) ->
  exists wf,
    write_counter fd count w = (0, wf)
    /\ fs wf = <[p := File (counter_bytes count) u g m]> (fs w).
Proof.
  intros Hc Hls Hwr Hft Hfd Hfs.
  unfold write_counter.
  rewrite (bind_run _ _ _ _ _ (sys_lseek0_quiet fd w p pos Hls Hfd)).
  fold (counter_bytes count).
  pose proof (counter_bytes_length count Hc) as Hlen.
  set (bytes := counter_bytes count) in *.
  set (l := if 0 <=? count then intlen count else 1) in *.
  clearbody bytes l.
  set (w1 := with_fds _ _ _).
  unfold bind at 1.
  assert (Hq1 : faults w1 SysWrite = replicate k (Some (Fail EINTR)) ++ []).
  { rewrite app_nil_r. exact Hwr. }
  assert (Hb : S (length (faults w1 SysWrite)) = (k + 1)%nat).
  { rewrite Hq1, app_nil_r, length_replicate. lia. }
  rewrite Hb.
  destruct (write_loop_skips fd bytes l k 1 w1 [] Hq1) as (w1' & E & Hq' & Hoth & Hfds & Hfs').
  rewrite E. cbn [write_loop]. unfold bind at 1.
  replace (take (Z.to_nat (l - 0)) (drop (Z.to_nat 0) bytes)) with bytes.
  2: { change (Z.to_nat 0) with 0%nat. rewrite drop_0, Z.sub_0_r, <- Hlen, Nat2Z.id, take_ge; [reflexivity|lia]. }
  erewrite sys_write_quiet;
    [|exact Hq'|rewrite Hfds; unfold w1; world_simpl; apply lookup_insert_eq
     |rewrite Hfs'; exact Hfs].
  rewrite Z.add_0_l, Hlen, Z.eqb_refl. cbn [ret].
  set (w2 := with_fds _ _ _).
  unfold bind at 1. unfold do_while_eintr.
  assert (Hq2 : faults w2 SysFtruncate = replicate j (Some (Fail EINTR)) ++ []).
  { rewrite app_nil_r. unfold w2. world_simpl.
    rewrite (Hoth SysFtruncate) by discriminate. exact Hft. }
  assert (Hb2 : S (length (faults w2 SysFtruncate)) = (j + 1)%nat).
  { rewrite Hq2, app_nil_r, length_replicate. lia. }
  rewrite Hb2.
  destruct (ftruncate_retry_skips fd l j 1 w2 [] Hq2)
    as (w2' & E2 & Hq2' & _ & Hfds2 & Hfs2).
  rewrite E2. cbn [retry_eintr]. unfold bind at 1.
  erewrite sys_ftruncate_quiet with (p := p) (pos := (0 + length bytes)%nat)
                                    (u := u) (g := g) (m := m);
    [|exact Hq2'|rewrite Hfds2; unfold w2; world_simpl; apply lookup_insert_eq
     |rewrite Hfs2; unfold w2; world_simpl; apply lookup_insert_eq].
  cbn [ret]. eexists. split; [reflexivity|].
  world_simpl. rewrite Hfs2. unfold w2. world_simpl. rewrite Hfs'.
  rewrite <- ?Hlen, ?Nat2Z.id, ?store_then_truncate, ?insert_insert_eq. reflexivity.
Qed.

Lemma write_counter_write_fails fd count w p pos k e q :
  e <> EINTR ->
  faults w SysLseek = [] ->
  faults w SysWrite = replicate k (Some (Fail EINTR)) ++ Some (Fail e) :: q ->
  fds w !! fd = Some (p, pos) ->
  exists wf, write_counter fd count w = (-1, wf) /\ fs wf = fs w.
Proof.
  intros He Hls Hwr Hfd.
  unfold write_counter.
  rewrite (bind_run _ _ _ _ _ (sys_lseek0_quiet fd w p pos Hls Hfd)).
  cbv zeta.
  set (l := if 0 <=? count then intlen count else 1).
  set (bytes := if 0 <=? count then _ else _).
  clearbody bytes l.
  set (w1 := with_fds _ _ _).
  unfold bind at 1.
  assert (Hq1 : faults w1 SysWrite = replicate k (Some (Fail EINTR)) ++ Some (Fail e) :: q)
    by exact Hwr.
  assert (Hb : S (length (faults w1 SysWrite)) = (k + S (S (length q)))%nat).
  { rewrite Hq1, length_app, length_replicate. cbn [length]. lia. }
  rewrite Hb.
  destruct (write_loop_skips fd bytes l k (S (S (length q))) w1 _ Hq1)
    as (w1' & E & Hq' & Hoth & Hfds & Hfs').
  rewrite E. cbn [write_loop]. unfold bind at 1. unfold sys_write at 1.
  rewrite (scripted_fail SysWrite _ _ w1' e q Hq').
  destruct (e =? EINTR) eqn:Ee; [apply Z.eqb_eq in Ee; contradiction|].
  change (0 <? 0) with false. cbv iota. cbn [bind ret].
  eexists. split; [reflexivity|]. world_simpl. rewrite Hfs'. reflexivity.
Qed.

Lemma write_counter_lseek_fails fd count w e q :
  faults w SysLseek = Some (Fail e) :: q ->
  exists wf, write_counter fd count w = (-1, wf) /\ fs wf = fs w /\ fds wf = fds w.
Proof.
  intros Hls. unfold write_counter. unfold sys_lseek0.
  rewrite (bind_run _ _ _ _ _ (scripted_fail SysLseek _ _ w e q Hls)).
  cbn [ret]. eexists. split; [reflexivity|]. world_simpl. auto.
Qed.

(** X11.  [write_counter] retries a [write] or an [ftruncate] that fails
    with [EINTR]: any number of such failures leaves its answer and the
    file what they are without them.  When [lseek] fails, or [write] fails
    with another error, it answers -1 and the file is as it was: nothing
    has been stored, and the sentinel is not written either. *)
Theorem write_counter_interrupted (w : world) (fd : Z) p pos c u g m (count : Z)
    (k j : nat) :
  count <= INT_MAX ->
  fds w !! fd = Some (p, pos) -> fs w !! p = Some (File c u g m) ->
  (faults w SysLseek = [] ->
   faults w SysWrite = replicate k (Some (Fail EINTR)) ->
   faults w SysFtruncate = replicate j (Some (Fail EINTR)) ->
   let quiet_run := write_counter fd count (with_faults (fun _ => []) w) in
   fst (write_counter fd count w) = 0
   /\ fst quiet_run = 0
   /\ fs (snd (write_counter fd count w)) = fs (snd quiet_run))
  /\ (forall e q, e <> EINTR ->
        faults w SysLseek = [] ->
        faults w SysWrite = replicate k (Some (Fail EINTR)) ++ Some (Fail e) :: q ->
        fst (write_counter fd count w) = -1
        /\ fs (snd (write_counter fd count w)) = fs w)
  /\ (forall e q, faults w SysLseek = Some (Fail e) :: q ->
        fst (write_counter fd count w) = -1
        /\ fs (snd (write_counter fd count w)) = fs w).
Proof.
  intros Hc Hfd Hfs. split; [|split].
  - intros Hls Hwr Hft quiet_run.
    destruct (write_counter_interrupted_ok fd count w p pos c u g m k j
                Hc Hls Hwr Hft Hfd Hfs) as (wf & E & Hf).
    destruct (write_counter_interrupted_ok fd count (with_faults (fun _ => []) w)
                p pos c u g m 0 0 Hc eq_refl eq_refl eq_refl Hfd Hfs) as (wq & Eq & Hq).
    unfold quiet_run. rewrite E, Eq. cbn [fst snd]. rewrite Hf, Hq. auto.
  - intros e q He Hls Hwr.
    destruct (write_counter_write_fails fd count w p pos k e q He Hls Hwr Hfd)
      as (wf & E & Hf).
    rewrite E. auto.
  - intros e q Hls.
    destruct (write_counter_lseek_fails fd count w e q Hls) as (wf & E & Hf & _).
    rewrite E. auto.
Qed.

Lemma write_counter_interrupted_witness :
  let eintr := fun s => match s with
                        | SysWrite => [Some (Fail EINTR)]
                        | SysFtruncate => [Some (Fail EINTR); Some (Fail EINTR)]
                        | _ => []
                        end in
  let w := reading (list_ascii_of_string "12") eintr in
  fst (write_counter 3 5 w) = 0
  /\ fst (write_counter 3 5 (with_faults (fun _ => []) w)) = 0
  /\ fs (snd (write_counter 3 5 w))
     = fs (snd (write_counter 3 5 (with_faults (fun _ => []) w))).
Proof.
  intros eintr w.
  destruct (write_counter_interrupted w 3 "/run/user/.1000" 0
              (list_ascii_of_string "12") 0 0 420 5 1 2
              ltac:(unfold INT_MAX; lia) eq_refl eq_refl) as [H _].
  exact (H eq_refl eq_refl eq_refl).
Defined.

(** ** What [rmrf] removes *)

Lemma removes_ret {A} (a : A) : only_removes (ret a).
Proof. intros w. reflexivity. Qed.

Lemma removes_bind {A B} (m : M A) (k : A -> M B) :
  only_removes m -> (forall a, only_removes (k a)) -> only_removes (bind m k).
Proof.
  intros Hm Hk w. unfold bind. specialize (Hm w).
  destruct (m w) as [a w1]. etrans; [apply Hk|exact Hm].
Qed.

Lemma removes_log fmt args : only_removes (log_error fmt args).
Proof. intros w. reflexivity. Qed.

Lemma removes_scripted {A} s e (normal : option nat -> M (res A)) :
  (forall o, only_removes (normal o)) -> only_removes (scripted s e normal).
Proof.
  intros Hn w. unfold scripted, bind, emit, pop_fault. cbn.
  destruct (faults w s) as [|[[c|n]|] q]; cbn; try reflexivity;
    (etrans; [apply Hn|reflexivity]).
Qed.

Lemma removes_stat p : only_removes (sys_stat p).
Proof. apply removes_scripted. intros o w. destruct (fs w !! p); reflexivity. Qed.

Lemma removes_opendir p : only_removes (sys_opendir p).
Proof. apply removes_scripted. intros o w. destruct (fs w !! p) as [[]|]; reflexivity. Qed.

Lemma removes_unlink p : only_removes (sys_unlink p).
Proof.
  apply removes_scripted. intros o w.
  destruct (fs w !! p) as [[]|]; try reflexivity. cbn. apply delete_subseteq.
Qed.

Lemma removes_rmdir p : only_removes (sys_rmdir p).
Proof.
  apply removes_scripted. intros o w.
  destruct (fs w !! p) as [[]|]; try reflexivity.
  destruct (children (fs w) p); [|reflexivity]. cbn. apply delete_subseteq.
Qed.

Ltac removes_step :=
  first
    [ apply removes_ret | apply removes_log | apply removes_stat
    | apply removes_opendir | apply removes_unlink | apply removes_rmdir
    | assumption
    | apply removes_bind; [|intros ?]
    | match goal with
      | |- only_removes (match ?x with _ => _ end) => destruct x
      end ].

Lemma removes_for_each {A B} (f : A -> B -> M A) :
  (forall a b, only_removes (f a b)) -> forall l a, only_removes (for_each f a l).
Proof.
  intros Hf. induction l as [|b l IH]; intros a; simpl; [apply removes_ret|].
  apply removes_bind; [apply Hf|]. intros a'. apply IH.
Qed.

Lemma removes_rmrf_body recurse path :
  (forall p, only_removes (recurse p)) -> only_removes (rmrf_body recurse path).
Proof.
  intros Hr. unfold rmrf_body.
  apply removes_bind; [apply removes_unlink|]. intros [u|e]; [apply removes_ret|].
  destruct (negb _); [repeat removes_step|].
  apply removes_bind; [apply removes_opendir|]. intros [entries|e']; [|repeat removes_step].
  destruct (_ <=? _); [repeat removes_step|].
  apply removes_bind; [|intros; repeat removes_step].
  apply removes_for_each. intros r d_name. unfold rmrf_entry. cbv zeta.
  destruct (_ || _); [apply removes_ret|].
  destruct (_ <=? _); [repeat removes_step|].
  apply removes_bind; [apply removes_stat|]. intros [nd|e']; [|repeat removes_step].
  destruct (S_ISDIR nd); [|repeat removes_step].
  apply removes_bind; [apply Hr|]. intros rr. destruct (negb _); apply removes_ret.
Qed.

Lemma removes_rmrf_depth : forall depth path, only_removes (rmrf_depth depth path).
Proof.
  induction depth as [|k IH]; intros path; simpl; apply removes_rmrf_body.
  - intros p. apply removes_ret.
  - exact IH.
Qed.

(** X12.  Whatever the calls answer, [rmrf path] creates and changes no
    entry, it can only remove some; the entries whose name does not start
    with [path] are all still there, and no descriptor is touched. *)
Theorem rmrf_only_removes_below (path : string) (w : world) :
  fs (snd (rmrf path w)) ⊆ fs w
  /\ (forall q, String.prefix path q = false ->
        fs (snd (rmrf path w)) !! q = fs w !! q)
  /\ fds (snd (rmrf path w)) = fds w.
Proof.
  destruct (framed_rmrf path w) as [Hfs Hfds _ _ _].
  split; [apply removes_rmrf_depth|]. split; assumption.
Qed.

(** ** The paths of session-start *)

Lemma list_of_string_app s t :
  list_ascii_of_string (s +:+ t) = list_ascii_of_string s ++ list_ascii_of_string t.
Proof.
  induction s as [|a s IH]; [reflexivity|].
  change (String a s +:+ t) with (String a (s +:+ t)). simpl. rewrite IH. reflexivity.
Qed.

(** The copy of the counter name session-start makes before it moves the
    digits is the counter name. *)
Lemma runtime_dir_copy uid :
  0 <= uid <= INT_MAX ->
  <[Z.to_nat (MAX_PATH_LEN - 1) := NUL]>
    (strncpy (buffer MAX_PATH_LEN) (cstring (counter_file uid)) (Z.to_nat (MAX_PATH_LEN - 1)))
  = counter_file uid.
Proof.
  intros Hu. fold (counter_path uid).
  rewrite counter_path_eq, counter_file_bytes by exact Hu.
  unfold strncpy, memcpy, buffer, uid_text.
  rewrite list_of_string_app, list_of_string_of.
  pose proof (decimal_length uid) as Hk.
  set (chars := list_ascii_of_string "/run/user/." ++ decimal uid).
  assert (Hc : length chars = (11 + length (decimal uid))%nat)
    by (unfold chars; rewrite length_app; reflexivity).
  set (k := length (decimal uid)) in *.
  replace (Z.to_nat (MAX_PATH_LEN - 1)) with (length chars + (4084 - k))%nat
    by (unfold MAX_PATH_LEN; lia).
  replace (Z.to_nat MAX_PATH_LEN) with (S (length chars + (4084 - k)))%nat
    by (unfold MAX_PATH_LEN; lia).
  rewrite length_replicate, take_app_add, !take_replicate.
  replace ((4084 - k) `min` (length chars + (4084 - k)))%nat with (4084 - k)%nat by lia.
  rewrite Nat.min_0_l. change (replicate 0 NUL) with (@nil ascii). rewrite app_nil_l.
  set (src := chars ++ replicate (4084 - k) NUL).
  assert (Hsrc : length src = (length chars + (4084 - k))%nat)
    by (unfold src; rewrite length_app, length_replicate; reflexivity).
  rewrite <- Hsrc. rewrite drop_replicate.
  replace (S (length src) - (0 + length src))%nat with 1%nat by lia.
  cbn [replicate]. rewrite take_ge by (rewrite length_app; cbn [length]; lia).
  rewrite list_insert_id.
  2: { rewrite lookup_app_r by lia. rewrite Nat.sub_diag. reflexivity. }
  unfold src. rewrite <- !app_assoc. unfold chars. rewrite <- app_assoc.
  f_equal. f_equal. fold chars. fold src.
  replace (S (length src) - 11 - k)%nat with (S (4084 - k)) by lia.
  rewrite replicate_S_end. reflexivity.
Qed.

Lemma derived_digits uid :
  0 <= uid <= INT_MAX ->
  exists ds, derived_runtime_dir uid = "/run/user." +:+ string_of_list_ascii ds
             /\ forallb is_digit ds = true
             /\ (length ds <= 11)%nat.
Proof.
  intros Hu. exists (decimal uid ++ [List.last (decimal uid) NUL]).
  pose proof (decimal_length uid) as Hk.
  destruct (decimal_is_decimal_of uid Hu) as (_ & Hd & _).
  split; [|split].
  - rewrite derived_runtime_dir_eq by exact Hu. unfold uid_text.
    rewrite string_of_app. reflexivity.
  - rewrite forallb_app, Hd. cbn [forallb andb].
    destruct (exists_last (l := decimal uid)) as (di & dl & Hdec).
    { intros E. rewrite E in Hk. simpl in Hk. lia. }
    rewrite Hdec in *. rewrite last_last.
    rewrite forallb_app in Hd. apply andb_true_iff in Hd as [_ Hl]. exact Hl.
  - rewrite length_app. cbn [length]. lia.
Qed.

Lemma length_string_of (c : list ascii) :
  String.length (string_of_list_ascii c) = length c.
Proof. induction c as [|a c IH]; [reflexivity|]. simpl. rewrite IH. reflexivity. Qed.

(** The directory of the runtime directory is [/run], and the name is
    short. *)
Lemma derived_parent uid :
  0 <= uid <= INT_MAX ->
  strrchr (derived_runtime_dir uid) "/" = Some 4%nat
  /\ substring 0 4 (derived_runtime_dir uid) = "/run"
  /\ (String.length (derived_runtime_dir uid) <= 21)%nat
  /\ derived_runtime_dir uid <> counter_path uid
  /\ derived_runtime_dir uid <> "/run".
Proof.
  intros Hu. destruct (derived_digits uid Hu) as (ds & E & Hd & Hl).
  rewrite E. repeat split.
  - rewrite strrchr_app, strrchr_digits by exact Hd. reflexivity.
  - rewrite length_append, length_string_of. simpl. lia.
  - rewrite counter_path_eq by exact Hu. discriminate.
  - discriminate.
Qed.

(** ** Session-start *)

Lemma ensure_parent_dir_existing_ambient w du dg dm :
  faults w SysMkdir = [] -> faults w SysStat = [] ->
  faults w SysChown = [] -> faults w SysChmod = [] ->
  0 <= umask_ w <= 511 ->
  fs w !! PARENT_DIR = Some (Dir du dg dm) ->
  exists w',
    ensure_parent_dir w = (1, w')
    /\ fs w' = <[PARENT_DIR := Dir 0 0 493]> (fs w)
    /\ fds w' = fds w /\ next_fd w' = next_fd w
    /\ faults w' = faults w /\ log w' = log w
    /\ ambient w' = ambient w.
Proof.
  intros Hmk Hst Hco Hcm Hu Hdir.
  destruct (ensure_parent_dir_existing w du dg dm Hmk Hst Hco Hcm Hdir)
    as (w' & E & Hfs & Hfds & Hn & _ & Hq & Hlog & _).
  exists w'. repeat split; try assumption.
  pose proof (ensure_parent_dir_ambient w Hu) as Ha. rewrite E in Ha. exact Ha.
Qed.

(** The counter file just opened: its content and how it reads. *)
Lemma open_counter w uid n du dg dm :
  faults w SysStat = [] -> faults w SysOpen = [] -> faults w SysFlock = [] ->
  0 <= uid <= INT_MAX ->
  fs w !! PARENT_DIR = Some (Dir du dg dm) ->
  counter_holds w uid n ->
  counter_path uid ∉ locked w ->
  exists w' c cu cg cm,
    open_and_lock (counter_path uid) w = (Z.of_nat (next_fd w), w')
    /\ fs w' = <[counter_path uid := File c cu cg cm]> (fs w)
    /\ fds w' = <[Z.of_nat (next_fd w) := (counter_path uid, 0%nat)]> (fds w)
    /\ faults w' = faults w /\ log w' = log w
    /\ ambient w' = ambient w
    /\ ((forallb is_digit c = true /\ n = digits_value 0 c /\ n < INT_MAX)
        \/ (c = ["-"%char] /\ n = 0)).
Proof.
  intros Hst Hop Hfl Hu Hdir Hcount Hfree.
  destruct (counter_path_slash uid Hu) as [Hslash Hsub].
  assert (Hamb : forall w', open_and_lock (counter_path uid) w = (Z.of_nat (next_fd w), w') ->
                            ambient w' = ambient w).
  { intros w' E. pose proof (keeps_open_and_lock (counter_path uid) w) as H.
    rewrite E in H. exact H. }
  destruct Hcount as [[Habs ->]|(c & cu & cg & cm & Hc & Hreads)].
  - destruct (open_and_lock_absent (counter_path uid) w 9 du dg dm Hst Hop Hfl Hslash
                ltac:(unfold PATH_MAX; lia) ltac:(rewrite Hsub; exact Hdir) Habs Hfree)
      as (w' & E & Hfs & Hfds & Hq & Hl).
    exists w', [], (euid w), (egid w), (Z.land (Z.land 420 (Z.lnot (umask_ w))) 511).
    repeat split; auto. left. repeat split.
  - destruct (open_and_lock_free (counter_path uid) w 9 du dg dm c cu cg cm Hst Hop Hfl Hslash
                ltac:(unfold PATH_MAX; lia) ltac:(rewrite Hsub; exact Hdir) Hc Hfree)
      as (w' & E & Hfs & Hfds & Hq & Hl & _).
    exists w', c, cu, cg, cm. repeat split; auto.
    rewrite Hfs, insert_id by exact Hc. reflexivity.
Qed.

(** Session-start, from the call of the hook to the counter file open and
    locked. *)
Lemma open_session_to_locked w user uid gid n :
  quiet_to_update w ->
  session_start_ready w user uid gid ->
  counter_holds w uid n ->
  let fd := Z.of_nat (next_fd w) in
  exists w1 c cu cg cm,
    pam_sm_open_session w
    = (r <- open_session_locked fd (counter_file uid) (intlen (wrap32 uid)) user uid gid ;;
       (if 0 <=? fd then sys_close fd else ret tt) ;;;
       ret r) w1
    /\ fs w1 = <[counter_path uid := File c cu cg cm]> (<[PARENT_DIR := Dir 0 0 493]> (fs w))
    /\ fds w1 = <[fd := (counter_path uid, 0%nat)]> (fds w)
    /\ faults w1 = faults w /\ log w1 = log w
    /\ ambient w1 = ambient w
    /\ ((forallb is_digit c = true /\ n = digits_value 0 c /\ n < INT_MAX)
        \/ (c = ["-"%char] /\ n = 0)).
Proof.
  intros Hq [Hroot Hum [Huser Hne] Hpw Hu (du & dg & dm & Hdir) _ Hfree _] Hcount fd.
  destruct (paths_distinct uid Hu) as (Hcp & _ & _).
  set (w0 := with_trace (EvGeteuid :: trace w) w).
  destruct (ensure_parent_dir_existing_ambient w0 du dg dm)
    as (w1 & Hrun1 & Hfs1 & Hfds1 & Hnext1 & Hq1 & Hlog1 & Hamb1);
    try (unfold w0; world_simpl; apply Hq; discriminate); try assumption.
  assert (Hcount1 : counter_holds w1 uid n).
  { unfold counter_holds. rewrite Hfs1, lookup_insert_ne by congruence. exact Hcount. }
  destruct (open_counter w1 uid n 0 0 493)
    as (w2 & c & cu & cg & cm & Hrun2 & Hfs2 & Hfds2 & Hq2 & Hlog2 & Hamb2 & Hreads);
    try (rewrite Hq1; unfold w0; world_simpl; apply Hq; discriminate); try assumption.
  { rewrite Hfs1. apply lookup_insert_eq. }
  { assert (E : locked w1 = locked w).
    { unfold ambient in Hamb1. injection Hamb1 as _ _ _ _ _ _ _ _ _ E. exact E. }
    rewrite E. exact Hfree. }
  rewrite Hnext1 in Hrun2, Hfds2.
  change (next_fd w0) with (next_fd w) in Hrun2, Hfds2.
  exists w2, c, cu, cg, cm. split.
  { unfold pam_sm_open_session.
    unfold bind at 1. unfold sys_geteuid at 1. rewrite Hroot.
    change (negb (0 =? 0)) with false. cbv iota.
    fold w0.
    unfold bind at 1. unfold pam_get_user at 1. unfold bind at 1.
    rewrite pop_fault_quiet by (unfold w0; world_simpl; apply Hq; discriminate).
    change (pam_user w0) with (pam_user w). rewrite Huser. cbn [fst snd default from_option]. unfold id.
    assert (Hnu : no_user PAM_SUCCESS (Some user) = false).
    { unfold no_user. destruct user; [contradiction|reflexivity]. }
    rewrite Hnu.
    unfold bind at 1. unfold sys_getpwnam at 1. unfold bind at 1.
    rewrite pop_fault_quiet by (unfold w0; world_simpl; apply Hq; discriminate).
    change (passwd w0) with (passwd w). rewrite Hpw.
    cbv zeta. rewrite intlen_uid_ok by exact Hu.
    unfold bind at 1.
    rewrite Hrun1. change (1 =? 0) with false. cbv iota.
    fold (counter_file uid). fold (counter_path uid).
    unfold bind at 1.
    rewrite Hrun2. fold fd.
    destruct (fd <? 0) eqn:Efd; [apply Z.ltb_lt in Efd; unfold fd in Efd; lia|].
    reflexivity. }
  rewrite Hfs2, Hfs1, Hfds2, Hfds1, Hq2, Hq1, Hlog2, Hlog1, Hamb2, Hamb1.
  repeat split; try reflexivity. exact Hreads.
Qed.

(** How the counter file just opened reads. *)
Lemma read_opened_counter fd p c cu cg cm n w :
  faults w SysRead = [] ->
  fds w !! fd = Some (p, 0%nat) -> fs w !! p = Some (File c cu cg cm) ->
  (forallb is_digit c = true /\ n = digits_value 0 c /\ n < INT_MAX)
  \/ (c = ["-"%char] /\ n = 0) ->
  exists v pos' k,
    read_counter fd w
    = (v, with_fds (<[fd := (p, pos')]> (fds w)) (next_fd w)
            (with_trace (replicate k (EvRead fd) ++ trace w) w))
    /\ (v <? 0) && negb (v =? -2) = false
    /\ (if v <? 0 then 0 else v) = n
    /\ 0 <= n < INT_MAX.
Proof.
  intros Hq Hfd Hfs Hreads.
  destruct (read_counter_quiet fd p c cu cg cm w 0 Hq Hfd Hfs) as (v & pos' & k & Hv & Hrun).
  rewrite Nat.sub_0_r, drop_0 in Hv.
  exists v, pos', k. split; [exact Hrun|].
  destruct Hreads as [(Hd & Hn & Hlt)|[-> ->]].
  - apply (parse_digits c v Hd) in Hv; [|lia].
    pose proof (digits_value_ge c 0 Hd ltac:(lia)) as Hge.
    subst v. rewrite <- Hn in *.
    destruct (n <? 0) eqn:E; [apply Z.ltb_lt in E; lia|].
    repeat split; try reflexivity; lia.
  - vm_compute in Hv. injection Hv as <-. repeat split; unfold INT_MAX; lia.
Qed.

(** [mkdir] of a directory that is missing, or is there already: either
    way a directory is there afterwards and the call counts as done. *)
Lemma mkdir_or_exists w p mode :
  faults w SysMkdir = [] -> parent_error (fs w) p = None ->
  (fs w !! p = None \/ exists a b c, fs w !! p = Some (Dir a b c)) ->
  exists m w',
    sys_mkdir p mode w = (m, w')
    /\ match m with Ok _ => false | Err e => negb (e =? EEXIST) end = false
    /\ (exists a b c, fs w' !! p = Some (Dir a b c))
    /\ (forall q, q <> p -> fs w' !! q = fs w !! q)
    /\ fds w' = fds w /\ next_fd w' = next_fd w /\ faults w' = faults w
    /\ log w' = log w /\ ambient w' = ambient w.
Proof.
  intros Hq Hpe Hp. unfold sys_mkdir. rewrite scripted_quiet by exact Hq.
  world_simpl. destruct Hp as [Habs|(a & b & c & Hdir)].
  - rewrite Habs, Hpe. eexists _, _. split; [reflexivity|]. world_simpl.
    split; [reflexivity|]. split; [rewrite lookup_insert_eq; eauto|].
    split; [intros q Hne; apply lookup_insert_ne; congruence|].
    repeat split; reflexivity.
  - rewrite Hdir. eexists _, _. split; [reflexivity|]. world_simpl.
    split; [reflexivity|]. split; [eauto|].
    repeat split; reflexivity.
Qed.


(** Session-start from the counter file just locked to the call of
    [pam_putenv]: the read, the update, the token, the switch of identity
    and the [mkdir].  The proof state it leaves names the world before
    [pam_putenv] [w4]. *)
Ltac run_to_putenv :=
  match goal with
  | Hq : forall s, s <> PamPutenv -> faults ?w s = [],
    Hu : 0 <= ?uid <= INT_MAX,
    Hroot : euid ?w = 0,
    Hfd : fds ?w !! ?fd = Some (counter_path ?uid, 0%nat),
    Hfs : fs ?w !! counter_path ?uid = Some (File ?c ?cu ?cg ?cm),
    Hreads : _ \/ (?c = _ /\ ?n = 0),
    Hrun : fs ?w !! "/run" = Some _,
    Hfree : runtime_dir_free ?w ?uid
    |- context [open_session_locked _ _ _ _ _ ?gid _] =>
      destruct (derived_parent uid Hu) as (Hslash & Hsub & Hlen & Hdc & Hdr);
      destruct (read_opened_counter fd _ c cu cg cm n w (Hq SysRead ltac:(discriminate))
                  Hfd Hfs Hreads)
        as (v & pos' & k & Hread & Hcond & Hcount & Hn);
      unfold open_session_locked;
      rewrite (bind_run _ _ _ _ _ Hread); rewrite Hcond; cbv zeta; rewrite Hcount;
      rewrite (wrap32_id (n + 1)) by (unfold INT_MAX in *; lia);
      rewrite runtime_dir_copy by exact Hu;
      fold (derived_runtime_dir uid);
      set (w1 := with_fds _ _ _);
      rewrite (bind_run _ _ w1 _ _
                 (write_counter_quiet fd (n + 1) w1 (counter_path uid) pos' c cu cg cm
                    ltac:(lia)
                    (Hq SysLseek ltac:(discriminate))
                    (Hq SysWrite ltac:(discriminate))
                    (Hq SysFtruncate ltac:(discriminate))
                    ltac:(unfold w1; world_simpl; apply lookup_insert_eq)
                    Hfs));
      change (0 <? 0) with false; cbv iota;
      set (bytes := counter_bytes (n + 1));
      assert (Hbytes : bytes = decimal (n + 1))
        by (apply counter_bytes_decimal; unfold INT_MAX in *; lia);
      set (w2 := after_write fd (counter_path uid) bytes c cu cg cm w1);
      assert (Hq2 : forall s, faults w2 s = faults w s) by reflexivity;
      assert (He2 : euid w2 = 0) by exact Hroot;
      assert (Hfs2 : fs w2 = <[counter_path uid := File bytes cu cg cm]> (fs w))
        by reflexivity;
      assert (Hfds2 : fds w2 = <[fd := (counter_path uid, length bytes)]> (fds w))
        by (unfold w2, after_write, w1; world_simpl; apply insert_insert_eq);
      assert (Hrest2 : pam_env w2 = pam_env w /\ log w2 = log w /\ next_fd w2 = next_fd w
                       /\ ruid w2 = ruid w /\ rgid w2 = rgid w)
        by (repeat split; reflexivity);
      destruct Hrest2 as (Henv2 & Hlog2 & Hnext2 & Hru2 & Hrg2);
      clearbody w2 bytes; clear w1 Hread;
      unfold bind at 1; unfold sys_malloc at 1; unfold bind at 1;
      rewrite pop_fault_quiet by (rewrite Hq2; apply Hq; discriminate);
      cbn [ret negb];
      unfold bind at 1; unfold pam_set_data at 1; unfold bind at 1;
      rewrite pop_fault_quiet by (rewrite Hq2; apply Hq; discriminate);
      change (negb (PAM_SUCCESS =? PAM_SUCCESS)) with false; cbv iota;
      unfold bind at 1; unfold bind at 1; unfold sys_setegid at 1;
      rewrite scripted_quiet by (world_simpl; rewrite Hq2; apply Hq; discriminate);
      world_simpl; rewrite He2;
      change ((0 =? 0) || (gid =? rgid w2)) with true; cbv iota;
      unfold bind at 1; unfold sys_seteuid at 1;
      rewrite scripted_quiet by (world_simpl; rewrite Hq2; apply Hq; discriminate);
      world_simpl;
      change ((0 =? 0) || (uid =? ruid w2)) with true; cbv iota;
      cbn [ret negb];
      set (w3 := with_ids _ _ _);
      assert (Hq3 : forall s, faults w3 s = faults w s) by (intros s; apply Hq2);
      assert (Hfs3 : fs w3 = fs w2) by reflexivity;
      assert (Hrest3 : fds w3 = fds w2 /\ pam_env w3 = pam_env w2 /\ log w3 = log w2
                       /\ next_fd w3 = next_fd w2 /\ pam_data w3 = Some (Some 1)
                       /\ ruid w3 = ruid w2 /\ rgid w3 = rgid w2)
        by (repeat split; reflexivity);
      destruct Hrest3 as (Hfds3 & Henv3 & Hlog3 & Hnext3 & Hdata3 & Hru3 & Hrg3);
      assert (Hids3 : euid w3 = uid /\ egid w3 = gid) by (split; reflexivity);
      destruct Hids3 as [He3 Hg3];
      clearbody w3;
      destruct (mkdir_or_exists w3 (derived_runtime_dir uid) S_IRWXU
                  ltac:(rewrite Hq3; apply Hq; discriminate))
        as (m & w4 & Hmk & Htol & (a & b & dm' & Hdir4) & Hfr4 & Hfds4 & Hnext4 & Hq4
            & Hlog4 & Hamb4);
      [ unfold parent_error; rewrite Hslash, Hsub, Hfs3, Hfs2;
        rewrite lookup_insert_ne by (rewrite counter_path_eq by exact Hu; discriminate);
        rewrite Hrun; reflexivity
      | rewrite Hfs3, Hfs2, lookup_insert_ne by congruence; exact Hfree
      | ];
      rewrite (bind_run _ _ _ _ _ Hmk), Htol;
      unfold snprintf; rewrite substring_all
        by (rewrite !length_append; unfold MAX_PATH_LEN; simpl; lia);
      unfold bind at 1; unfold pam_putenv at 1; unfold bind at 1
  end.

Lemma open_session_locked_ok fd user uid gid n w c cu cg cm du dg dm :
  (forall s, s <> PamPutenv -> faults w s = []) ->
  faults w PamPutenv = [] ->
  0 <= uid <= INT_MAX -> euid w = 0 ->
  fds w !! fd = Some (counter_path uid, 0%nat) ->
  fs w !! counter_path uid = Some (File c cu cg cm) ->
  (forallb is_digit c = true /\ n = digits_value 0 c /\ n < INT_MAX)
  \/ (c = ["-"%char] /\ n = 0) ->
  fs w !! "/run" = Some (Dir du dg dm) ->
  runtime_dir_free w uid ->
  exists wf,
    open_session_locked fd (counter_file uid) (intlen (wrap32 uid)) user uid gid w
      = (PAM_SUCCESS, wf)
    /\ fs wf = <[derived_runtime_dir uid := Dir uid gid 448]>
                 (<[counter_path uid := File (decimal (n + 1)) cu cg cm]> (fs w))
    /\ fds wf = <[fd := (counter_path uid, length (decimal (n + 1)))]> (fds w)
    /\ pam_env wf = (VAR_NAME +:+ "=" +:+ derived_runtime_dir uid) :: pam_env w
    /\ pam_data wf = Some (Some 1)
    /\ euid wf = uid /\ egid wf = gid
    /\ log wf = log w /\ next_fd wf = next_fd w.
Proof.
  intros Hq Hp Hu Hroot Hfd Hfs Hreads Hrun Hfree.
  run_to_putenv.
  rewrite pop_fault_quiet by (rewrite Hq4, Hq3; exact Hp).
  change (negb (PAM_SUCCESS =? PAM_SUCCESS)) with false. cbv iota.
  unfold bind at 1. unfold bind at 1. unfold sys_chown at 1.
  rewrite scripted_quiet by (world_simpl; rewrite Hq4, Hq3; apply Hq; discriminate).
  world_simpl. rewrite Hdir4. cbn [ret].
  unfold bind at 1. unfold bind at 1. unfold sys_chmod at 1.
  rewrite scripted_quiet by (world_simpl; rewrite Hq4, Hq3; apply Hq; discriminate).
  world_simpl. rewrite lookup_insert_eq. cbn [ret].
  eexists. split; [reflexivity|]. world_simpl.
  destruct (ambient_fields _ _ Hamb4) as (He4 & Hg4 & _ & _ & _ & _ & _ & Hdata4 & Henv4 & _).
  rewrite Hfds4, Hfds3, Hfds2, Henv4, Henv3, Henv2, Hdata4, Hdata3, He4, He3, Hg4, Hg3,
    Hlog4, Hlog3, Hlog2, Hnext4, Hnext3, Hnext2, Hbytes.
  repeat split; try reflexivity.
  rewrite insert_insert_eq. change (Z.land S_IRWXU 4095) with 448.
  apply map_eq. intros q.
  destruct (decide (q = derived_runtime_dir uid)) as [->|Hne].
  - rewrite !lookup_insert_eq. reflexivity.
  - rewrite !(lookup_insert_ne _ (derived_runtime_dir uid)) by congruence.
    rewrite (Hfr4 q Hne), Hfs3, Hfs2, Hbytes. reflexivity.
Qed.

(** X13.  Called by root for a known user, with every call answering as
    the system would, session-start returns [PAM_SUCCESS] having written
    the count it found plus one to the counter file, made the directory of
    the name it derives a directory of the user with mode 0700, published
    that name in the PAM environment under [VAR_NAME] and set the session
    token.  It leaves the counter descriptor closed and every other entry
    of the file system but the parent directory as it was, and it returns
    under the uid and gid of the user. *)
Theorem session_start_succeeds (w : world) user uid gid n :
  quiet w ->
  session_start_ready w user uid gid ->
  counter_holds w uid n ->
  runtime_dir_free w uid ->
  let out := pam_sm_open_session w in
  let dir := derived_runtime_dir uid in
  fst out = PAM_SUCCESS
  /\ (exists c', file_content (snd out) (counter_path uid) = Some c'
                 /\ decimal_of (n + 1) c')
  /\ fs (snd out) !! dir = Some (Dir uid gid 448)
  /\ fs (snd out) !! PARENT_DIR = Some (Dir 0 0 493)
  /\ (forall q, q <> counter_path uid -> q <> dir -> q <> PARENT_DIR ->
        fs (snd out) !! q = fs w !! q)
  /\ pam_env (snd out) = (VAR_NAME +:+ "=" +:+ dir) :: pam_env w
  /\ pam_data (snd out) = Some (Some 1)
  /\ fds (snd out) = fds w
  /\ euid (snd out) = uid /\ egid (snd out) = gid.
Proof.
  intros Hq Hready Hcount Hfree out dir. unfold dir. clear dir.
  pose proof Hready as [Hroot Hum _ _ Hu _ (du & dg & dm & Hrun) _ Hfresh].
  destruct (paths_distinct uid Hu) as (Hcp & Hdp & _).
  destruct (derived_parent uid Hu) as (_ & _ & _ & Hdc & Hdr).
  destruct (open_session_to_locked w user uid gid n) as
    (w1 & c & cu & cg & cm & E & Hfs1 & Hfds1 & Hq1 & Hlog1 & Hamb1 & Hreads);
    [intros s _ _ _ _ _; apply Hq|exact Hready|exact Hcount|].
  destruct (ambient_fields _ _ Hamb1) as (He1 & _ & _ & _ & _ & _ & _ & Hdata1 & Henv1 & _).
  assert (Hcr : counter_path uid <> "/run")
    by (rewrite counter_path_eq by exact Hu; discriminate).
  destruct (open_session_locked_ok (Z.of_nat (next_fd w)) user uid gid n w1 c cu cg cm
              du dg dm)
    as (wf & Ef & Hfsf & Hfdsf & Henvf & Hdataf & Hef & Hgf & Hlogf & Hnextf).
  { intros s _. rewrite Hq1. apply Hq. }
  { rewrite Hq1. apply Hq. }
  { exact Hu. }
  { rewrite He1. exact Hroot. }
  { rewrite Hfds1. apply lookup_insert_eq. }
  { rewrite Hfs1. apply lookup_insert_eq. }
  { exact Hreads. }
  { rewrite Hfs1, !lookup_insert_ne by (try congruence; discriminate).
    exact Hrun. }
  { unfold runtime_dir_free. rewrite Hfs1, !lookup_insert_ne by congruence. exact Hfree. }
  unfold out. rewrite E, (bind_run _ _ _ _ _ Ef).
  destruct (0 <=? Z.of_nat (next_fd w)) eqn:Efd; [|apply Z.leb_gt in Efd; lia].
  unfold bind, sys_close, ret. cbn [fst snd]. world_simpl.
  rewrite Hfsf, Hfs1, Hfdsf, Hfds1, Henvf, Henv1.
  split; [reflexivity|]. split.
  { exists (decimal (n + 1)). split.
    - unfold file_content. world_simpl. rewrite Hfsf, Hfs1.
      rewrite lookup_insert_ne, lookup_insert_eq by congruence. reflexivity.
    - apply decimal_is_decimal_of.
      destruct Hcount as [[_ ->]|(c0 & _ & _ & _ & _ & [(Hd & -> & Hlt)|[_ ->]])];
        try (unfold INT_MAX; lia).
      pose proof (digits_value_ge c0 0 Hd ltac:(lia)). lia. }
  split; [apply lookup_insert_eq|].
  split.
  { rewrite !lookup_insert_ne by congruence. apply lookup_insert_eq. }
  split.
  { intros q H1 H2 H3. rewrite !lookup_insert_ne by congruence. reflexivity. }
  split; [reflexivity|]. split; [exact Hdataf|].
  split.
  { rewrite insert_insert_eq, delete_insert_eq, delete_id by exact Hfresh. reflexivity. }
  auto.
Qed.

Lemma session_start_succeeds_witness :
  let w := machine base_fs 0 None quiet_faults in
  let out := pam_sm_open_session w in
  fst out = PAM_SUCCESS
  /\ fs (snd out) !! derived_runtime_dir 1000 = Some (Dir 1000 1000 448)
  /\ euid (snd out) = 1000.
Proof.
  intros w out.
  assert (Hready : session_start_ready w "alice" 1000 1000).
  { split.
    - reflexivity.
    - vm_compute. split; discriminate.
    - split; [reflexivity|discriminate].
    - reflexivity.
    - unfold INT_MAX. lia.
    - exists 0, 0, 493. reflexivity.
    - exists 0, 0, 493. reflexivity.
    - vm_compute. set_solver.
    - reflexivity. }
  destruct (session_start_succeeds w "alice" 1000 1000 0 (fun _ => eq_refl) Hready)
    as (H1 & _ & H2 & _ & _ & _ & _ & _ & H3 & _).
  - left. split; reflexivity.
  - left. reflexivity.
  - auto.
Defined.

Lemma open_session_locked_putenv_fails fd user uid gid n w c cu cg cm du dg dm f q :
  (forall s, s <> PamPutenv -> faults w s = []) ->
  faults w PamPutenv = Some f :: q ->
  0 <= uid <= INT_MAX -> euid w = 0 -> ruid w = 0 -> rgid w = 0 ->
  fds w !! fd = Some (counter_path uid, 0%nat) ->
  fs w !! counter_path uid = Some (File c cu cg cm) ->
  (forallb is_digit c = true /\ n = digits_value 0 c /\ n < INT_MAX)
  \/ (c = ["-"%char] /\ n = 0) ->
  fs w !! "/run" = Some (Dir du dg dm) ->
  runtime_dir_free w uid ->
  exists wf,
    open_session_locked fd (counter_file uid) (intlen (wrap32 uid)) user uid gid w
      = (PAM_SESSION_ERR, wf)
    /\ fs wf !! counter_path uid = Some (File (decimal n) cu cg cm)
    /\ (exists a b m, fs wf !! derived_runtime_dir uid = Some (Dir a b m))
    /\ fds wf = <[fd := (counter_path uid, length (decimal n))]> (fds w)
    /\ pam_env wf = pam_env w
    /\ pam_data wf = Some None
    /\ euid wf = 0 /\ egid wf = 0
    /\ log wf = ("Failed to set %s environment variable", [VAR_NAME]) :: log w.
Proof.
  intros Hq Hp Hu Hroot Hruid Hrgid Hfd Hfs Hreads Hrun Hfree.
  run_to_putenv.
  rewrite (pop_fault_head PamPutenv w4 (Some f) q) by (rewrite Hq4, Hq3; exact Hp).
  cbn [ret]. rewrite pam_code_fails.
  destruct (ambient_fields _ _ Hamb4)
    as (He4 & Hg4 & Hru4 & Hrg4 & _ & _ & _ & Hdata4 & Henv4 & _).
  unfold bind at 1. unfold log_error at 1.
  set (w5 := with_log _ (with_faults _ w4)).
  assert (Hq5 : forall s, s <> PamPutenv -> faults w5 s = []).
  { intros s Hs. unfold w5. world_simpl.
    destruct (decide (s = PamPutenv)); [contradiction|].
    rewrite Hq4, Hq3. apply Hq, Hs. }
  assert (Hrest5 : fs w5 = fs w4 /\ fds w5 = fds w4 /\ euid w5 = euid w4
                   /\ egid w5 = egid w4 /\ ruid w5 = ruid w4 /\ rgid w5 = rgid w4
                   /\ pam_env w5 = pam_env w4 /\ next_fd w5 = next_fd w4
                   /\ log w5 = ("Failed to set %s environment variable", [VAR_NAME]) :: log w4)
    by (repeat split; reflexivity).
  destruct Hrest5 as (Hfs5 & Hfds5 & He5 & Hg5 & Hru5 & Hrg5 & Henv5 & Hnext5 & Hlog5).
  clearbody w5.
  unfold restore_privs.
  unfold bind at 1. unfold sys_seteuid at 1.
  rewrite scripted_quiet by (apply Hq5; discriminate).
  world_simpl. rewrite Hru5, Hru4, Hru3, Hru2, Hruid.
  change (0 =? 0) with true. rewrite orb_true_r. cbv iota.
  unfold bind at 1. unfold bind at 1. unfold sys_setegid at 1.
  rewrite scripted_quiet by (world_simpl; apply Hq5; discriminate).
  world_simpl. change ((0 =? 0) || (0 =? rgid w5)) with true. cbv iota.
  cbn [ret]. unfold bind at 1. cbn [ret].
  set (w6 := with_ids 0 0 _).
  assert (Hq6 : forall s, s <> PamPutenv -> faults w6 s = []) by exact Hq5.
  assert (Hrest6 : fs w6 = fs w5 /\ fds w6 = fds w5 /\ euid w6 = 0 /\ egid w6 = 0
                   /\ pam_env w6 = pam_env w5 /\ next_fd w6 = next_fd w5
                   /\ log w6 = log w5)
    by (repeat split; reflexivity).
  destruct Hrest6 as (Hfs6 & Hfds6 & He6 & Hg6 & Henv6 & Hnext6 & Hlog6).
  clearbody w6.
  unfold revert_counter.
  destruct (0 <=? n) eqn:En; [|apply Z.leb_gt in En; lia].
  unfold bind at 1. unfold bind at 1.
  rewrite (write_counter_quiet fd n w6 (counter_path uid) (length bytes) bytes cu cg cm
             ltac:(lia)
             (Hq6 SysLseek ltac:(discriminate))
             (Hq6 SysWrite ltac:(discriminate))
             (Hq6 SysFtruncate ltac:(discriminate))).
  2: { rewrite Hfds6, Hfds5, Hfds4, Hfds3, Hfds2. apply lookup_insert_eq. }
  2: { rewrite Hfs6, Hfs5, (Hfr4 (counter_path uid) ltac:(congruence)), Hfs3, Hfs2. apply lookup_insert_eq. }
  change (0 <? 0) with false. cbv iota. cbn [ret]. cbv zeta.
  change (negb (PAM_SESSION_ERR =? PAM_SUCCESS)) with true. cbv iota.
  unfold bind at 1. unfold bind at 1. unfold pam_set_data at 1. unfold bind at 1.
  rewrite pop_fault_quiet by (apply Hq6; discriminate).
  cbn [ret].
  eexists. split; [reflexivity|]. unfold after_write. world_simpl.
  rewrite (counter_bytes_decimal n) by (unfold INT_MAX in *; lia).
  rewrite Hfs6, Hfs5, Hfds6, Hfds5, Hfds4, Hfds3, Hfds2, Henv6, Henv5, Henv4, Henv3, Henv2,
    Hlog6, Hlog5, Hlog4, Hlog3, Hlog2.
  split; [apply lookup_insert_eq|].
  split; [rewrite lookup_insert_ne by congruence; eauto|].
  split; [apply insert_insert_eq|].
  repeat split; try reflexivity; assumption.
Qed.

(** X14.  When [pam_putenv] fails, session-start, having already written
    the new count, switched to the user and made the directory, logs the
    failure, switches back to root, writes the count it had found back to
    the counter file, clears the session token and returns
    [PAM_SESSION_ERR]; the directory it made is left behind. *)
Theorem session_start_rolls_back (w : world) user uid gid n f q :
  (forall s, s <> PamPutenv -> faults w s = []) ->
  faults w PamPutenv = Some f :: q ->
  session_start_ready w user uid gid ->
  ruid w = 0 -> rgid w = 0 ->
  counter_holds w uid n ->
  runtime_dir_free w uid ->
  let out := pam_sm_open_session w in
  fst out = PAM_SESSION_ERR
  /\ (exists c', file_content (snd out) (counter_path uid) = Some c'
                 /\ decimal_of n c')
  /\ (exists a b m, fs (snd out) !! derived_runtime_dir uid = Some (Dir a b m))
  /\ pam_data (snd out) = Some None
  /\ pam_env (snd out) = pam_env w
  /\ euid (snd out) = 0 /\ egid (snd out) = 0
  /\ fds (snd out) = fds w
  /\ log (snd out) = ("Failed to set %s environment variable", [VAR_NAME]) :: log w.
Proof.
  intros Hq Hp Hready Hruid Hrgid Hcount Hfree out.
  pose proof Hready as [Hroot Hum _ _ Hu _ (du & dg & dm & Hrun) _ Hfresh].
  destruct (paths_distinct uid Hu) as (Hcp & Hdp & _).
  destruct (derived_parent uid Hu) as (_ & _ & _ & Hdc & Hdr).
  destruct (open_session_to_locked w user uid gid n) as
    (w1 & c & cu & cg & cm & E & Hfs1 & Hfds1 & Hq1 & Hlog1 & Hamb1 & Hreads);
    [intros s _ _ Hs _ _; apply Hq, Hs|exact Hready|exact Hcount|].
  destruct (ambient_fields _ _ Hamb1)
    as (He1 & _ & Hru1 & Hrg1 & _ & _ & _ & Hdata1 & Henv1 & _).
  assert (Hcr : counter_path uid <> "/run")
    by (rewrite counter_path_eq by exact Hu; discriminate).
  destruct (open_session_locked_putenv_fails (Z.of_nat (next_fd w)) user uid gid n w1
              c cu cg cm du dg dm f q)
    as (wf & Ef & Hcf & Hdf & Hfdsf & Henvf & Hdataf & Hef & Hgf & Hlogf).
  { intros s Hs. rewrite Hq1. apply Hq, Hs. }
  { rewrite Hq1. exact Hp. }
  { exact Hu. }
  { rewrite He1. exact Hroot. }
  { rewrite Hru1. exact Hruid. }
  { rewrite Hrg1. exact Hrgid. }
  { rewrite Hfds1. apply lookup_insert_eq. }
  { rewrite Hfs1. apply lookup_insert_eq. }
  { exact Hreads. }
  { rewrite Hfs1, !lookup_insert_ne by (try congruence; discriminate). exact Hrun. }
  { unfold runtime_dir_free. rewrite Hfs1, !lookup_insert_ne by congruence. exact Hfree. }
  unfold out. rewrite E, (bind_run _ _ _ _ _ Ef).
  destruct (0 <=? Z.of_nat (next_fd w)) eqn:Efd; [|apply Z.leb_gt in Efd; lia].
  unfold bind, sys_close, ret. cbn [fst snd]. world_simpl.
  rewrite Hfdsf, Hfds1, Henvf, Henv1, Hlogf, Hlog1.
  split; [reflexivity|]. split.
  { exists (decimal n). split.
    - unfold file_content. world_simpl. rewrite Hcf. reflexivity.
    - apply decimal_is_decimal_of.
      destruct Hcount as [[_ ->]|(c0 & _ & _ & _ & _ & [(Hd & -> & Hlt)|[_ ->]])];
        try (unfold INT_MAX; lia).
      pose proof (digits_value_ge c0 0 Hd ltac:(lia)). lia. }
  split; [exact Hdf|]. split; [exact Hdataf|]. split; [reflexivity|].
  split; [exact Hef|]. split; [exact Hgf|].
  split; [|reflexivity].
  rewrite insert_insert_eq, delete_insert_eq, delete_id by exact Hfresh. reflexivity.
Qed.

Lemma session_start_rolls_back_witness :
  let putenv_fails := fun s => match s with
                               | PamPutenv => [Some (Fail PAM_BUF_ERR)]
                               | _ => []
                               end in
  let w := machine base_fs 0 None putenv_fails in
  let out := pam_sm_open_session w in
  fst out = PAM_SESSION_ERR
  /\ euid (snd out) = 0
  /\ pam_data (snd out) = Some None.
Proof.
  intros putenv_fails w out.
  assert (Hready : session_start_ready w "alice" 1000 1000).
  { split.
    - reflexivity.
    - vm_compute. split; discriminate.
    - split; [reflexivity|discriminate].
    - reflexivity.
    - unfold INT_MAX. lia.
    - exists 0, 0, 493. reflexivity.
    - exists 0, 0, 493. reflexivity.
    - vm_compute. set_solver.
    - reflexivity. }
  destruct (session_start_rolls_back w "alice" 1000 1000 0 (Fail PAM_BUF_ERR) [])
    as (H1 & _ & _ & H2 & _ & H3 & _); auto.
  - intros s Hs. destruct s; try reflexivity. contradiction.
  - left. split; reflexivity.
  - left. reflexivity.
Defined.

(** ** Session-end on a counter that is not a number *)

Lemma close_session_unreadable fd file l v w :
  v = -2 \/ v = -1 ->
  faults w PamSetData = [] ->
  exists wf,
    close_session_counted fd file l v w
      = (if v =? -2 then PAM_SUCCESS else PAM_SESSION_ERR, wf)
    /\ fs wf = fs w
    /\ fds wf = delete fd (fds w)
    /\ pam_data wf = Some None
    /\ log wf = (if v =? -2 then []
                 else [("Failed to read counter from %s", [cstring file])]) ++ log w
    /\ trace wf = EvClose fd :: trace w.
Proof.
  intros Hv Hq. unfold close_session_counted.
  destruct Hv as [-> | ->].
  - change (-2 <? 0) with true. change (-2 =? -2) with true. cbv iota zeta.
    change (0 <? 0) with false. cbv iota.
    unfold bind at 1. unfold bind at 1. cbn [ret].
    rewrite close_session_done_quiet by exact Hq.
    eexists. split; [reflexivity|]. world_simpl. repeat split; reflexivity.
  - change (-1 <? 0) with true. change (-1 =? -2) with false. cbv iota zeta.
    change (-1 <? 0) with true. cbv iota.
    unfold bind at 1. unfold bind at 1. unfold log_error at 1. cbn [ret].
    rewrite close_session_done_quiet by exact Hq.
    eexists. split; [reflexivity|]. world_simpl. repeat split; reflexivity.
Qed.

(** X15.  When the counter file does not hold a number, session-end
    removes nothing and writes nothing: it closes the counter file, clears
    the session token and returns [PAM_SUCCESS] if the file holds the mark
    of an unusable directory, [PAM_SESSION_ERR] with a log line if it holds
    anything else. *)
Theorem close_session_counter_not_a_number (w : world) user uid gid c :
  session_end_ready w user uid gid c ->
  forallb is_digit c = false ->
  digits_value 0 (digit_prefix c) <= INT_MAX ->
  let out := pam_sm_close_session w in
  fs (snd out) = <[PARENT_DIR := Dir 0 0 493]> (fs w)
  /\ fds (snd out) !! Z.of_nat (next_fd w) = None
  /\ pam_data (snd out) = Some None
  /\ (padded_sentinel c ->
      fst out = PAM_SUCCESS /\ log (snd out) = log w)
  /\ (~ padded_sentinel c ->
      fst out = PAM_SESSION_ERR
      /\ log (snd out)
         = ("Failed to read counter from %s", [counter_path uid]) :: log w).
Proof.
  intros Hready Hnd Hle out.
  destruct (close_session_to_count w user uid gid c Hready)
    as (v & w2 & pos2 & Hv & Hrun & Hfs & Hfds & Hq & Hlog & t2 & Ht & Hno).
  pose proof (ser_faults _ _ _ _ _ Hready) as Hrf.
  assert (Hcases : (padded_sentinel c /\ v = -2) \/ (~ padded_sentinel c /\ v = -1)).
  { destruct (parse_chunks_spec (S (length c)) c 0 ltac:(lia) Hle ltac:(lia))
      as [[Hd _]|[(_ & _ & Hp & E)|(_ & Hp & E)]].
    - congruence.
    - left. split; [exact Hp|congruence].
    - right. split; [tauto|congruence]. }
  destruct (close_session_unreadable (Z.of_nat (next_fd w)) (counter_file uid)
              (intlen (wrap32 uid)) v w2)
    as (wf & E & Hfsf & Hfdsf & Hdataf & Hlogf & Htf).
  { destruct Hcases as [[_ ->]|[_ ->]]; auto. }
  { rewrite Hq. apply Hrf; discriminate. }
  unfold out. rewrite Hrun, E. cbn [fst snd].
  rewrite Hfsf, Hfs, Hfdsf, Hdataf, Hlogf, Hlog.
  split; [reflexivity|]. split; [apply lookup_delete_eq|]. split; [reflexivity|].
  split; intros Hp; destruct Hcases as [[Hp' ->]|[Hp' ->]]; try contradiction;
    split; reflexivity.
Qed.

Lemma close_session_counter_not_a_number_witness :
  let out := pam_sm_close_session (ending (counter_fs "-") quiet_faults) in
  fst out = PAM_SUCCESS /\ pam_data (snd out) = Some None.
Proof.
  intros out.
  destruct (close_session_counter_not_a_number
              (ending (counter_fs "-") quiet_faults) "alice" 1000 1000 ["-"%char])
    as (_ & _ & Hd & Hs & _).
  - apply (ending_ready _ _ _ 0 0 420);
      [reflexivity|vm_compute; reflexivity|vm_compute; reflexivity].
  - reflexivity.
  - vm_compute. discriminate.
  - split; [|exact Hd]. apply Hs. exists 0%nat. reflexivity.
Defined.

(** ** The process after a successful session-start *)

Lemma token_keeps {A} (m : M A) :
  keeps_ambient m -> hoare token_set m (fun _ => token_set).
Proof.
  intros H w Hw. unfold token_set in *.
  destruct (ambient_fields _ _ (H w)) as (_ & _ & _ & _ & _ & _ & _ & Hd & _).
  rewrite Hd. exact Hw.
Qed.

Lemma token_setegid g : hoare token_set (sys_setegid g) (fun _ => token_set).
Proof.
  apply hoare_scripted; try (intros; assumption).
  intros o w H. destruct (_ || _); exact H.
Qed.

Lemma token_seteuid u : hoare token_set (sys_seteuid u) (fun _ => token_set).
Proof.
  apply hoare_scripted; try (intros; assumption).
  intros o w H. destruct (_ || _); exact H.
Qed.

Lemma token_putenv s : hoare token_set (pam_putenv s) (fun _ => token_set).
Proof.
  intros w H. unfold pam_putenv, bind, pop_fault.
  destruct (faults w PamPutenv) as [|[f|] q]; exact H.
Qed.

Lemma pam_set_data_sets d :
  hoare anywhere (pam_set_data d) (fun r w => r = PAM_SUCCESS -> pam_data w = Some d).
Proof.
  intros w _. unfold pam_set_data, bind, pop_fault.
  destruct (faults w PamSetData) as [|[f|] q]; cbn; try reflexivity.
  intros E. pose proof (pam_code_fails f) as H. rewrite E in H. discriminate H.
Qed.

(** A session-start that succeeds has set the session token. *)
Lemma open_session_locked_token fd file l user uid gid :
  hoare anywhere (open_session_locked fd file l user uid gid)
        (fun r w => r = PAM_SUCCESS -> token_set w).
Proof.
  unfold open_session_locked. cbv zeta.
  apply (hoare_bind _ (fun _ => anywhere)); [apply hoare_any|]. intros count.
  destruct (_ && _); [fails_here|].
  apply (hoare_bind _ (fun _ => anywhere)); [apply hoare_any|]. intros r.
  destruct (r <? 0) eqn:Er.
  { apply hoare_fails. apply returns_bind. intros ?. apply returns_ret.
    apply Z.ltb_lt in Er. unfold PAM_SUCCESS. lia. }
  apply (hoare_bind _ (fun _ => anywhere)); [apply hoare_any|]. intros session_data.
  destruct (negb session_data); [fails_here|].
  apply (hoare_bind _ _ _ _ _ (pam_set_data_sets (Some 1))). intros r'.
  destruct (r' =? PAM_SUCCESS) eqn:Er'; cbn [negb]; [|fails_here].
  apply Z.eqb_eq in Er'.
  apply (hoare_pre _ token_set); [intros w H; apply H, Er'|].
  apply (hoare_bind _ (fun _ => token_set)); [apply token_setegid|]. intros g.
  apply (hoare_bind _ (fun _ => token_set)).
  { destruct g as [x|e]; [|apply hoare_ret; auto].
    apply (hoare_bind _ (fun _ => token_set)); [apply token_seteuid|].
    intros u. apply hoare_ret. auto. }
  intros [|]; cbn [negb]; [|fails_here].
  apply (hoare_bind _ (fun _ => token_set)); [apply token_keeps, keeps_mkdir|]. intros m.
  match goal with |- hoare _ (if ?b then _ else _) _ => destruct b end; [fails_here|].
  apply (hoare_bind _ (fun _ => token_set)); [apply token_putenv|]. intros r''.
  destruct (negb (r'' =? PAM_SUCCESS)); [fails_here|].
  apply (hoare_bind _ (fun _ => token_set)); [apply token_keeps, keeps_chown|]. intros co.
  apply (hoare_bind _ (fun _ => token_set)).
  { destruct co; [apply hoare_ret; auto|apply token_keeps, keeps_log]. }
  intros _.
  apply (hoare_bind _ (fun _ => token_set)); [apply token_keeps, keeps_chmod|]. intros cm.
  apply (hoare_bind _ (fun _ => token_set)).
  { destruct cm; [apply hoare_ret; auto|apply token_keeps, keeps_log]. }
  intros _. apply hoare_ret. intros w H _. exact H.
Qed.

Lemma open_session_success_token w :
  fst (pam_sm_open_session w) = PAM_SUCCESS -> token_set (snd (pam_sm_open_session w)).
Proof.
  assert (H : hoare anywhere pam_sm_open_session (fun r w' => r = PAM_SUCCESS -> token_set w'));
    [|apply H; exact I].
  unfold pam_sm_open_session.
  apply (hoare_bind _ (fun _ => anywhere)); [apply hoare_any|]. intros e.
  destruct (negb _); [apply hoare_fails; repeat returns_step|].
  apply (hoare_bind _ (fun _ => anywhere)); [apply hoare_any|]. intros gu.
  destruct (no_user _ _); [apply hoare_fails; repeat returns_step|].
  apply (hoare_bind _ (fun _ => anywhere)); [apply hoare_any|].
  intros [[pw_uid pw_gid]|]; [|apply hoare_fails; repeat returns_step].
  cbv zeta.
  destruct (_ || _); [apply hoare_fails; repeat returns_step|].
  apply (hoare_bind _ (fun _ => anywhere)); [apply hoare_any|]. intros ok.
  destruct (ok =? 0); [apply hoare_fails; repeat returns_step|].
  apply (hoare_bind _ (fun _ => anywhere)); [apply hoare_any|]. intros fd.
  destruct (fd <? 0); [apply hoare_fails; repeat returns_step|].
  apply (hoare_bind _ _ _ _ _ (open_session_locked_token _ _ _ _ _ _)). intros r.
  apply (hoare_bind _ (fun _ w => r = PAM_SUCCESS -> token_set w)).
  { intros w' H. destruct (0 <=? fd); exact H. }
  intros _. apply hoare_ret. auto.
Qed.

Lemma open_session_refuses w :
  euid w <> 0 ->
  pam_sm_open_session w = (PAM_SESSION_ERR, refused "Must be root to open session" w).
Proof.
  intros Hne. unfold pam_sm_open_session, bind, sys_geteuid.
  destruct (euid w =? 0) eqn:E; [apply Z.eqb_eq in E; contradiction|]. reflexivity.
Qed.

Lemma close_session_refuses w d :
  euid w <> 0 -> faults w PamGetData = [] -> pam_data w = Some (Some d) ->
  pam_sm_close_session w = (PAM_SESSION_ERR, refused "Must be root to close session" w).
Proof.
  intros Hne Hq Hd.
  unfold pam_sm_close_session, bind, pam_get_data, bind.
  rewrite (pop_fault_quiet _ _ Hq), Hd. cbn.
  unfold sys_geteuid.
  destruct (euid w =? 0) eqn:E; [apply Z.eqb_eq in E; contradiction|]. reflexivity.
Qed.

(** X16.  A session-start that succeeds for a user other than root leaves
    the process unable to run the hooks again: the token is set, but the
    effective uid is the user's, so a session-end in the same process only
    logs and returns [PAM_SESSION_ERR], with the counter still at its
    incremented value and the directory in place, and a second
    session-start is refused in the same way. *)
Theorem hooks_after_successful_start (w : world) user uid gid :
  fst (pam_sm_open_session w) = PAM_SUCCESS ->
  pam_user w = Some user -> passwd w !! user = Some (uid, gid) -> uid <> 0 ->
  let w1 := snd (pam_sm_open_session w) in
  pam_data w1 = Some (Some 1)
  /\ pam_sm_open_session w1
     = (PAM_SESSION_ERR, refused "Must be root to open session" w1)
  /\ (faults w1 PamGetData = [] ->
      pam_sm_close_session w1
      = (PAM_SESSION_ERR, refused "Must be root to close session" w1)).
Proof.
  intros Hok Huser Hpw Hne w1.
  destruct (open_session_success_identity w Hok)
    as (user' & uid' & gid' & Hu' & Hp' & _ & He & _).
  assert (Hid : euid w1 <> 0).
  { unfold w1. rewrite He. rewrite Huser in Hu'. injection Hu' as <-.
    rewrite Hpw in Hp'. injection Hp' as <- _. exact Hne. }
  pose proof (open_session_success_token w Hok) as Htok.
  split; [exact Htok|]. split; [apply open_session_refuses, Hid|].
  intros Hq. apply (close_session_refuses w1 1 Hid Hq Htok).
Qed.

Lemma hooks_after_successful_start_witness :
  let w1 := snd (pam_sm_open_session (machine prepared_fs 0 None quiet_faults)) in
  fst (pam_sm_close_session w1) = PAM_SESSION_ERR
  /\ fs (snd (pam_sm_close_session w1)) = fs w1.
Proof.
  intros w1.
  destruct (hooks_after_successful_start (machine prepared_fs 0 None quiet_faults)
              "alice" 1000 1000) as (_ & _ & H); try reflexivity; [discriminate|].
  fold w1 in H. rewrite H by reflexivity. split; reflexivity.
Defined.

(** ** What [ensure_parent_dir] answers *)

Section ParentVerdict.
Variables (F : gmap string node) (L : list (string * list string)).

Local Abbreviation untouched := (parent_untouched F L).
Local Abbreviation refused_ := (parent_refused F L).

Lemma verdict_mkdir p mode :
  p = PARENT_DIR ->
  hoare untouched (sys_mkdir p mode)
        (fun m w => match m with
                    | Ok _ => parent_is_dir w
                    | Err _ => untouched w
                    end).
Proof.
  intros ->. apply hoare_scripted; try (intros; assumption).
  intros o w [Hf Hl].
  destruct (fs w !! PARENT_DIR) eqn:E; world_simpl; [split; assumption|].
  destruct (parent_error (fs w) PARENT_DIR); world_simpl; [split; assumption|].
  eexists _, _, _. world_simpl. apply lookup_insert_eq.
Qed.

Lemma verdict_stat :
  hoare untouched (sys_stat PARENT_DIR)
        (fun st w => untouched w
                     /\ forall nd, st = Ok nd -> fs w !! PARENT_DIR = Some nd).
Proof.
  apply hoare_scripted; try (intros; assumption).
  - intros c w H. split; [exact H|discriminate].
  - intros o w H. destruct (fs w !! PARENT_DIR) eqn:E; world_simpl.
    + split; [exact H|]. intros nd [= <-]. exact E.
    + split; [exact H|discriminate].
Qed.

Lemma verdict_log fmt args :
  hoare untouched (log_error fmt args) (fun _ => refused_).
Proof.
  intros w [Hf Hl]. split; [exact Hf|]. exists (fmt, args). rewrite <- Hl. reflexivity.
Qed.

Lemma parent_dir_log fmt args :
  hoare parent_is_dir (log_error fmt args) (fun _ => parent_is_dir).
Proof. intros w H. exact H. Qed.

Lemma parent_dir_chown u g :
  hoare parent_is_dir (sys_chown PARENT_DIR u g) (fun _ => parent_is_dir).
Proof.
  apply hoare_scripted; try (intros; assumption).
  intros o w (u0 & g0 & m0 & E). rewrite E. world_simpl.
  eexists _, _, _. world_simpl. apply lookup_insert_eq.
Qed.

Lemma parent_dir_chmod mode :
  hoare parent_is_dir (sys_chmod PARENT_DIR mode) (fun _ => parent_is_dir).
Proof.
  apply hoare_scripted; try (intros; assumption).
  intros o w (u0 & g0 & m0 & E). rewrite E. world_simpl.
  eexists _, _, _. world_simpl. apply lookup_insert_eq.
Qed.

Lemma ensure_parent_dir_verdict_in :
  hoare untouched ensure_parent_dir
        (fun r w => (r = 1 /\ parent_is_dir w) \/ (r = 0 /\ refused_ w)).
Proof.
  unfold ensure_parent_dir.
  apply (hoare_bind _ (fun _ => untouched)); [intros w H; exact H|]. intros old_umask.
  apply (hoare_bind _ (fun r w => (r = 1 /\ parent_is_dir w) \/ (r = 0 /\ refused_ w))).
  2:{ intros r. apply (hoare_bind _ (fun _ w => (r = 1 /\ parent_is_dir w)
                                                \/ (r = 0 /\ refused_ w))).
      - intros w H. exact H.
      - intros _. apply hoare_ret. auto. }
  apply (hoare_bind _ _ _ _ _ (verdict_mkdir _ _ eq_refl)). intros m.
  apply (hoare_bind _ (fun (c : bool) w => if c then parent_is_dir w else refused_ w)).
  - destruct m as [x|e]; [apply hoare_ret; auto|].
    destruct (negb (e =? EEXIST)).
    + apply (hoare_bind _ _ _ _ _ (verdict_log _ _)). intros _. apply hoare_ret. auto.
    + apply (hoare_bind _ _ _ _ _ verdict_stat). intros [nd|c].
      * destruct nd as [c u g md|u g md]; cbn [S_ISDIR negb].
        -- apply (hoare_pre _ untouched); [intros w [H _]; exact H|].
           apply (hoare_bind _ _ _ _ _ (verdict_log _ _)). intros _. apply hoare_ret. auto.
        -- apply hoare_ret. intros w [_ H]. eexists _, _, _. apply H. reflexivity.
      * apply (hoare_pre _ untouched); [intros w [H _]; exact H|].
        apply (hoare_bind _ _ _ _ _ (verdict_log _ _)). intros _. apply hoare_ret. auto.
  - intros [|]; cbn [negb].
    + apply (hoare_bind _ (fun _ => parent_is_dir)); [apply parent_dir_chown|]. intros co.
      apply (hoare_bind _ (fun _ => parent_is_dir)).
      { destruct co; [apply hoare_ret; auto|apply parent_dir_log]. }
      intros _.
      apply (hoare_bind _ (fun _ => parent_is_dir)); [apply parent_dir_chmod|]. intros cm.
      apply (hoare_bind _ (fun _ => parent_is_dir)).
      { destruct cm; [apply hoare_ret; auto|apply parent_dir_log]. }
      intros _. apply hoare_ret. auto.
    + apply hoare_ret. auto.
Qed.
End ParentVerdict.

(** X17.  Whatever the calls answer, [ensure_parent_dir] returns 1 or 0.
    It returns 1 only with the parent path a directory in the file system
    it leaves, also when [chown] or [chmod] failed; it returns 0 only after
    logging one message, with the file system as it found it. *)
Theorem ensure_parent_dir_verdict (w : world) :
  let out := ensure_parent_dir w in
  (fst out = 1 /\ parent_is_dir (snd out))
  \/ (fst out = 0 /\ fs (snd out) = fs w /\ exists e, log (snd out) = e :: log w).
Proof.
  intros out. apply (ensure_parent_dir_verdict_in (fs w) (log w) w). split; reflexivity.
Qed.

Lemma ensure_parent_dir_verdict_witness :
  let w := machine base_fs 0 None
             (fun s => match s with
                       | SysChown | SysChmod => [Some (Fail EPERM)]
                       | _ => []
                       end) in
  fst (ensure_parent_dir w) = 1 /\ parent_is_dir (snd (ensure_parent_dir w)).
Proof.
  intros w. destruct (ensure_parent_dir_verdict w) as [H | [H _]]; [exact H|].
  vm_compute in H. discriminate H.
Defined.

(** ** What a successful [rmrf] has done *)

Lemma hoare_returns {A} (P : world -> Prop) (Q : A -> Prop) (m : M A) :
  returns Q m -> hoare P m (fun r _ => Q r).
Proof. intros H w _. apply H. Qed.

Lemma rmrf_entry_failed recurse path len d_name :
  returns (eq (-1)) (rmrf_entry recurse path len (-1) d_name).
Proof.
  unfold rmrf_entry. cbv zeta.
  destruct (_ || _); [apply returns_ret; reflexivity|].
  destruct (_ <=? _); [apply returns_bind; intros; apply returns_ret; reflexivity|].
  apply returns_bind. intros [nd|e];
    [|apply returns_bind; intros; apply returns_ret; reflexivity].
  destruct (S_ISDIR nd).
  - apply returns_bind. intros rr. destruct (negb _); apply returns_ret; reflexivity.
  - apply returns_bind. intros [u|e];
      [|apply returns_bind; intros]; apply returns_ret; reflexivity.
Qed.

Section RemovalVerdict.
Variable L : list (string * list string).
Variable recurse : string -> M Z.
Hypothesis recurse_clean :
  forall p, hoare (fun w => log w = L) (recurse p) (fun r w => r = 0 -> log w = L).

Local Abbreviation logged := (fun w : world => log w = L).

Lemma hoare_gives_up {Q : world -> Prop} (P : world -> Prop) (m : M Z) :
  returns (eq (-1)) m ->
  hoare P m (fun r w => (r = 0 \/ r = -1) /\ (r = 0 -> Q w)).
Proof.
  intros H w _. pose proof (H w) as E. rewrite <- E. split; [right; reflexivity|discriminate].
Qed.

Lemma logged_stat p : hoare logged (sys_stat p) (fun _ => logged).
Proof.
  apply hoare_scripted; try (intros; assumption).
  intros o w H. destruct (fs w !! p); exact H.
Qed.

Lemma logged_opendir p : hoare logged (sys_opendir p) (fun _ => logged).
Proof.
  apply hoare_scripted; try (intros; assumption).
  intros o w H. destruct (fs w !! p) as [[]|]; exact H.
Qed.

Lemma logged_unlink p :
  hoare logged (sys_unlink p)
        (fun u w => log w = L /\ forall x, u = Ok x -> fs w !! p = None).
Proof.
  apply hoare_scripted; try (intros; assumption).
  - intros c w H. split; [exact H|discriminate].
  - intros o w H. destruct (fs w !! p) as [[]|] eqn:E; world_simpl;
      (split; [exact H|]); try discriminate.
    intros _ _. apply lookup_delete_eq.
Qed.

Lemma clean_rmdir r p :
  hoare (removal_clean L r) (sys_rmdir p)
        (fun rd w => removal_clean L r w /\ forall x, rd = Ok x -> fs w !! p = None).
Proof.
  apply hoare_scripted; try (intros; assumption).
  - intros c w H. split; [exact H|discriminate].
  - intros o w H. destruct (fs w !! p) as [[]|] eqn:E; world_simpl;
      try (split; [exact H|discriminate]).
    destruct (children (fs w) p); world_simpl; [|split; [exact H|discriminate]].
    split; [exact H|]. intros _ _. apply lookup_delete_eq.
Qed.

Lemma rmrf_entry_clean path len r d_name :
  hoare (removal_clean L r) (rmrf_entry recurse path len r d_name)
        (fun r' w => removal_clean L r' w).
Proof.
  intros w [[-> | ->] Hl].
  2:{ rewrite <- (rmrf_entry_failed recurse path len d_name w).
      split; [right; reflexivity|discriminate]. }
  specialize (Hl eq_refl). revert w Hl.
  change (hoare logged (rmrf_entry recurse path len 0 d_name)
                (fun r' w => removal_clean L r' w)).
  unfold rmrf_entry, removal_clean. cbv zeta.
  destruct (_ || _); [apply hoare_ret; auto|].
  destruct (_ <=? _);
    [apply hoare_gives_up, returns_bind; intros; apply returns_ret; reflexivity|].
  apply (hoare_bind _ (fun _ => logged)); [apply logged_stat|]. intros [nd|e];
    [|apply hoare_gives_up, returns_bind; intros; apply returns_ret; reflexivity].
  destruct (S_ISDIR nd).
  - apply (hoare_bind _ _ _ _ _ (recurse_clean _)). intros rr.
    destruct (rr =? 0) eqn:Er; cbn [negb].
    + apply Z.eqb_eq in Er. apply hoare_ret. intros w H. auto.
    + apply hoare_ret. intros w _. split; [right; reflexivity|discriminate].
  - apply (hoare_bind _ _ _ _ _ (logged_unlink _)). intros [u|e].
    + apply hoare_ret. intros w [H _]. auto.
    + apply hoare_gives_up, returns_bind; intros; apply returns_ret; reflexivity.
Qed.

Lemma for_each_clean path len : forall entries r,
  hoare (removal_clean L r) (for_each (rmrf_entry recurse path len) r entries)
        (fun r' w => removal_clean L r' w).
Proof.
  induction entries as [|d rest IH]; intros r; cbn [for_each].
  - apply hoare_ret. auto.
  - apply (hoare_bind _ _ _ _ _ (rmrf_entry_clean path len r d)). exact IH.
Qed.

Lemma rmrf_body_done path :
  hoare logged (rmrf_body recurse path) (fun r w => removal_done L path r w).
Proof.
  unfold rmrf_body, removal_done.
  apply (hoare_bind _ _ _ _ _ (logged_unlink _)). intros [u|e].
  { apply hoare_ret. intros w [H1 H2]. split; [left; reflexivity|].
    intros _. split; [exact H1|]. apply (H2 u eq_refl). }
  apply (hoare_pre _ logged); [intros w H; apply H|].
  destruct (negb _);
    [apply hoare_gives_up, returns_bind; intros; apply returns_ret; reflexivity|].
  apply (hoare_bind _ (fun _ => logged)); [apply logged_opendir|]. intros [entries|e'];
    [|apply hoare_gives_up, returns_bind; intros; apply returns_ret; reflexivity].
  cbv zeta.
  destruct (_ <=? _);
    [apply hoare_gives_up, returns_bind; intros; apply returns_ret; reflexivity|].
  apply (hoare_bind _ (fun r w => removal_clean L r w)).
  { apply (hoare_pre _ (removal_clean L 0)); [|apply for_each_clean].
    intros w H. split; [left; reflexivity|]. intros _. exact H. }
  intros r.
  apply (hoare_bind _ _ _ _ _ (clean_rmdir r path)). intros [x|e'].
  - apply hoare_ret. intros w [[H1 H2] H3]. split; [exact H1|].
    intros E. split; [apply H2, E|apply (H3 x eq_refl)].
  - apply hoare_gives_up, returns_bind; intros; apply returns_ret; reflexivity.
Qed.
End RemovalVerdict.

Lemma rmrf_depth_done L : forall depth path,
  hoare (fun w => log w = L) (rmrf_depth depth path)
        (fun r w => removal_done L path r w).
Proof.
  induction depth as [|k IH]; intros path; simpl; apply rmrf_body_done.
  - intros p. apply hoare_ret. intros w _ E. discriminate E.
  - intros p w H E. apply (IH p w H), E.
Qed.

(** X18.  Whatever the calls answer, [rmrf] returns 0 or -1.  It returns 0
    only when [path] is gone from the file system and no message was
    logged: any failure on the way, at any depth, makes the result -1. *)
Theorem rmrf_success_means_removed (path : string) (w : world) :
  let out := rmrf path w in
  (fst out = 0 \/ fst out = -1)
  /\ (fst out = 0 -> fs (snd out) !! path = None /\ log (snd out) = log w).
Proof.
  intros out. destruct (rmrf_depth_done (log w) (Z.to_nat MAX_PATH_LEN) path w eq_refl)
    as [H1 H2].
  split; [exact H1|]. intros E. destruct (H2 E). split; assumption.
Qed.

Lemma rmrf_success_means_removed_witness :
  let out := rmrf "/run/user.10000" (ending (occupied_fs "1") quiet_faults) in
  fst out = 0
  /\ fs (snd out) !! "/run/user.10000" = None
  /\ fs (snd out) !! "/run/user.10000/bus" = None.
Proof.
  intros out.
  destruct (rmrf_success_means_removed "/run/user.10000"
              (ending (occupied_fs "1") quiet_faults)) as [_ H].
  assert (E : fst out = 0) by (vm_compute; reflexivity).
  split; [exact E|]. split; [apply H, E|]. vm_compute. reflexivity.
Defined.
